(** * The qPCR calling engine of covidhub: [qpcr_processing/protocol.py]

    A shallow embedding of the well classifier ([Protocol.call_ct_value],
    [Protocol.call_well], [Protocol.check_control], [V3Protocol.call_well]) and
    of the plate contamination scanner ([Protocol.compare_wells],
    [V3Protocol.compare_wells], [Protocol.check_square],
    [flag_contamination]), together with the enumerations of
    [covidhub/constants/enums.py] and the record of
    [qpcr_processing/well_results.py]; and of the code around them: the
    protocol registry ([get_protocol]), the 96-well view of a 384-well plate
    ([covidhub/constants/__init__.py], [qpcr_processing/plate_utils.py]) and
    the calls of a run ([local_processing] of [qpcr_processing/processing.py],
    the controls status of [qpcr_processing/processing_results.py]).

    Python floats are IEEE binary64 numbers: they are modelled by the
    Standard Library's [spec_float] at precision 53 and maximal exponent 1024,
    whose operations are plain functions.  Python exceptions are values of
    [result].  The plate scanner mutates [WellResults.call] in place: it is
    written in a state-and-exception monad over the plate. *)

From Stdlib Require Import ZArith Ascii String Floats.SpecFloat.
From stdpp Require Import gmap strings list pretty.

Open Scope Z_scope.
#[local] Set Warnings "-clear-no-such-hyp".

(** ** Binary64 arithmetic *)

Module F64.

Definition float : Type := spec_float.

Definition prec : Z := 53.
Definition emax : Z := 1024.

Definition nan : float := S754_nan.
Definition zero : float := S754_zero false.

Definition add : float -> float -> float := SFadd prec emax.
Definition sub : float -> float -> float := SFsub prec emax.
Definition div : float -> float -> float := SFdiv prec emax.

(** [x < y], [x <= y] on floats; both are false as soon as one side is NaN *)
Definition ltb : float -> float -> bool := SFltb.
Definition leb : float -> float -> bool := SFleb.

(** [math.isnan] *)
Definition is_nan (x : float) : bool :=
  match x with S754_nan => true | _ => false end.

(** The float nearest to an integer ([float(n)], and literals such as [40.0]) *)
Definition of_Z (z : Z) : float := binary_normalize prec emax z 0 false.

(** The decimal literal [m / 10^k], correctly rounded: [35.4] is [lit 354 1].
    Both [m] and [10^k] are exact binary64 numbers for the literals of the
    source, so the correctly rounded quotient is the literal's value. *)
Definition lit (m : Z) (k : Z) : float := div (of_Z m) (of_Z (10 ^ k)).

(** A well-formed binary64 number, as every Python float is *)
Definition valid (x : float) : bool := valid_binary prec emax x.

End F64.

Abbreviation float := F64.float.

(** ** Python exceptions *)

Inductive exn : Type := TypeError | ValueError | KeyError.

Inductive result (A : Type) : Type :=
| Ok (a : A)
| Raise (e : exn).
Arguments Ok {A} a.
Arguments Raise {A} e.

Definition rbind {A B} (m : result A) (f : A -> result B) : result B :=
  match m with
  | Ok a => f a
  | Raise e => Raise e
  end.

Notation "x <~ m ;; k" := (rbind m (fun x => k))
  (at level 100, m at next level, right associativity).

Definition raises {A} (m : result A) : Prop := exists e, m = Raise e.

(** ** Enumerations ([covidhub/constants/enums.py]) *)

Inductive Call : Type :=
| POS | POS_REVIEW | POS_CLUSTER | POS_HOTWELL
| NEG | INV | IND
| PASS | FAIL
| V2_CLUSTER.

#[global] Instance Call_eq_dec : EqDecision Call.
Proof. solve_decision. Defined.

(** [Call.is_positive] *)
Definition is_positive (c : Call) : bool :=
  match c with
  | POS | POS_REVIEW | POS_CLUSTER | POS_HOTWELL => true
  | _ => false
  end.

(** [Call.possible_cluster] *)
Definition possible_cluster (c : Call) : bool :=
  match c with
  | POS_CLUSTER | POS_HOTWELL => true
  | _ => false
  end.

Inductive ControlType : Type := NTC | PC | PBS | HRC.

#[global] Instance ControlType_eq_dec : EqDecision ControlType.
Proof. solve_decision. Defined.

Inductive Fluor : Type := HEX | FAM | CY5.
Inductive MappedWell : Type := MW_A1 | MW_A2 | MW_B1 | MW_B2.

(** The role of a well, the [well_type] argument of [call_ct_value]: the
    constant [SAMPLE], a member of [ControlType], or any other (hashable)
    Python object ([None], a number, ...), which is not a key of a thresholds
    table; [tag] tells such objects apart. *)
Inductive WellType : Type :=
| SAMPLE
| Control (c : ControlType)
| OtherObject (tag : nat).

#[global] Instance WellType_eq_dec : EqDecision WellType.
Proof. solve_decision. Defined.

(** ** Insertion-ordered dictionaries with string keys

    A Python [dict] whose iteration order matters is the list of its items
    in insertion order. *)

Abbreviation Gene := string.

Section dict.
Context {V : Type}.

Fixpoint dict_get (k : string) (d : list (string * V)) : option V :=
  match d with
  | [] => None
  | (k', v) :: d' => if decide (k = k') then Some v else dict_get k d'
  end.

(** [d[k] = v]: an existing key keeps its place *)
Fixpoint dict_set (k : string) (v : V) (d : list (string * V)) : list (string * V) :=
  match d with
  | [] => [(k, v)]
  | (k', v') :: d' =>
      if decide (k = k') then (k, v) :: d' else (k', v') :: dict_set k v d'
  end.

Definition dict_keys (d : list (string * V)) : list string := d.*1.

(** [set(d)] *)
Definition key_set (d : list (string * V)) : gset string := list_to_set (dict_keys d).
End dict.

(** ** Thresholds and protocols *)

(** [GeneThresholds]: the dictionary built by [cq_thresholds], one optional
    cutoff per role. *)
Record GeneThresholds : Type := cq_thresholds {
  th_sample : option float;
  th_pc : option float;
  th_ntc : option float;
  th_hrc : option float;
  th_pbs : option float;
}.

(** [thresholds[well_type]] *)
Definition th_get (th : GeneThresholds) (well_type : WellType) : result (option float) :=
  match well_type with
  | SAMPLE => Ok (th_sample th)
  | Control PC => Ok (th_pc th)
  | Control NTC => Ok (th_ntc th)
  | Control HRC => Ok (th_hrc th)
  | Control PBS => Ok (th_pbs th)
  | OtherObject _ => Raise KeyError
  end.

(** The fields that [V3Protocol] adds to [Protocol] *)
Record V3Fields : Type := {
  hot_well_radius : Z;
  hot_well_cutoff : float;
}.

(** The dataclass [Protocol]; [v3] is [Some _] for an instance of the
    subclass [V3Protocol], whose methods override the base ones. *)
Record Protocol : Type := {
  name : string;
  experimental : bool;
  prcl_file : string;
  pltd_file : string;
  virus_genes : list (Gene * GeneThresholds);
  control_genes : list (Gene * GeneThresholds);
  mapping : list (Fluor * list (MappedWell * Gene));
  background_threshold : Z;
  radius : Z;
  pos_cluster_cutoff : float;
  v3 : option V3Fields;
}.

(** The property [Protocol.gene_cutoffs]: virus genes first, then control genes *)
Definition gene_cutoffs (p : Protocol) : list (Gene * GeneThresholds) :=
  fold_left (fun d gt => dict_set gt.1 gt.2 d) (virus_genes p ++ control_genes p) [].

(** The property [Protocol.gene_list] *)
Definition gene_list (p : Protocol) : list Gene := dict_keys (gene_cutoffs p).

(** ** The well classifier *)

(** A value of a gene-to-Cq map: a float, or a string (the sentinels ["NaN"]
    and [""] stand for "not detected"). *)
Inductive PyVal : Type :=
| VFloat (x : float)
| VStr (s : string).

(** [Protocol.isnan]: [v == "NaN" or v == "" or math.isnan(v)]; [math.isnan]
    raises [TypeError] on a string. *)
Definition isnan (v : PyVal) : result bool :=
  match v with
  | VStr s =>
      if decide (s = "NaN") then Ok true
      else if decide (s = "") then Ok true
      else Raise TypeError
  | VFloat x => Ok (F64.is_nan x)
  end.

(** [float(v)].  [call_ct_value] reaches it only with a float: a string has
    either been taken for a sentinel or has made [isnan] raise. *)
Definition py_float (v : PyVal) : result float :=
  match v with
  | VFloat x => Ok x
  | VStr _ => Raise ValueError
  end.

(** [Protocol.call_ct_value] *)
Definition call_ct_value (p : Protocol) (g : Gene) (v : PyVal) (well_type : WellType)
  : result bool :=
  nan <~ isnan v ;;
  if nan then Ok false
  else match dict_get g (gene_cutoffs p) with
       | None => Ok false
       | Some th =>
           cutoff <~ th_get th well_type ;;
           match cutoff with
           | None => Ok true
           | Some c =>
               x <~ py_float v ;;
               if F64.leb c x then Ok false
               else if F64.ltb x c then Ok true
               else Raise ValueError
           end
       end.

(** A set comprehension [{g for g, v in values.items() if cond(g, v)}] *)
Fixpoint set_comprehension (cond : Gene -> PyVal -> result bool)
    (items : list (Gene * PyVal)) : result (gset Gene) :=
  match items with
  | [] => Ok ∅
  | (g, v) :: rest =>
      b <~ cond g v ;;
      s <~ set_comprehension cond rest ;;
      Ok (if b : bool then {[g]} ∪ s else s)
  end.

Definition detected_genes (values : list (Gene * PyVal)) : result (gset Gene) :=
  set_comprehension (fun _ v => nan <~ isnan v ;; Ok (negb nan)) values.

Definition called_genes (p : Protocol) (well_type : WellType)
    (values : list (Gene * PyVal)) : result (gset Gene) :=
  set_comprehension (fun g v => call_ct_value p g v well_type) values.

(** [Protocol.call_well] *)
Definition Protocol_call_well (p : Protocol) (values : list (Gene * PyVal)) : result Call :=
  detected <~ detected_genes values ;;
  called <~ called_genes p SAMPLE values ;;
  if bool_decide (detected ∩ key_set (virus_genes p) ≠ ∅) then
    if bool_decide (key_set (virus_genes p) ⊆ called) then Ok POS else Ok IND
  else
    if bool_decide (called = key_set (control_genes p)) then Ok NEG else Ok INV.

(** [V3Protocol.call_well] *)
Definition V3Protocol_call_well (p : Protocol) (values : list (Gene * PyVal)) : result Call :=
  super_call <~ Protocol_call_well p values ;;
  if decide (super_call = IND) then Ok POS_REVIEW else Ok super_call.

(** [self.call_well], resolved on the class of [self] *)
Definition call_well (p : Protocol) (values : list (Gene * PyVal)) : result Call :=
  match v3 p with
  | None => Protocol_call_well p values
  | Some _ => V3Protocol_call_well p values
  end.

(** [Protocol.check_control] *)
Definition check_control (p : Protocol) (values : list (Gene * PyVal))
    (control_type : WellType) : result Call :=
  called <~ called_genes p control_type values ;;
  match control_type with
  | Control NTC | Control PBS =>
      if bool_decide (size called = 0%nat) then Ok PASS else Ok FAIL
  | Control PC =>
      if bool_decide (called = key_set (gene_cutoffs p)) then Ok PASS else Ok FAIL
  | Control HRC =>
      if bool_decide (called = key_set (control_genes p)) then Ok PASS else Ok FAIL
  | _ => Raise ValueError
  end.

(** ** The protocol registry *)

Definition SOP_V1 : Protocol := {|
  name := "SOP-V1";
  experimental := false;
  prcl_file := "Covid19_protocol.prcl";
  pltd_file := "Covid19_platelayout.pltd";
  virus_genes :=
    [("RdRp", cq_thresholds (Some (F64.lit 400 1)) (Some (F64.lit 400 1)) None None None);
     ("E", cq_thresholds (Some (F64.lit 400 1)) (Some (F64.lit 400 1)) None None None)];
  control_genes :=
    [("RNAse P", cq_thresholds (Some (F64.lit 400 1)) (Some (F64.lit 400 1)) None
                   (Some (F64.lit 400 1)) None)];
  mapping := [(FAM, [(MW_A1, "RdRp"); (MW_A2, "E"); (MW_B1, "RNAse P")])];
  background_threshold := 200;
  radius := 0;
  pos_cluster_cutoff := F64.lit 100 1;
  v3 := None;
|}.

Definition SOP_V2 : Protocol := {|
  name := "SOP-V2";
  experimental := false;
  prcl_file := "Covid19-LUNA_protocol.prcl";
  pltd_file := "Covid19-v2_platelayout.pltd";
  virus_genes :=
    [("N", cq_thresholds (Some (F64.lit 400 1)) (Some (F64.lit 380 1)) None None None);
     ("E", cq_thresholds (Some (F64.lit 400 1)) (Some (F64.lit 380 1)) None None None)];
  control_genes :=
    [("RNAse P", cq_thresholds (Some (F64.lit 360 1)) (Some (F64.lit 380 1)) None
                   (Some (F64.lit 360 1)) None)];
  mapping := [(FAM, [(MW_A1, "N"); (MW_A2, "E")]); (HEX, [(MW_B1, "RNAse P")])];
  background_threshold := 200;
  radius := 1;
  pos_cluster_cutoff := F64.lit 100 1;
  v3 := None;
|}.

Definition UDGprotocol : Protocol := {|
  name := "UDGprotocol";
  experimental := true;
  prcl_file := "Covid19-UDG.prcl";
  pltd_file := "Covid19-v2_platelayout.pltd";
  virus_genes :=
    [("N", cq_thresholds (Some (F64.lit 400 1)) (Some (F64.lit 380 1)) None None None);
     ("E", cq_thresholds (Some (F64.lit 400 1)) (Some (F64.lit 380 1)) None None None)];
  control_genes :=
    [("RNAse P", cq_thresholds (Some (F64.lit 360 1)) (Some (F64.lit 380 1)) None
                   (Some (F64.lit 360 1)) None)];
  mapping := [(FAM, [(MW_A1, "N"); (MW_A2, "E")]); (HEX, [(MW_B1, "RNAse P")])];
  background_threshold := 300;
  radius := 1;
  pos_cluster_cutoff := F64.lit 100 1;
  v3 := None;
|}.

Definition SOP_V3 : Protocol := {|
  name := "SOP-V3";
  experimental := false;
  prcl_file := "Covid19-LUNA_protocol.prcl";
  pltd_file := "Covid19-v2_platelayout.pltd";
  virus_genes :=
    [("N", cq_thresholds (Some (F64.lit 400 1)) (Some (F64.lit 380 1)) None None None);
     ("E", cq_thresholds (Some (F64.lit 400 1)) (Some (F64.lit 380 1)) None None None)];
  control_genes :=
    [("RNAse P", cq_thresholds None (Some (F64.lit 380 1)) None (Some (F64.lit 360 1)) None)];
  mapping := [(FAM, [(MW_A1, "N"); (MW_A2, "E")]); (HEX, [(MW_B1, "RNAse P")])];
  background_threshold := 300;
  radius := 1;
  pos_cluster_cutoff := F64.lit 150 1;
  v3 := Some {| hot_well_radius := 3; hot_well_cutoff := F64.lit 220 1 |};
|}.

(** [get_protocol] *)
Definition get_protocol (protocol_name : string) : result Protocol :=
  if decide (protocol_name = name SOP_V1) then Ok SOP_V1
  else if decide (protocol_name = name SOP_V2) then Ok SOP_V2
  else if decide (protocol_name = name UDGprotocol) then Ok UDGprotocol
  else if decide (protocol_name = name SOP_V3) then Ok SOP_V3
  else Raise ValueError.

(** ** Well results and the comparison of two wells *)

(** The dataclass [WellResults] ([qpcr_processing/well_results.py]) *)
Record WellResults : Type := {
  accession : option string;
  call : Call;
  gene_cts : gmap Gene float;
  control_type : option ControlType;
}.

(** [results.call = c] *)
Definition set_call (c : Call) (r : WellResults) : WellResults :=
  {| accession := accession r; call := c; gene_cts := gene_cts r;
     control_type := control_type r |}.

(** [results.gene_cts[g]] *)
Definition get_ct (r : WellResults) (g : Gene) : result float :=
  match gene_cts r !! g with
  | Some x => Ok x
  | None => Raise KeyError
  end.

(** A list comprehension [[f(g) for g in gs]] *)
Fixpoint list_comprehension {A B} (f : A -> result B) (gs : list A) : result (list B) :=
  match gs with
  | [] => Ok []
  | g :: gs' => x <~ f g ;; xs <~ list_comprehension f gs' ;; Ok (x :: xs)
  end.

(** numpy's sum of a one-dimensional float64 array is a pairwise summation.
    Fewer than eight values are added from left to right, from zero.  A
    block of eight to 128 values is summed through eight partial sums: they
    start as the first eight values, [r[j] += a[i + j]] adds the following
    values to them, eight at a time and as long as eight are left; the partial
    sums are then added as a balanced tree, and the remaining values are added
    to the result from left to right. *)
Fixpoint accumulate (r : list float) (j : nat) (xs : list float) : list float :=
  match xs with
  | [] => r
  | x :: xs' => accumulate (alter (fun y => F64.add y x) j r) (S j mod 8) xs'
  end.

Definition add_tree (r : list float) : float :=
  match r with
  | [r0; r1; r2; r3; r4; r5; r6; r7] =>
      F64.add (F64.add (F64.add r0 r1) (F64.add r2 r3))
              (F64.add (F64.add r4 r5) (F64.add r6 r7))
  | _ => F64.nan
  end.

Definition block_sum (xs : list float) : float :=
  let n := length xs in
  if (n <? 8)%nat then fold_left F64.add xs F64.zero
  else
    let m := (n - n mod 8)%nat in
    let r := accumulate (take 8 xs) 0 (drop 8 (take m xs)) in
    fold_left F64.add (drop m xs) (add_tree r).

(** More than 128 values are split into two parts, the first one of
    [n / 2] values rounded down to a multiple of eight, and the sums of the
    parts are added.  Each part is shorter than the whole: the recursion is
    on a bound of the length. *)
Fixpoint pairwise_sum (bound : nat) (xs : list float) : float :=
  let n := length xs in
  match bound with
  | S bound' =>
      if (128 <? n)%nat then
        let n2 := (n / 2 - (n / 2) mod 8)%nat in
        F64.add (pairwise_sum bound' (take n2 xs)) (pairwise_sum bound' (drop n2 xs))
      else block_sum xs
  | O => block_sum xs
  end.

(** [np.add.reduce] on a one-dimensional float64 array: the pairwise sum of
    the values, added to the identity of the addition. *)
Definition np_sum (xs : list float) : float :=
  F64.add F64.zero (pairwise_sum (length xs) xs).

(** [np.mean] of a list of floats: the sum divided by the count (NaN for
    the empty list, as [0.0 / 0] is). *)
Definition np_mean (xs : list float) : float :=
  F64.div (np_sum xs) (F64.of_Z (Z.of_nat (length xs))).

(** [Protocol.compare_wells] *)
Definition Protocol_compare_wells (p : Protocol) (results other_results : WellResults)
    (cutoff : float) : result bool :=
  well_cts <~ list_comprehension (get_ct results) (dict_keys (virus_genes p)) ;;
  other_cts <~ list_comprehension (get_ct other_results) (dict_keys (virus_genes p)) ;;
  let well_mean := np_mean well_cts in
  let other_mean := np_mean other_cts in
  Ok (F64.ltb cutoff (F64.sub well_mean other_mean)).

(** The loop of [V3Protocol.compare_wells], with its [else] clause *)
Fixpoint V3_compare_loop (results other_results : WellResults) (cutoff : float)
    (gs : list Gene) : result bool :=
  match gs with
  | [] => Ok false
  | g :: gs' =>
      x <~ get_ct results g ;;
      y <~ get_ct other_results g ;;
      if F64.ltb cutoff (F64.sub x y) then Ok true
      else V3_compare_loop results other_results cutoff gs'
  end.

(** [V3Protocol.compare_wells] *)
Definition V3Protocol_compare_wells (p : Protocol) (results other_results : WellResults)
    (cutoff : float) : result bool :=
  V3_compare_loop results other_results cutoff (dict_keys (virus_genes p)).

(** [self.compare_wells], resolved on the class of [self] *)
Definition compare_wells (p : Protocol) (results other_results : WellResults)
    (cutoff : float) : result bool :=
  match v3 p with
  | None => Protocol_compare_wells p results other_results cutoff
  | Some _ => V3Protocol_compare_wells p results other_results cutoff
  end.

(** ** Well identifiers

    Strings are sequences of code points below 256. *)

(** [ord(s)]: [s] must be one character long *)
Definition ord (s : string) : result Z :=
  match s with
  | String a EmptyString => Ok (Z.of_N (Ascii.N_of_ascii a))
  | _ => Raise TypeError
  end.

(** [chr(i)], as a code point *)
Definition chr (i : Z) : result Z :=
  if (0 <=? i) && (i <=? 1114111) then Ok i else Raise ValueError.

(** [s[:1]] and [s[1:]] *)
Definition first_char (s : string) : string :=
  match s with
  | String a _ => String a EmptyString
  | EmptyString => EmptyString
  end.

Definition but_first (s : string) : string :=
  match s with
  | String _ s' => s'
  | EmptyString => EmptyString
  end.

(** White space, as [int] strips it: the ASCII white space (tab to carriage
    return, and the space) and, of the other code points below 256, the two
    that are Unicode white space.  The separators at code points 28 to 31 are
    not stripped: [int] rejects a string that holds one. *)
Definition is_space (a : Ascii.ascii) : bool :=
  let n := Z.of_N (Ascii.N_of_ascii a) in
  ((9 <=? n) && (n <=? 13)) || (n =? 32) || (n =? 133) || (n =? 160).

Fixpoint lstrip (s : string) : string :=
  match s with
  | String a s' => if is_space a then lstrip s' else s
  | EmptyString => EmptyString
  end.

Definition strip (s : string) : string :=
  String.rev (lstrip (String.rev (lstrip s))).

Definition digit_of (a : Ascii.ascii) : option Z :=
  let n := Z.of_N (Ascii.N_of_ascii a) in
  if (48 <=? n) && (n <=? 57) then Some (n - 48) else None.

(** Decimal digits, with single underscores between digits *)
Fixpoint parse_digits (s : string) (acc : Z) (after_digit : bool) : option Z :=
  match s with
  | EmptyString => if after_digit then Some acc else None
  | String a s' =>
      match digit_of a with
      | Some d => parse_digits s' (10 * acc + d) true
      | None =>
          if Ascii.eqb a "_"%char && after_digit then parse_digits s' acc false else None
      end
  end.

(** [int(s)] for a string [s] *)
Definition py_int (s : string) : result Z :=
  let body (t : string) : option Z :=
    match t with
    | String "+"%char t' => parse_digits t' 0 false
    | String "-"%char t' => Z.opp <$> parse_digits t' 0 false
    | _ => parse_digits t 0 false
    end in
  match body (strip s) with
  | Some z => Ok z
  | None => Raise ValueError
  end.

(** [f"{other_row}{other_col}"]; [None] when the row character is beyond
    code point 255, which no key of the plate contains. *)
Definition well_name (other_row : Z) (other_col : Z) : option string :=
  if other_row <? 256
  then Some (String (Ascii.ascii_of_N (Z.to_N other_row)) (pretty other_col))
  else None.

(** [range(lo, hi)] *)
Definition range (lo hi : Z) : list Z := seqZ lo (hi - lo).

(** ** The plate and its scanner

    A plate ([well_mapping]) is a dictionary from well identifiers to
    [WellResults] objects: the store below holds the current state of each
    object, and the iteration order of the dictionary's keys is passed along
    as a list.  The scanner runs in a state-and-exception monad over the
    store: a raised exception leaves the store as it was when it was raised. *)

Abbreviation plate := (gmap string WellResults).

Definition M (A : Type) : Type := plate -> plate * result A.

Definition ret {A} (a : A) : M A := fun wm => (wm, Ok a).

Definition bind {A B} (m : M A) (f : A -> M B) : M B :=
  fun wm =>
    match m wm with
    | (wm', Ok a) => f a wm'
    | (wm', Raise e) => (wm', Raise e)
    end.

Notation "x <- m ;;; k" := (bind m (fun x => k))
  (at level 100, m at next level, right associativity).

(** A computation without effect on the plate *)
Definition lift {A} (r : result A) : M A := fun wm => (wm, r).

(** The current state of the plate *)
Definition get_plate : M plate := fun wm => (wm, Ok wm).

(** [well_mapping[well_id].call = c] *)
Definition write_call (well_id : string) (c : Call) : M unit :=
  fun wm => (alter (set_call c) well_id wm, Ok tt).

(** A [for] loop whose body may [continue] (return) or raise *)
Fixpoint for_ {A} (xs : list A) (body : A -> M unit) : M unit :=
  match xs with
  | [] => ret tt
  | x :: xs' => _ <- body x ;;; for_ xs' body
  end.

Section check_square.

Variable p : Protocol.
Variables (radius : Z) (cutoff : float) (flag : Call).

(** The body of the innermost loop, for the well [other_row], [other_col] *)
Definition visit_neighbor (well_id : string) (other_row other_col : Z) : M unit :=
  wm <- get_plate ;;;
  match well_name other_row other_col ≫= (wm !!.) with
  | None => ret tt
  | Some other_results =>
      match wm !! well_id with
      | None => ret tt
      | Some results =>
          if negb (is_positive (call results)) then ret tt
          else
            b <- lift (compare_wells p results other_results cutoff) ;;;
            if b : bool then write_call well_id flag else ret tt
      end
  end.

(** The body of the outer loop, for the item [well_id] of the plate *)
Definition visit_well (well_id : string) : M unit :=
  wm <- get_plate ;;;
  match wm !! well_id with
  | None => ret tt
  | Some results =>
      if negb (is_positive (call results)) then ret tt
      else
        row <- lift (ord (first_char well_id)) ;;;
        col <- lift (py_int (but_first well_id)) ;;;
        for_ (range (row - radius) (row + radius + 1)) (fun i =>
          other_row <- lift (chr i) ;;;
          for_ (range (col - radius) (col + radius + 1)) (fun other_col =>
            visit_neighbor well_id other_row other_col))
  end.

(** [Protocol.check_square], on the keys of the plate in iteration order *)
Definition check_square (order : list string) : M unit :=
  for_ order visit_well.

End check_square.

(** [Protocol.flag_contamination] *)
Definition Protocol_flag_contamination (p : Protocol) (order : list string) : M unit :=
  check_square p (radius p) (pos_cluster_cutoff p) POS_CLUSTER order.

(** [V3Protocol.flag_contamination] *)
Definition V3Protocol_flag_contamination (p : Protocol) (x : V3Fields)
    (order : list string) : M unit :=
  _ <- check_square p (hot_well_radius x) (hot_well_cutoff x) POS_HOTWELL order ;;;
  check_square p (radius p) (pos_cluster_cutoff p) POS_CLUSTER order.

(** [self.flag_contamination], resolved on the class of [self] *)
Definition flag_contamination (p : Protocol) (order : list string) : M unit :=
  match v3 p with
  | None => Protocol_flag_contamination p order
  | Some x => V3Protocol_flag_contamination p x order
  end.

(** The final call of a well *)
Definition call_of (wm : plate) (well_id : string) : option Call :=
  call <$> wm !! well_id.

(** ** The labels of calls and controls ([covidhub/constants/enums.py]) *)

(** [str(c)], the value of the member *)
Definition Call_value (c : Call) : string :=
  match c with
  | POS => "Pos"
  | POS_REVIEW => "Positive, review required"
  | POS_CLUSTER => "Review needed: Positive by cluster"
  | POS_HOTWELL => "Review needed: Positive by hot well"
  | NEG => "Neg"
  | INV => "Inv"
  | IND => "Ind"
  | PASS => "Pass"
  | FAIL => "Fail"
  | V2_CLUSTER => "Possible cluster review needed"
  end.

(** [Call.short] *)
Definition short (c : Call) : string :=
  if is_positive c then "Pos" else Call_value c.

(** [Call.needs_review] *)
Definition needs_review (c : Call) : string :=
  if is_positive c && negb (bool_decide (c = POS)) then "Pos*" else short c.

(** [Call.rerun] *)
Definition rerun (c : Call) : bool :=
  match c with
  | POS_CLUSTER | POS_HOTWELL | INV | IND => true
  | _ => false
  end.

Definition ControlType_value (c : ControlType) : string :=
  match c with
  | NTC => "NTC"
  | PC => "PC"
  | PBS => "PBS"
  | HRC => "HRC"
  end.

(** [ControlType.parse_control]: the first of NTC, PC, PBS, HRC whose value
    the accession starts with *)
Definition parse_control (accession : string) : option ControlType :=
  List.find (fun control_type => String.prefix (ControlType_value control_type) accession)
    [NTC; PC; PBS; HRC].

(** [WellResults.__str__] ([qpcr_processing/well_results.py]) *)
Definition WellResults_str (r : WellResults) : string :=
  match control_type r with
  | Some ct => ControlType_value ct +:+ " " +:+ Call_value (call r)
  | None => needs_review (call r)
  end.

(** [well_mapping.values()], for a plate with the keys [order] *)
Definition plate_values (order : list string) (wm : plate) : list WellResults :=
  omap (fun k => wm !! k) order.

(** The controls status of [ProcessingResults.from_results_data]
    ([qpcr_processing/processing_results.py]) *)
Definition controls_status (values : list WellResults) : string :=
  if forallb (fun res => bool_decide (call res = PASS))
       (filter (fun res => control_type res <> None) values)
  then "Passed" else "Failed".

(** ** Dictionaries with keys of any type *)

#[global] Instance Fluor_eq_dec : EqDecision Fluor.
Proof. solve_decision. Defined.

#[global] Instance MappedWell_eq_dec : EqDecision MappedWell.
Proof. solve_decision. Defined.

Section items.
Context {K V : Type} `{EqDecision K}.

Fixpoint item_get (k : K) (d : list (K * V)) : option V :=
  match d with
  | [] => None
  | (k', v) :: d' => if decide (k = k') then Some v else item_get k d'
  end.

(** [d[k] = v] *)
Fixpoint item_set (k : K) (v : V) (d : list (K * V)) : list (K * V) :=
  match d with
  | [] => [(k, v)]
  | (k', v') :: d' =>
      if decide (k = k') then (k, v) :: d' else (k', v') :: item_set k v d'
  end.

(** [d[k]] *)
Definition getitem (k : K) (d : list (K * V)) : result V :=
  match item_get k d with
  | Some v => Ok v
  | None => Raise KeyError
  end.

(** A dictionary comprehension [{k: v for ...}], from the list of its items *)
Definition dict_comprehension (items : list (K * V)) : list (K * V) :=
  fold_left (fun d kv => item_set kv.1 kv.2 d) items [].
End items.

(** ** The wells of a 96-well plate on a 384-well plate
    ([covidhub/constants/__init__.py]) *)

Definition ascii_uppercase : string := "ABCDEFGHIJKLMNOPQRSTUVWXYZ".

(** [list(s[:n])] *)
Definition first_chars (n : nat) (s : string) : list string :=
  (fun a => String a EmptyString) <$> take n (list_ascii_of_string s).

Definition ROWS_96 : list string := first_chars 8 ascii_uppercase.
Definition COLS_96 : list Z := range 1 13.
Definition ROWS_384 : list string := first_chars 16 ascii_uppercase.
Definition COLS_384 : list Z := range 1 25.

Definition LAYOUT_MAP : list MappedWell := [MW_A1; MW_A2; MW_B1; MW_B2].

(** [l[lo:hi]], [enumerate(l)] and [itertools.product] *)
Definition slice {A} (l : list A) (lo hi : nat) : list A := take (hi - lo) (drop lo l).
Definition enumerate {A} (l : list A) : list (nat * A) := imap pair l.
Definition product {A B} (xs : list A) (ys : list B) : list (A * B) := list_prod xs ys.

Definition _96_TO_384 : list (string * list (MappedWell * (string * Z))) :=
  dict_comprehension
    ((fun '((i, row), (j, col)) =>
        (row +:+ pretty col,
         dict_comprehension
           (zip LAYOUT_MAP
              (product (slice ROWS_384 (2 * i) (2 * i + 2))
                       (slice COLS_384 (2 * j) (2 * j + 2))))))
     <$> product (enumerate ROWS_96) (enumerate COLS_96)).

(** [f"{c:02d}"] *)
Definition pad2 (c : Z) : string :=
  if (0 <=? c) && (c <? 10) then "0" +:+ pretty c else pretty c.

Definition MAP_96_TO_384_PADDED : list (string * list (MappedWell * string)) :=
  dict_comprehension
    ((fun '(well_id, m) =>
        (well_id, dict_comprehension ((fun '(k, (r, c)) => (k, r +:+ pad2 c)) <$> m)))
     <$> _96_TO_384).

(** ** From instrument data to calls *)

(** A loop that threads a value and may raise *)
Fixpoint rfold {A S} (f : S -> A -> result S) (l : list A) (s : S) : result S :=
  match l with
  | [] => Ok s
  | x :: l' => s' <~ f s x ;; rfold f l' s'
  end.

(** [data[well][fluor]], for the Cq values [data] of a run: a dictionary
    from the wells of the 384-well plate to dictionaries from fluorophores to
    floats; a well or a fluorophore that is missing raises [KeyError]. *)
Definition data_get (data : string -> Fluor -> option float) (well : string)
    (fluor : Fluor) : result float :=
  match data well fluor with
  | Some cq => Ok cq
  | None => Raise KeyError
  end.

(** [results[well_id][gene] = cq], for a [defaultdict(dict)] *)
Definition default_set (well_id : string) (gene : Gene) (cq : float)
    (results : list (string * list (Gene * float))) : list (string * list (Gene * float)) :=
  item_set well_id (item_set gene cq (default [] (item_get well_id results))) results.

(** [map_384_to_96] ([qpcr_processing/plate_utils.py]) *)
Definition map_384_to_96 (data : string -> Fluor -> option float)
    (mapping : list (Fluor * list (MappedWell * Gene)))
  : result (list (string * list (Gene * float))) :=
  rfold (fun results well_id =>
    rfold (fun results fluor =>
      positions <~ getitem fluor mapping ;;
      rfold (fun results '(position, gene) =>
        targets <~ getitem well_id MAP_96_TO_384_PADDED ;;
        well <~ getitem position targets ;;
        cq <~ data_get data well fluor ;;
        Ok (default_set well_id gene cq results))
        positions results)
      mapping.*1 results)
    MAP_96_TO_384_PADDED.*1 [].

(** [local_processing] ([qpcr_processing/processing.py]); the Cq values of
    a well are floats, NaN for a gene that was not detected. *)
Definition local_processing (data : string -> Fluor -> option float)
    (control_wells : gmap string ControlType) (p : Protocol)
  : result (list (string * WellResults)) :=
  wells <~ map_384_to_96 data (mapping p) ;;
  rfold (fun results '(well, values) =>
    let py_values := prod_map id VFloat <$> values in
    cc <~ match control_wells !! well with
          | Some control_type =>
              call <~ check_control p py_values (Control control_type) ;;
              Ok (call, Some control_type)
          | None =>
              call <~ call_well p py_values ;;
              Ok (call, None)
          end ;;
    Ok (item_set well
          {| accession := Some "MISSING"; call := cc.1;
             gene_cts := list_to_map values; control_type := cc.2 |}
          results))
    wells [].

(** [add_accession_barcodes_to_results] ([qpcr_processing/accession.py]) *)
Definition add_accession_barcodes_to_results (results : list (string * WellResults))
    (accession_data : gmap string string) : list (string * WellResults) :=
  (fun '(well_id, well_result) =>
     (well_id,
      {| accession := Some (default "" (accession_data !! well_id));
         call := call well_result;
         gene_cts := gene_cts well_result;
         control_type := control_type well_result |})) <$> results.

(** The results that [process_barcode] ([qpcr_processing/processing.py])
    hands to [ProcessingResults.from_results_data]: accessions are added
    when there are accession data *)
Definition with_accessions (results : list (string * WellResults))
    (accession_data : gmap string string) : list (string * WellResults) :=
  if decide (accession_data = ∅) then results
  else add_accession_barcodes_to_results results accession_data.

(** * The vocabulary of the statements *)

(** ** Detected and called genes *)

(** A value is detected when it is not a "not detected" sentinel *)
Definition detected (v : PyVal) : bool :=
  match v with
  | VFloat x => negb (F64.is_nan x)
  | VStr s => negb (bool_decide (s = "NaN") || bool_decide (s = ""))
  end.

(** The values of a gene-to-Cq map: floats and the two sentinel strings *)
Definition cq_value (v : PyVal) : Prop :=
  match v with
  | VFloat _ => True
  | VStr s => s = "NaN" \/ s = ""
  end.

(** [v < c] *)
Definition below (v : PyVal) (c : float) : bool :=
  match v with
  | VFloat x => F64.ltb x c
  | VStr _ => false
  end.

(** A gene is called under a role: detected, and with no cutoff for the role
    or a value below the cutoff. *)
Definition passes (p : Protocol) (g : Gene) (v : PyVal) (well_type : WellType) : bool :=
  detected v &&
  match dict_get g (gene_cutoffs p) with
  | None => false
  | Some th =>
      match th_get th well_type with
      | Ok None => true
      | Ok (Some c) => below v c
      | Raise _ => false
      end
  end.

(** No cutoff of the protocol is NaN *)
Definition cutoffs_not_nan (p : Protocol) : Prop :=
  forall g th well_type c,
    dict_get g (gene_cutoffs p) = Some th -> th_get th well_type = Ok (Some c) ->
    F64.is_nan c = false.

(** The genes of a map that are detected, and those called under a role *)
Definition detected_in (values : list (Gene * PyVal)) (g : Gene) : Prop :=
  exists v, (g, v) ∈ values /\ detected v = true.

Definition called_in (p : Protocol) (well_type : WellType)
    (values : list (Gene * PyVal)) (g : Gene) : Prop :=
  exists v, (g, v) ∈ values /\ passes p g v well_type = true.

Definition cq_values (values : list (Gene * PyVal)) : Prop :=
  forall g v, (g, v) ∈ values -> cq_value v.

(** What each control type requires of the genes called under its thresholds *)
Definition pass_condition (p : Protocol) (values : list (Gene * PyVal))
    (ct : ControlType) : Prop :=
  match ct with
  | NTC | PBS => forall g, ~ called_in p (Control ct) values g
  | PC =>
      forall g, called_in p (Control PC) values g <->
                g ∈ key_set (virus_genes p) ∪ key_set (control_genes p)
  | HRC =>
      forall g, called_in p (Control HRC) values g <-> g ∈ key_set (control_genes p)
  end.

(** Checks of the side conditions on concrete protocols and maps *)
Definition not_nan_opt (c : option float) : bool :=
  match c with
  | Some x => negb (F64.is_nan x)
  | None => true
  end.

Definition thresholds_not_nan (th : GeneThresholds) : bool :=
  not_nan_opt (th_sample th) && not_nan_opt (th_pc th) && not_nan_opt (th_ntc th)
  && not_nan_opt (th_hrc th) && not_nan_opt (th_pbs th).

Definition is_cq_value (v : PyVal) : bool :=
  match v with
  | VFloat _ => true
  | VStr s => bool_decide (s = "NaN") || bool_decide (s = "")
  end.

(** ** Sums and means *)

(** [s] is a sum of the numbers [xs]: each of them is added once, in some
    order and grouping, and a sum may start from zero. *)
Inductive sum_of : list float -> float -> Prop :=
| sum_of_nil : sum_of [] F64.zero
| sum_of_one x : sum_of [x] x
| sum_of_add xs ys a b :
    sum_of xs a -> sum_of ys b -> sum_of (xs ++ ys) (F64.add a b)
| sum_of_perm xs ys a : Permutation xs ys -> sum_of xs a -> sum_of ys a.

(** The mean of a list of numbers: their sum, added from left to right from
    zero, over their count *)
Definition mean (xs : list float) : float :=
  F64.div (fold_left F64.add xs F64.zero) (F64.of_Z (Z.of_nat (length xs))).

(** Two floats are the same number when they are equal or both a zero *)
Definition same_number (x y : float) : Prop :=
  x = y \/ exists s s', x = S754_zero s /\ y = S754_zero s'.

(** ** Wells and plates *)

(** The Cq values of a well for the virus genes, in the order of the genes *)
Definition virus_cqs (p : Protocol) (r : WellResults) (xs : list float) : Prop :=
  Forall2 (fun g x => gene_cts r !! g = Some x) (dict_keys (virus_genes p)) xs.

(** A well identifier is canonical when it reads back from its coordinates:
    a row character followed by the column number in decimal, as the keys
    ["A1"] .. ["H12"] of a plate are. *)
Definition canonical_id (well_id : string) : Prop :=
  forall row col,
    ord (first_char well_id) = Ok row -> py_int (but_first well_id) = Ok col ->
    well_name row col = Some well_id.

(** Every well of the plate holds a Cq value for every virus gene *)
Definition complete_cts (p : Protocol) (wm : plate) : Prop :=
  forall k r g,
    wm !! k = Some r -> g ∈ dict_keys (virus_genes p) -> is_Some (gene_cts r !! g).

(** The identifier reads as a row and a column, and the rows within the
    radius are code points *)
Definition scannable_id (radius : Z) (well_id : string) : Prop :=
  exists row col,
    ord (first_char well_id) = Ok row /\ py_int (but_first well_id) = Ok col /\
    0 <= row - radius /\ row + radius <= 1114111.

(** [escalation flags wm wm']: the plate [wm'] has the wells of [wm], with
    the same contents but for the calls, and a call that differs was positive
    and has become one of [flags]. *)
Definition escalation (flags : list Call) (wm wm' : plate) : Prop :=
  forall k,
    match wm !! k, wm' !! k with
    | Some r, Some r' =>
        r' = set_call (call r') r /\
        (call r' = call r \/ (is_positive (call r) = true /\ call r' ∈ flags))
    | None, None => True
    | _, _ => False
    end.

(** Two plates with the same wells and the same Cq values *)
Definition same_cts (wm wm' : plate) : Prop :=
  forall k, gene_cts <$> wm !! k = gene_cts <$> wm' !! k.

(** Two plates that differ at most in the call of the well [n] *)
Definition differ_in_call (n : string) (wm wm' : plate) : Prop :=
  same_cts wm wm' /\ forall k, k <> n -> wm !! k = wm' !! k.

(** Two runs that both raise, or both return and leave the same plate *)
Definition same_outcome (a b : plate * result unit) : Prop :=
  (a.2 = Ok tt <-> b.2 = Ok tt) /\ (a.2 = Ok tt -> a.1 = b.1).

(** ** The scan of one well, as a function of the plate

    While a well is visited only its own call changes, and only its call is
    read back: the visit is a function of the plate found at the start, which
    threads the call of the visited well. *)

Fixpoint pfor {A} (xs : list A) (body : A -> Call -> Call * result unit) (c : Call)
  : Call * result unit :=
  match xs with
  | [] => (c, Ok tt)
  | x :: xs' =>
      match body x c with
      | (c', Ok _) => pfor xs' body c'
      | (c', Raise e) => (c', Raise e)
      end
  end.

Section scan.

Variable p : Protocol.
Variables (radius : Z) (cutoff : float) (flag : Call).
Variable wm : plate.

Definition scan_neighbor (results : WellResults) (other_row other_col : Z) (c : Call)
  : Call * result unit :=
  match well_name other_row other_col ≫= (wm !!.) with
  | None => (c, Ok tt)
  | Some other_results =>
      if negb (is_positive c) then (c, Ok tt)
      else match compare_wells p results other_results cutoff with
           | Ok true => (flag, Ok tt)
           | Ok false => (c, Ok tt)
           | Raise e => (c, Raise e)
           end
  end.

Definition scan_row (results : WellResults) (col : Z) (i : Z) (c : Call)
  : Call * result unit :=
  match chr i with
  | Raise e => (c, Raise e)
  | Ok other_row =>
      pfor (range (col - radius) (col + radius + 1))
        (scan_neighbor results other_row) c
  end.

Definition scan_well (well_id : string) (results : WellResults) : Call * result unit :=
  let c := call results in
  if negb (is_positive c) then (c, Ok tt)
  else match ord (first_char well_id) with
       | Raise e => (c, Raise e)
       | Ok row =>
           match py_int (but_first well_id) with
           | Raise e => (c, Raise e)
           | Ok col =>
               pfor (range (row - radius) (row + radius + 1)) (scan_row results col) c
           end
       end.

End scan.

(** The scan of the well [well_id] of a plate, if it has one *)
Definition scan_at (p : Protocol) (radius : Z) (cutoff : float) (flag : Call)
    (wm : plate) (well_id : string) : Call * result unit :=
  match wm !! well_id with
  | Some results => scan_well p radius cutoff flag wm well_id results
  | None => (POS, Ok tt)
  end.

(** A scan leaves the call as it is or sets the flag on a positive call *)
Definition call_step (flag : Call) (c0 c : Call) : Prop :=
  c = c0 \/ (is_positive c0 = true /\ c = flag).

(** ** Maps and plates of the scenarios *)

(** The gene-to-Cq maps of two scenarios of the specification *)
Definition scenario_ind : list (Gene * PyVal) :=
  [("N", VStr "NaN"); ("E", VFloat (F64.lit 421 1)); ("RNAse P", VFloat (F64.lit 354 1))].

Definition scenario_pc : list (Gene * PyVal) :=
  [("N", VFloat (F64.lit 301 1)); ("E", VFloat (F64.lit 311 1));
   ("RNAse P", VFloat (F64.lit 320 1))].

(** [WellResults(call=c, gene_cts={"N": n, "E": e, "RNAse P": r})] with integer
    Cq values, [None] standing for NaN *)
Definition well (c : Call) (n e r : option Z) : WellResults :=
  let ct (x : option Z) : float := from_option F64.of_Z F64.nan x in
  {| accession := Some "MISSING";
     call := c;
     gene_cts := <["N" := ct n]> (<["E" := ct e]> (<["RNAse P" := ct r]> ∅));
     control_type := None |}.

(** The SOP-V3 plate of [test_get_wells_positive_by_cluster]
    ([qpcr_processing/test/test_protocol.py]) *)
Definition cluster_test_plate : list (string * WellResults) :=
  [("A1", {| accession := Some "MISSING"; call := PASS;
             gene_cts := gene_cts (well PASS None None None);
             control_type := Some NTC |});
   ("A2", well POS (Some 32) (Some 21) (Some 35));
   ("A3", well NEG None None (Some 22));
   ("B1", well POS (Some 22) (Some 35) None);
   ("B2", well POS (Some 37) (Some 5) None);
   ("B3", well POS (Some 12) (Some 7) (Some 35));
   ("C1", well POS (Some 35) (Some 14) None);
   ("C2", well POS_REVIEW (Some 6) (Some 44) None);
   ("C3", well POS (Some 33) (Some 32) None)].

(** A Positive well beside a well that holds a Cq value for E only, of call [c] *)
Definition beside (c : Call) : list (string * WellResults) :=
  [("A1", well POS (Some 38) (Some 39) (Some 30)); ("A2", well c None (Some 10) (Some 30))].

(** A gene-to-Cq map [{"N": n, "E": e, "RNAse P": r}] of the tests: [None]
    is the string ["NaN"], [Some m] the float [m / 10]. *)
Definition cq_map (n e r : option Z) : list (Gene * PyVal) :=
  let v (x : option Z) : PyVal :=
    match x with
    | Some m => VFloat (F64.lit m 1)
    | None => VStr "NaN"
    end in
  [("N", v n); ("E", v e); ("RNAse P", v r)].

(** The plate of [test_get_wells_positive_by_hot_well] *)
Definition hot_well_test_plate : list (string * WellResults) :=
  [("A2", well POS (Some 38) (Some 39) (Some 40));
   ("D2", well POS_REVIEW (Some 8) None (Some 40));
   ("D3", well POS (Some 20) (Some 20) None);
   ("B4", well POS_REVIEW None (Some 45) (Some 29));
   ("C4", well POS (Some 31) (Some 29) (Some 40));
   ("D4", well POS (Some 16) (Some 20) (Some 29));
   ("F4", well POS (Some 31) (Some 33) (Some 20));
   ("D9", well POS_REVIEW (Some 45) (Some 45) (Some 20))].

(** The wells of a plate whose call is [c] after [flag_contamination] *)
Definition flagged (p : Protocol) (c : Call) (pl : list (string * WellResults))
  : result (list string) :=
  let '(wm, r) := flag_contamination p pl.*1 (list_to_map pl) in
  _ <~ r ;; Ok (filter (fun k => call_of wm k = Some c) pl.*1).

(** ** Whether a well is to be flagged

    The loops of [check_square] over a well of positive call, with a flag
    that is positive too, skip no comparison: they compute whether one of
    the comparisons holds. *)

(** A loop over all of [xs]: whether one of the tests holds *)
Fixpoint any_test {A} (test : A -> result bool) (xs : list A) : result bool :=
  match xs with
  | [] => Ok false
  | x :: xs' => b <~ test x ;; b' <~ any_test test xs' ;; Ok (b || b')
  end.

Section fires.

Variable p : Protocol.
Variables (radius : Z) (cutoff : float).
Variable wm : plate.

(** The comparison with the well [other_row], [other_col], if the plate has it *)
Definition neighbor_fires (results : WellResults) (other_row other_col : Z) : result bool :=
  match well_name other_row other_col ≫= (wm !!.) with
  | None => Ok false
  | Some other_results => compare_wells p results other_results cutoff
  end.

Definition row_fires (results : WellResults) (col : Z) (i : Z) : result bool :=
  other_row <~ chr i ;;
  any_test (neighbor_fires results other_row) (range (col - radius) (col + radius + 1)).

Definition well_fires (well_id : string) (results : WellResults) : result bool :=
  row <~ ord (first_char well_id) ;;
  col <~ py_int (but_first well_id) ;;
  any_test (row_fires results col) (range (row - radius) (row + radius + 1)).

End fires.

(** The call of a well after a pass of [check_square] over it *)
Definition pass_call (p : Protocol) (radius : Z) (cutoff : float) (flag : Call)
    (wm : plate) (well_id : string) (results : WellResults) : result Call :=
  if is_positive (call results) then
    b <~ well_fires p radius cutoff wm well_id results ;;
    Ok (if b : bool then flag else call results)
  else Ok (call results).

(** The wells of the square of radius [radius] around the well [well_id] *)
Definition in_square (radius : Z) (wm : plate) (well_id : string) (o : WellResults) : Prop :=
  exists row col i j nm,
    ord (first_char well_id) = Ok row /\ py_int (but_first well_id) = Ok col /\
    row - radius <= i <= row + radius /\ col - radius <= j <= col + radius /\
    well_name i j = Some nm /\ wm !! nm = Some o.

(** What a loop body does on a positive call, given the test it makes *)
Definition flags_on {A} (flag : Call) (test : A -> result bool)
    (body : A -> Call -> Call * result unit) : Prop :=
  forall x c, is_positive c = true ->
    match test x with
    | Ok b => body x c = (if b then flag else c, Ok tt)
    | Raise e => (body x c).2 = Raise e
    end.

(** What a pass does to the call [c] of a well, given whether the well fires *)
Definition flagged_call (flag : Call) (fires : result bool) (c : Call) : result Call :=
  if is_positive c then b <~ fires ;; Ok (if b : bool then flag else c) else Ok c.

(** A well of the square around [well_id] exceeds the well by the cutoff *)
Definition exceeded (p : Protocol) (radius : Z) (cutoff : float) (wm : plate)
    (well_id : string) (results : WellResults) : Prop :=
  exists o, in_square radius wm well_id o /\ compare_wells p results o cutoff = Ok true.

(** Whether the well [well_id] of the plate fires *)
Definition fires_at (p : Protocol) (radius : Z) (cutoff : float) (wm : plate)
    (well_id : string) : result bool :=
  match wm !! well_id with
  | Some results => well_fires p radius cutoff wm well_id results
  | None => Ok false
  end.

(** The plate after a pass that returns: the wells of [order] that fire and
    have a positive call get the flag *)
Definition flag_plate (flag : Call) (fires : string -> result bool) (order : list string)
    (wm : plate) : plate :=
  map_imap (fun k r =>
    Some (if decide (k ∈ order)
          then match flagged_call flag (fires k) (call r) with
               | Ok c => set_call c r
               | Raise _ => r
               end
          else r)) wm.

(** What the scan of the well [well_id] needs in order to return: an
    identifier that reads as a row and a column, rows within the radius that
    are code points, and a comparison that returns for each well of the
    square *)
Definition scan_ready (p : Protocol) (radius : Z) (cutoff : float) (wm : plate)
    (well_id : string) (results : WellResults) : Prop :=
  exists row col,
    ord (first_char well_id) = Ok row /\ py_int (but_first well_id) = Ok col /\
    (forall i, row - radius <= i <= row + radius -> 0 <= i <= 1114111) /\
    forall o, in_square radius wm well_id o ->
      exists b, compare_wells p results o cutoff = Ok b.

(** ** The 96-well view *)

(** The items of a well mapping in iteration order: fluorophore, position
    and gene *)
Definition flat_mapping (mapping : list (Fluor * list (MappedWell * Gene)))
  : list (Fluor * (MappedWell * Gene)) :=
  mapping.*1 ≫= (fun fluor => pair fluor <$> default [] (item_get fluor mapping)).

(** The Cq values of one well of the 96-well plate, read from its wells
    [targets] of the 384-well plate *)
Definition well_values (data : string -> Fluor -> option float)
    (targets : list (MappedWell * string)) (flat : list (Fluor * (MappedWell * Gene)))
  : result (list (Gene * float)) :=
  rfold (fun values '(fluor, (position, gene)) =>
           well <~ getitem position targets ;;
           cq <~ data_get data well fluor ;;
           Ok (item_set gene cq values)) flat [].

(** The genes of a well mapping *)
Definition mapped_genes (mapping : list (Fluor * list (MappedWell * Gene))) : list Gene :=
  (fun x => x.2.2) <$> flat_mapping mapping.

(** The data hold a Cq value wherever the mapping reads one *)
Definition covers (data : string -> Fluor -> option float)
    (mapping : list (Fluor * list (MappedWell * Gene))) : Prop :=
  forall well_id targets fluor position gene well,
    (well_id, targets) ∈ MAP_96_TO_384_PADDED ->
    (fluor, (position, gene)) ∈ flat_mapping mapping ->
    item_get position targets = Some well ->
    is_Some (data well fluor).

(** The [n]-th capital letter, as a string *)
Definition letter (n : nat) : string := String (ascii_of_nat (65 + n)) EmptyString.

(** * Lemmas and theorems *)

(** ** Facts on binary64 arithmetic *)

Module F64Facts.
Import F64.

Lemma add_nan_l x : add nan x = nan.
Proof. reflexivity. Qed.

Lemma add_nan_r x : add x nan = nan.
Proof. by destruct x. Qed.

Lemma sub_nan_l x : sub nan x = nan.
Proof. reflexivity. Qed.

Lemma sub_nan_r x : sub x nan = nan.
Proof. by destruct x. Qed.

Lemma div_nan_l x : div nan x = nan.
Proof. reflexivity. Qed.

Lemma ltb_nan_r x : ltb x nan = false.
Proof. by destruct x. Qed.

Lemma ltb_nan_l x : ltb nan x = false.
Proof. reflexivity. Qed.

Lemma leb_nan_l x : leb nan x = false.
Proof. reflexivity. Qed.

Lemma leb_nan_r x : leb x nan = false.
Proof. by destruct x. Qed.

Lemma is_nan_true x : is_nan x = true <-> x = nan.
Proof. unfold nan. destruct x; simpl; split; congruence. Qed.

Lemma is_nan_false x : is_nan x = false <-> x <> nan.
Proof. unfold nan. destruct x; simpl; split; congruence. Qed.

Lemma compare_cont_antisym (m1 m2 : positive) :
  PosDef.Pos.compare_cont Eq m2 m1 = CompOpp (PosDef.Pos.compare_cont Eq m1 m2).
Proof. symmetry. exact (Pos.compare_cont_antisym m1 m2 Eq). Qed.

(** The comparison is antisymmetric *)
Lemma compare_antisym x y : SFcompare y x = CompOpp <$> SFcompare x y.
Proof.
  destruct x as [sx|sx| |sx mx ex], y as [sy|sy| |sy my ey]; simpl;
    try destruct sx; try destruct sy; try reflexivity.
  all: rewrite (Z.compare_antisym ex ey); destruct (ex ?= ey); simpl;
    try reflexivity.
  all: rewrite (compare_cont_antisym mx my); by rewrite ?CompOpp_involutive.
Qed.

(** [x < c] excludes [x >= c] *)
Lemma ltb_not_leb x c : ltb x c = true -> leb c x = false.
Proof.
  unfold ltb, leb, SFltb, SFleb. rewrite (compare_antisym x c).
  by destruct (SFcompare x c) as [[]|].
Qed.

(** Away from NaN, one of [x >= c] and [x < c] holds *)
Lemma leb_or_ltb x c : is_nan x = false -> is_nan c = false ->
  leb c x = false -> ltb x c = true.
Proof.
  unfold ltb, leb, SFltb, SFleb. rewrite (compare_antisym x c).
  destruct (SFcompare x c) as [[]|] eqn:E; simpl; try congruence.
  destruct x, c; simpl in *; congruence.
Qed.

(** A number minus itself is a zero, or NaN for an infinity or NaN *)
Lemma sub_diag x : sub x x = zero \/ sub x x = nan.
Proof.
  destruct x as [[]|[]| |s m e]; simpl; auto.
  left. unfold sub, SFsub. rewrite Z.sub_diag. reflexivity.
Qed.

(** Nothing is below a zero that is at most it: [0 > c] fails for [c >= 0] *)
Lemma ltb_zero_nonneg c : leb zero c = true -> ltb c zero = false.
Proof. destruct c as [[]|[]| |[] m e]; cbv; congruence. Qed.

(** A self-difference never exceeds a non-negative cutoff *)
Lemma self_difference_below c x : leb zero c = true -> ltb c (sub x x) = false.
Proof.
  intros Hc. destruct (sub_diag x) as [-> | ->].
  - by apply ltb_zero_nonneg.
  - apply ltb_nan_r.
Qed.

End F64Facts.

(** ** Facts on dictionaries *)

Section dict_facts.
Context {V : Type}.
Implicit Types (d : list (string * V)) (k : string) (v : V).

Lemma dict_get_None k d : dict_get k d = None <-> k ∉ dict_keys d.
Proof.
  unfold dict_keys. induction d as [|[k' v'] d IH]; simpl.
  - split; [intros _; apply not_elem_of_nil | done].
  - rewrite not_elem_of_cons. destruct (decide (k = k')); naive_solver.
Qed.

Lemma dict_get_Some_elem k d : is_Some (dict_get k d) <-> k ∈ key_set d.
Proof.
  unfold key_set. rewrite elem_of_list_to_set.
  destruct (dict_get k d) eqn:E.
  - split; [intros _ | eauto].
    destruct (decide (k ∈ dict_keys d)) as [|Hn]; [done|].
    apply dict_get_None in Hn. congruence.
  - apply dict_get_None in E. split; [intros [? ?]; done | done].
Qed.

Lemma key_set_dict_set k v d : key_set (dict_set k v d) = {[k]} ∪ key_set d.
Proof.
  unfold key_set, dict_keys. induction d as [|[k' v'] d IH]; simpl.
  - set_solver.
  - destruct (decide (k = k')); simpl in *; set_solver.
Qed.

Lemma key_set_fold_dict_set (l d : list (string * V)) :
  key_set (fold_left (fun d kv => dict_set kv.1 kv.2 d) l d) = key_set l ∪ key_set d.
Proof.
  revert d. induction l as [|[k v] l IH]; intros d; simpl.
  - unfold key_set at 2. simpl. set_solver.
  - rewrite IH, key_set_dict_set. unfold key_set, dict_keys. simpl. set_solver.
Qed.

Lemma key_set_app (l1 l2 : list (string * V)) : key_set (l1 ++ l2) = key_set l1 ∪ key_set l2.
Proof. unfold key_set, dict_keys. rewrite fmap_app, list_to_set_app_L. done. Qed.

End dict_facts.

(** The keys of the cutoff table are the virus genes and the control genes *)
Lemma gene_cutoffs_keys p :
  key_set (gene_cutoffs p) = key_set (virus_genes p) ∪ key_set (control_genes p).
Proof.
  unfold gene_cutoffs. rewrite key_set_fold_dict_set, key_set_app.
  unfold key_set at 3. simpl. set_solver.
Qed.

(** ** The tests of the repository hold of the embedding *)

(** [test_well_calling_v2] ([qpcr_processing/test/test_calling.py]) *)
Example test_well_calling_v2 :
  Forall (fun t => call_well SOP_V2 t.1 = Ok t.2)
    [(cq_map None None None, INV);
     (cq_map None None (Some 390), INV);
     (cq_map None None (Some 354), NEG);
     (cq_map None (Some 421) (Some 354), IND);
     (cq_map None (Some 421) None, IND);
     (cq_map (Some 200) None None, IND);
     (cq_map (Some 200) (Some 421) None, IND);
     (cq_map (Some 200) (Some 421) (Some 360), IND);
     (cq_map (Some 414) (Some 421) None, IND);
     (cq_map (Some 414) (Some 421) (Some 380), IND);
     (cq_map (Some 314) (Some 321) None, POS);
     (cq_map (Some 314) (Some 399) (Some 334), POS);
     (cq_map (Some 314) (Some 321) (Some 424), POS)].
Proof. repeat constructor. Qed.

(** [test_well_calling_v3] *)
Example test_well_calling_v3 :
  Forall (fun t => call_well SOP_V3 t.1 = Ok t.2)
    [(cq_map None None None, INV);
     (cq_map None None (Some 449), NEG);
     (cq_map None (Some 421) (Some 354), POS_REVIEW);
     (cq_map None (Some 421) None, POS_REVIEW);
     (cq_map (Some 200) None None, POS_REVIEW);
     (cq_map (Some 200) (Some 421) None, POS_REVIEW);
     (cq_map (Some 200) (Some 421) (Some 360), POS_REVIEW);
     (cq_map (Some 414) (Some 421) None, POS_REVIEW);
     (cq_map (Some 414) (Some 421) (Some 380), POS_REVIEW);
     (cq_map (Some 314) (Some 321) None, POS);
     (cq_map (Some 314) (Some 399) (Some 334), POS);
     (cq_map (Some 314) (Some 321) (Some 424), POS)].
Proof. repeat constructor. Qed.

(** [test_control_calling], on SOP-V2 and on SOP-V3 *)
Example test_control_calling :
  Forall (fun p =>
    Forall (fun t => check_control p t.1.2 (Control t.1.1) = Ok t.2)
      [(NTC, cq_map None None None, PASS);
       (NTC, cq_map None None (Some 380), FAIL);
       (NTC, cq_map (Some 452) None None, FAIL);
       (PBS, cq_map None None None, PASS);
       (PBS, cq_map (Some 402) None None, FAIL);
       (PC, cq_map (Some 301) (Some 311) (Some 320), PASS);
       (PC, cq_map (Some 301) (Some 299) (Some 380), FAIL);
       (PC, cq_map (Some 381) (Some 299) (Some 380), FAIL);
       (PC, cq_map None (Some 299) (Some 320), FAIL);
       (HRC, cq_map None None (Some 290), PASS);
       (HRC, cq_map None (Some 299) (Some 320), FAIL);
       (HRC, cq_map None None (Some 390), FAIL);
       (HRC, cq_map None (Some 420) (Some 390), FAIL);
       (HRC, cq_map (Some 431) None None, FAIL)])
    [SOP_V2; SOP_V3].
Proof. repeat constructor. Qed.

(** [test_get_wells_positive_by_cluster] ([qpcr_processing/test/test_protocol.py]) *)
Example test_get_wells_positive_by_cluster :
  flagged SOP_V2 POS_CLUSTER
    (<[7%nat := ("C2", well IND (Some 6) (Some 44) None)]> cluster_test_plate)
    = Ok ["A2"; "B2"; "C3"] /\
  flagged SOP_V3 POS_CLUSTER cluster_test_plate = Ok ["A2"; "B1"; "B2"; "C1"; "C2"; "C3"].
Proof. split; vm_compute; reflexivity. Qed.

(** [test_get_wells_positive_by_hot_well] *)
Example test_get_wells_positive_by_hot_well :
  flagged SOP_V3 POS_HOTWELL hot_well_test_plate = Ok ["A2"; "C4"; "F4"].
Proof. vm_compute. reflexivity. Qed.

(** ** The well classifier *)

Lemma isnan_cq_value v : cq_value v -> isnan v = Ok (negb (detected v)).
Proof.
  destruct v as [x|s]; simpl; [by rewrite negb_involutive|].
  intros [-> | ->]; reflexivity.
Qed.

Lemma call_ct_value_true p g v well_type :
  cq_value v -> call_ct_value p g v well_type = Ok true <-> passes p g v well_type = true.
Proof.
  intros Hv. unfold call_ct_value, passes. rewrite (isnan_cq_value v Hv). simpl.
  destruct (detected v) eqn:Hd; simpl; [|done].
  destruct (dict_get g (gene_cutoffs p)) as [th|]; [|done].
  destruct (th_get th well_type) as [[c|]|e]; simpl; [|done|done].
  destruct v as [x|s]; simpl.
  - destruct (F64.leb c x) eqn:Hle.
    + split; [done|]. intros Hlt. apply F64Facts.ltb_not_leb in Hlt. congruence.
    + destruct (F64.ltb x c); done.
  - destruct Hv as [-> | ->]; discriminate.
Qed.

Lemma call_ct_value_total p g v well_type :
  cq_value v -> cutoffs_not_nan p -> (forall o, well_type <> OtherObject o) ->
  call_ct_value p g v well_type = Ok (passes p g v well_type).
Proof.
  intros Hv Hp Hw. unfold call_ct_value, passes. rewrite (isnan_cq_value v Hv). simpl.
  destruct (detected v) eqn:Hd; simpl; [|done].
  destruct (dict_get g (gene_cutoffs p)) as [th|] eqn:Hg; [|done].
  destruct (th_get th well_type) as [[c|]|e] eqn:Hth; simpl; [|done|].
  - destruct v as [x|s]; simpl in *.
    + destruct (F64.leb c x) eqn:Hle.
      * destruct (F64.ltb x c) eqn:Hlt; [|done].
        apply F64Facts.ltb_not_leb in Hlt. congruence.
      * rewrite (F64Facts.leb_or_ltb x c); [done| |by eapply Hp|done].
        by destruct (F64.is_nan x).
    + destruct Hv as [-> | ->]; discriminate.
  - destruct well_type as [|[]|o]; simpl in Hth; try discriminate. by destruct (Hw o).
Qed.

(** A comprehension whose condition never raises builds the set of the keys
    whose item satisfies the condition. *)
Lemma set_comprehension_Ok cond (f : Gene -> PyVal -> bool) items :
  (forall g v, (g, v) ∈ items -> cond g v = Ok (f g v)) ->
  exists S, set_comprehension cond items = Ok S /\
            forall g, g ∈ S <-> exists v, (g, v) ∈ items /\ f g v = true.
Proof.
  induction items as [|[g0 v0] items IH]; intros Hc; simpl.
  - exists ∅. split; [done|]. intros g. split; [set_solver|].
    intros (v & Hin & _). by apply elem_of_nil in Hin.
  - destruct IH as (S & -> & HS).
    { intros g v Hin. apply Hc. by right. }
    rewrite (Hc g0 v0) by left. simpl. eexists. split; [done|].
    intros g. destruct (f g0 v0) eqn:Hf.
    + rewrite elem_of_union, elem_of_singleton, HS. split.
      * intros [-> | (v & Hin & Hv)]; [exists v0 | exists v]; split; auto; by constructor.
      * intros (v & Hin & Hv). apply elem_of_cons in Hin as [[= -> ->] | Hin]; eauto.
    + rewrite HS. split.
      * intros (v & Hin & Hv). exists v. split; [by right | done].
      * intros (v & Hin & Hv). apply elem_of_cons in Hin as [[= -> ->] | Hin]; [congruence | eauto].
Qed.

(** A comprehension raises what its first failing condition raises *)
Lemma set_comprehension_Raise cond items g v e :
  (g, v) ∈ items -> cond g v = Raise e -> raises (set_comprehension cond items).
Proof.
  induction items as [|[g0 v0] items IH]; intros Hin He.
  - by apply elem_of_nil in Hin.
  - simpl. apply elem_of_cons in Hin as [[= <- <-] | Hin].
    + rewrite He. by exists e.
    + destruct (cond g0 v0) as [b|e0]; simpl; [|by exists e0].
      destruct (IH Hin He) as [e1 ->]. by exists e1.
Qed.

Lemma detected_genes_Ok values :
  cq_values values ->
  exists S, detected_genes values = Ok S /\ forall g, g ∈ S <-> detected_in values g.
Proof.
  intros Hv. apply (set_comprehension_Ok _ (fun _ v => detected v)).
  intros g v Hin. rewrite (isnan_cq_value v (Hv g v Hin)). simpl.
  by rewrite negb_involutive.
Qed.

Lemma called_genes_Ok p well_type values :
  cq_values values -> cutoffs_not_nan p -> (forall o, well_type <> OtherObject o) ->
  exists S, called_genes p well_type values = Ok S /\
            forall g, g ∈ S <-> called_in p well_type values g.
Proof.
  intros Hv Hp Hw. apply (set_comprehension_Ok _ (fun g v => passes p g v well_type)).
  intros g v Hin. apply call_ct_value_total; eauto.
Qed.

(** Only genes of the cutoff table are called *)
Lemma called_in_cutoffs p well_type values g :
  called_in p well_type values g -> g ∈ key_set (gene_cutoffs p).
Proof.
  intros (v & _ & Hp). apply dict_get_Some_elem. unfold passes in Hp.
  destruct (dict_get g (gene_cutoffs p)); [eauto|].
  by rewrite andb_false_r in Hp.
Qed.

(** C4.  For every gene [g], Cq value [v] (a float or a "not detected"
    sentinel) and role: [call_ct_value] returns true exactly when [v] is
    detected and the cutoff of the gene for the role is [None] or above [v];
    a gene outside the protocol's gene set is never called, [call_ct_value]
    returns false on it rather than raising; and a "not detected" sentinel
    gives false whatever the gene, the role and the cutoff are. *)
Theorem call_ct_value_called (p : Protocol) (g : Gene) (v : PyVal) (well_type : WellType) :
  cq_value v ->
  (call_ct_value p g v well_type = Ok true <->
     detected v = true /\
     exists th cutoff,
       dict_get g (gene_cutoffs p) = Some th /\ th_get th well_type = Ok cutoff /\
       (cutoff = None \/ exists c, cutoff = Some c /\ below v c = true)) /\
  (g ∉ key_set (gene_cutoffs p) -> call_ct_value p g v well_type = Ok false) /\
  (detected v = false -> call_ct_value p g v well_type = Ok false).
Proof.
  intros Hv. split; [|split].
  - rewrite (call_ct_value_true p g v well_type Hv). unfold passes.
    rewrite andb_true_iff. apply and_iff_compat_l.
    destruct (dict_get g (gene_cutoffs p)) as [th|].
    + destruct (th_get th well_type) as [[c|]|e] eqn:Hth.
      * split.
        -- intros Hb. exists th, (Some c). do 2 (split; [done|]). right. by exists c.
        -- intros (th' & cutoff & [= <-] & Hth' & Hc). rewrite Hth in Hth'.
           injection Hth' as <-. by destruct Hc as [? | (c' & [= <-] & Hb')].
      * split; [|done]. intros _. exists th, None. auto.
      * split; [done|]. intros (th' & cutoff & [= <-] & ? & _). congruence.
    + split; [done|]. intros (th' & cutoff & ? & _). done.
  - intros Hg. unfold call_ct_value. rewrite (isnan_cq_value v Hv). simpl.
    destruct (detected v); simpl; [|done].
    destruct (dict_get g (gene_cutoffs p)) eqn:E; [|done].
    destruct Hg. apply dict_get_Some_elem. rewrite E. eauto.
  - intros Hd. unfold call_ct_value. rewrite (isnan_cq_value v Hv), Hd. done.
Qed.

Lemma call_ct_value_called_witness :
  call_ct_value SOP_V2 "E" (VFloat (F64.lit 321 1)) SAMPLE = Ok true.
Proof.
  apply (call_ct_value_called SOP_V2 "E" (VFloat (F64.lit 321 1)) SAMPLE I).
  split; [reflexivity|].
  exists (cq_thresholds (Some (F64.lit 400 1)) (Some (F64.lit 380 1)) None None None),
    (Some (F64.lit 400 1)).
  split; [reflexivity|]. split; [reflexivity|].
  right. exists (F64.lit 400 1). split; reflexivity.
Defined.

(** The calls that the sample classifier returns *)
Lemma Protocol_call_well_range p values c :
  Protocol_call_well p values = Ok c -> c = POS \/ c = IND \/ c = NEG \/ c = INV.
Proof.
  unfold Protocol_call_well.
  destruct (detected_genes values) as [d|]; simpl; [|done].
  destruct (called_genes p SAMPLE values) as [s|]; simpl; [|done].
  repeat case_bool_decide; intros [= <-]; auto.
Qed.

(** C1.  For every gene-to-Cq map given to [Protocol.call_well]: when a virus
    gene is detected, the result is Positive if every virus gene is called and
    Indeterminate otherwise; when no virus gene is detected, the result is
    Negative if the called genes are exactly the control genes and Invalid
    otherwise. *)
Theorem call_well_classifies (p : Protocol) (values : list (Gene * PyVal)) :
  cq_values values -> cutoffs_not_nan p ->
  exists c, Protocol_call_well p values = Ok c /\
    ((exists g, g ∈ key_set (virus_genes p) /\ detected_in values g) ->
       ((forall g, g ∈ key_set (virus_genes p) -> called_in p SAMPLE values g) -> c = POS) /\
       (~ (forall g, g ∈ key_set (virus_genes p) -> called_in p SAMPLE values g) -> c = IND)) /\
    (~ (exists g, g ∈ key_set (virus_genes p) /\ detected_in values g) ->
       ((forall g, called_in p SAMPLE values g <-> g ∈ key_set (control_genes p)) -> c = NEG) /\
       (~ (forall g, called_in p SAMPLE values g <-> g ∈ key_set (control_genes p)) -> c = INV)).
Proof.
  intros Hv Hp.
  destruct (detected_genes_Ok values Hv) as (D & HD & HDin).
  destruct (called_genes_Ok p SAMPLE values Hv Hp) as (C & HC & HCin); [done|].
  unfold Protocol_call_well. rewrite HD, HC. simpl.
  assert (Hdet : D ∩ key_set (virus_genes p) ≠ ∅ <->
                 exists g, g ∈ key_set (virus_genes p) /\ detected_in values g).
  { split.
    - intros Hne. apply set_choose_L in Hne as [g Hg]. apply elem_of_intersection in Hg.
      destruct Hg as [Hg1 Hg2]. exists g. split; [done|]. by apply HDin.
    - intros (g & Hg & Hd) He. apply HDin in Hd.
      assert (g ∈ D ∩ key_set (virus_genes p)) as Hin by set_solver.
      rewrite He in Hin. set_solver. }
  assert (Hall : key_set (virus_genes p) ⊆ C <->
                 forall g, g ∈ key_set (virus_genes p) -> called_in p SAMPLE values g).
  { split; intros H g Hg; apply HCin; auto. }
  assert (Heq : C = key_set (control_genes p) <->
                forall g, called_in p SAMPLE values g <-> g ∈ key_set (control_genes p)).
  { split.
    - intros -> g. by rewrite HCin.
    - intros H. apply set_eq. intros g. by rewrite HCin. }
  case_bool_decide as B1.
  - case_bool_decide as B2; eexists; (split; [done|]); split; try tauto.
  - case_bool_decide as B2; eexists; (split; [done|]); split; try tauto.
Qed.

Lemma dict_get_Some_in {V} k (v : V) d : dict_get k d = Some v -> (k, v) ∈ d.
Proof.
  induction d as [|[k' v'] d IH]; simpl; [done|].
  destruct (decide (k = k')) as [->|]; [intros [= ->]; by left | right; auto].
Qed.

Lemma cutoffs_not_nan_check p :
  forallb (fun gt => thresholds_not_nan gt.2) (gene_cutoffs p) = true -> cutoffs_not_nan p.
Proof.
  intros Hall g th well_type c Hg Hth.
  apply dict_get_Some_in, list_elem_of_In in Hg.
  rewrite forallb_forall in Hall. specialize (Hall _ Hg). simpl in Hall.
  unfold thresholds_not_nan in Hall. rewrite !andb_true_iff in Hall.
  destruct Hall as ((((H1 & H2) & H3) & H4) & H5).
  destruct well_type as [|[]|]; simpl in Hth; try discriminate;
    injection Hth as Hth; rewrite Hth in *; simpl in *; by apply negb_true_iff.
Qed.

Lemma cq_values_check values :
  forallb (fun gv => is_cq_value gv.2) values = true -> cq_values values.
Proof.
  intros Hall g v Hin. apply list_elem_of_In in Hin.
  rewrite forallb_forall in Hall. specialize (Hall _ Hin). simpl in Hall.
  destruct v as [x|s]; simpl in *; [done|].
  apply orb_true_iff in Hall as [H | H]; apply bool_decide_eq_true in H; auto.
Qed.

Lemma call_well_classifies_witness :
  cq_values scenario_ind /\ cutoffs_not_nan SOP_V2 /\
  exists c, Protocol_call_well SOP_V2 scenario_ind = Ok c.
Proof.
  assert (Hv : cq_values scenario_ind) by (apply cq_values_check; reflexivity).
  assert (Hp : cutoffs_not_nan SOP_V2) by (apply cutoffs_not_nan_check; reflexivity).
  split; [exact Hv|]. split; [exact Hp|].
  destruct (call_well_classifies SOP_V2 scenario_ind Hv Hp) as (c & Hc & _).
  by exists c.
Defined.

(** C5.  For every gene-to-Cq map, [check_control] returns Pass or Fail for
    each of the four control types, and Pass exactly when: no gene is called
    (NTC, PBS); the called genes are all the genes of the cutoff table, virus
    and control (PC); the called genes are exactly the control genes (HRC).
    For any other value of [control_type] it raises. *)
Theorem check_control_classifies (p : Protocol) (values : list (Gene * PyVal)) :
  (cq_values values -> cutoffs_not_nan p ->
   forall ct, exists c,
     check_control p values (Control ct) = Ok c /\ (c = PASS \/ c = FAIL) /\
     (c = PASS <-> pass_condition p values ct)) /\
  (forall control_type,
     (forall ct, control_type <> Control ct) ->
     raises (check_control p values control_type)).
Proof.
  split.
  - intros Hv Hp ct.
    destruct (called_genes_Ok p (Control ct) values Hv Hp) as (C & HC & HCin); [done|].
    unfold check_control. rewrite HC. simpl.
    assert (Hempty : size C = 0%nat <-> forall g, ~ called_in p (Control ct) values g).
    { rewrite size_empty_iff. split.
      - intros HE g Hg. apply HCin in Hg. set_solver.
      - intros HE. apply elem_of_equiv_empty. intros g Hg. apply HCin in Hg. by eapply HE. }
    assert (Heq : forall K : gset Gene,
               C = K <-> forall g, called_in p (Control ct) values g <-> g ∈ K).
    { intros K. split.
      - intros <- g. by rewrite HCin.
      - intros H. apply set_eq. intros g. by rewrite HCin. }
    destruct ct; simpl; case_bool_decide as B; eexists; (split; [done|]);
      (split; [auto|]); rewrite <- ?gene_cutoffs_keys, <- ?Heq, <- ?Hempty;
      split; intros; done.
  - intros control_type Hct. unfold check_control.
    destruct (called_genes p control_type values) as [C|e]; simpl; [|by exists e].
    destruct control_type as [|ct|o]; [by exists ValueError| |by exists ValueError].
    by destruct (Hct ct).
Qed.

Lemma check_control_classifies_witness :
  cq_values scenario_pc /\ cutoffs_not_nan SOP_V2 /\
  exists c, check_control SOP_V2 scenario_pc (Control PC) = Ok c.
Proof.
  assert (Hv : cq_values scenario_pc) by (apply cq_values_check; reflexivity).
  assert (Hp : cutoffs_not_nan SOP_V2) by (apply cutoffs_not_nan_check; reflexivity).
  split; [exact Hv|]. split; [exact Hp|].
  destruct (proj1 (check_control_classifies SOP_V2 scenario_pc) Hv Hp PC) as (c & Hc & _).
  by exists c.
Defined.

(** C6.  [V3Protocol.call_well] returns Positive-needs-review exactly when
    [Protocol.call_well] returns Indeterminate, returns (or raises) what
    [Protocol.call_well] does in every other case, and never returns
    Indeterminate. *)
Theorem V3_call_well_refines (p : Protocol) (values : list (Gene * PyVal)) :
  (V3Protocol_call_well p values = Ok POS_REVIEW <-> Protocol_call_well p values = Ok IND) /\
  (forall c, c <> IND ->
     Protocol_call_well p values = Ok c -> V3Protocol_call_well p values = Ok c) /\
  (forall e, Protocol_call_well p values = Raise e -> V3Protocol_call_well p values = Raise e) /\
  V3Protocol_call_well p values <> Ok IND.
Proof.
  unfold V3Protocol_call_well.
  destruct (Protocol_call_well p values) as [c|e] eqn:E; simpl.
  - apply Protocol_call_well_range in E.
    split; [|split; [|split]].
    + case_decide as Hc; [by subst|].
      split; [intros [= ->]|intros [= ->]; done].
      destruct E as [E | [E | [E | E]]]; discriminate.
    + intros c' Hc' [= <-]. by case_decide.
    + intros e [=].
    + case_decide; congruence.
  - split; [|split; [|split]]; try done.
Qed.

(** C7.  Under SOP-V2, [call_well] gives Invalid on a map without any
    detected gene, Negative when RNAse P alone is detected at 35.4, Positive
    for N at 31.4 and E at 32.1 without RNAse P, and Indeterminate for N
    ["NaN"], E at 42.1 and RNAse P at 35.4; under SOP-V3 the last one is
    Positive-needs-review and the three others are as under SOP-V2. *)
Theorem call_well_scenarios :
  let nothing := [("N", VFloat F64.nan); ("E", VFloat F64.nan); ("RNAse P", VFloat F64.nan)] in
  let control_only :=
    [("N", VFloat F64.nan); ("E", VFloat F64.nan); ("RNAse P", VFloat (F64.lit 354 1))] in
  let both_virus :=
    [("N", VFloat (F64.lit 314 1)); ("E", VFloat (F64.lit 321 1));
     ("RNAse P", VFloat F64.nan)] in
  let late_E :=
    [("N", VStr "NaN"); ("E", VFloat (F64.lit 421 1)); ("RNAse P", VFloat (F64.lit 354 1))] in
  call_well SOP_V2 nothing = Ok INV /\
  call_well SOP_V2 control_only = Ok NEG /\
  call_well SOP_V2 both_virus = Ok POS /\
  call_well SOP_V2 late_E = Ok IND /\
  call_well SOP_V3 nothing = Ok INV /\
  call_well SOP_V3 control_only = Ok NEG /\
  call_well SOP_V3 both_virus = Ok POS /\
  call_well SOP_V3 late_E = Ok POS_REVIEW.
Proof. repeat split; vm_compute; reflexivity. Qed.

(** ** The comparison of two wells *)

Lemma list_comprehension_get_ct r gs xs :
  Forall2 (fun g x => gene_cts r !! g = Some x) gs xs ->
  list_comprehension (get_ct r) gs = Ok xs.
Proof.
  induction 1 as [|g x gs xs Hg _ IH]; simpl; [done|].
  unfold get_ct at 1. rewrite Hg. simpl. by rewrite IH.
Qed.

(** The pairwise sum does not depend on the bound of the recursion, once the
    bound is at least the length *)
Lemma pairwise_sum_bound (b1 b2 : nat) xs :
  (length xs <= b1)%nat -> (length xs <= b2)%nat ->
  pairwise_sum b1 xs = pairwise_sum b2 xs.
Proof.
  revert b2 xs. induction b1 as [|b1 IH]; intros b2 xs H1 H2.
  - destruct b2 as [|b2]; [done|]. cbn [pairwise_sum].
    destruct (Nat.ltb_spec 128 (length xs)); [lia|done].
  - destruct b2 as [|b2]; cbn [pairwise_sum].
    + destruct (Nat.ltb_spec 128 (length xs)); [lia|done].
    + destruct (Nat.ltb_spec 128 (length xs)) as [Hn|Hn]; [|done].
      pose proof (Nat.div_mod_eq (length xs) 2) as Hd.
      pose proof (Nat.mod_upper_bound (length xs) 2 ltac:(lia)) as Hm.
      pose proof (Nat.mod_upper_bound (length xs / 2) 8 ltac:(lia)) as Hm8.
      set (q := (length xs / 2)%nat) in *. set (k := (q mod 8)%nat) in *.
      f_equal; apply IH; rewrite ?length_take, ?length_drop; lia.
Qed.

(** Fewer than eight values are added from left to right *)
Lemma np_sum_short xs :
  (length xs < 8)%nat -> np_sum xs = F64.add F64.zero (fold_left F64.add xs F64.zero).
Proof.
  intros Hn. unfold np_sum. f_equal.
  assert (Hb : block_sum xs = fold_left F64.add xs F64.zero).
  { unfold block_sum. by destruct (Nat.ltb_spec (length xs) 8); [|lia]. }
  destruct (length xs) as [|n] eqn:E; cbn [pairwise_sum]; [done|].
  rewrite E. by destruct (Nat.ltb_spec 128 (S n)); [lia|].
Qed.

(** Eight values are added as a balanced tree *)
Lemma np_sum_eight a b c d e f g h :
  np_sum [a; b; c; d; e; f; g; h]
  = F64.add F64.zero
      (F64.add (F64.add (F64.add a b) (F64.add c d))
               (F64.add (F64.add e f) (F64.add g h))).
Proof. reflexivity. Qed.

(** *** The sums of a list *)

Lemma sum_of_fold xs l acc :
  sum_of l acc -> sum_of (l ++ xs) (fold_left F64.add xs acc).
Proof.
  revert l acc. induction xs as [|x xs IH]; intros l acc H; simpl.
  - by rewrite app_nil_r.
  - rewrite (cons_middle x l xs), app_assoc. apply IH.
    apply sum_of_add; [done|constructor].
Qed.

Lemma sum_of_nan xs s : sum_of xs s -> F64.nan ∈ xs -> s = F64.nan.
Proof.
  induction 1 as [|x|xs ys a b _ IHa _ IHb|xs ys a Hp _ IH]; intros Hin.
  - by apply elem_of_nil in Hin.
  - by apply list_elem_of_singleton in Hin.
  - apply elem_of_app in Hin as [Hin|Hin].
    + rewrite (IHa Hin). apply F64Facts.add_nan_l.
    + rewrite (IHb Hin). apply F64Facts.add_nan_r.
  - apply IH. by rewrite Hp.
Qed.

Lemma concat_alter_snoc (ls : list (list float)) (j : nat) x :
  (j < length ls)%nat ->
  Permutation (concat (alter (fun l => l ++ [x]) j ls)) (concat ls ++ [x]).
Proof.
  revert j. induction ls as [|l ls IH]; intros j Hj; simpl in *; [lia|].
  destruct j as [|j]; simpl.
  - rewrite <- !app_assoc. apply Permutation_app_head, Permutation_app_comm.
  - rewrite <- app_assoc. apply Permutation_app_head, IH. lia.
Qed.

Lemma accumulate_sum ys : forall ls r j,
  Forall2 sum_of ls r -> length r = 8%nat -> (j < 8)%nat ->
  exists ls', Forall2 sum_of ls' (accumulate r j ys) /\ length (accumulate r j ys) = 8%nat /\
    Permutation (concat ls') (concat ls ++ ys).
Proof.
  induction ys as [|y ys IH]; intros ls r j Hs Hr Hj; simpl.
  - exists ls. by rewrite app_nil_r.
  - destruct (IH (alter (fun l => l ++ [y]) j ls) (alter (fun z => F64.add z y) j r)
                (S j mod 8)%nat) as (ls' & Hs' & Hlen & Hp).
    + apply Forall2_alter; [done|]. intros l z _ _ Hl. apply sum_of_add; [done|constructor].
    + by rewrite length_alter.
    + apply Nat.mod_upper_bound. lia.
    + exists ls'. split; [done|]. split; [done|]. rewrite Hp.
      rewrite concat_alter_snoc by (rewrite (Forall2_length _ _ _ Hs); lia).
      by rewrite <- app_assoc.
Qed.

Lemma add_tree_sum ls r :
  Forall2 sum_of ls r -> length r = 8%nat -> sum_of (concat ls) (add_tree r).
Proof.
  intros Hs Hr.
  do 9 (destruct r as [|? r]; try done).
  repeat match goal with H : Forall2 _ _ (_ :: _) |- _ =>
    apply Forall2_cons_inv_r in H as (? & ? & ? & H & ->) end.
  apply Forall2_nil_inv_r in Hs as ->. simpl. rewrite app_nil_r.
  eapply sum_of_perm; cycle 1.
  { repeat apply sum_of_add; eassumption. }
  by rewrite <- !app_assoc.
Qed.

Lemma block_sum_sum xs : sum_of xs (block_sum xs).
Proof.
  unfold block_sum. destruct (Nat.ltb_spec (length xs) 8) as [Hn|Hn].
  - apply (sum_of_fold xs [] F64.zero). constructor.
  - set (m := (length xs - length xs mod 8)%nat).
    assert (Hm : (8 <= m <= length xs)%nat).
    { pose proof (Nat.div_mod_eq (length xs) 8) as Hd.
      pose proof (Nat.mod_upper_bound (length xs) 8 ltac:(lia)) as Hu. unfold m.
      set (q := (length xs / 8)%nat) in *. lia. }
    destruct (accumulate_sum (drop 8 (take m xs)) ((fun x => [x]) <$> take 8 xs)
                (take 8 xs) 0%nat) as (ls & Hs & Hlen & Hp).
    + apply Forall2_fmap_l, Forall_Forall2_diag, Forall_forall. intros; constructor.
    + rewrite length_take. lia.
    + lia.
    + apply sum_of_perm with (concat ls ++ drop m xs).
      * rewrite Hp. rewrite <- (take_drop m xs) at 4. apply Permutation_app_tail.
        rewrite <- (take_drop 8 (take m xs)) at 2. rewrite take_take, Nat.min_l by lia.
        apply Permutation_app_tail. clear. induction (take 8 xs) as [|x l IH]; [done|].
        simpl. by rewrite IH.
      * apply sum_of_fold. by apply add_tree_sum.
Qed.

Lemma pairwise_sum_sum b xs : sum_of xs (pairwise_sum b xs).
Proof.
  revert xs. induction b as [|b IH]; intros xs; cbn [pairwise_sum].
  - apply block_sum_sum.
  - destruct (128 <? length xs)%nat; [|apply block_sum_sum].
    set (n2 := (length xs / 2 - (length xs / 2) mod 8)%nat).
    rewrite <- (take_drop n2 xs) at 1. by apply sum_of_add.
Qed.

(** numpy's sum is a sum of the values *)
Lemma np_sum_sum xs : sum_of xs (np_sum xs).
Proof. apply (sum_of_add [] xs); [constructor|apply pairwise_sum_sum]. Qed.

(** One NaN makes the mean NaN *)
Lemma np_mean_nan xs : F64.nan ∈ xs -> np_mean xs = F64.nan.
Proof.
  intros Hin. unfold np_mean.
  rewrite (sum_of_nan _ _ (np_sum_sum xs) Hin). apply F64Facts.div_nan_l.
Qed.

(** *** The sign of a zero

    Adding a sum to zero leaves it as it is, but for the sign of a zero; the
    division, the subtraction and the comparison do not tell the two zeros
    of a sum apart. *)

Lemma add_zero_same x : same_number (F64.add F64.zero x) x.
Proof. destruct x as [[]| | |]; (by left) || (right; by eauto). Qed.

Lemma div_same x x' n :
  same_number x x' -> same_number (F64.div x n) (F64.div x' n).
Proof.
  intros [->|(s & s' & -> & ->)]; [by left|].
  destruct n as [sn|sn| |sn mn en]; (by left) || (right; by eauto).
Qed.

Lemma sub_same x x' y y' :
  same_number x x' -> same_number y y' -> same_number (F64.sub x y) (F64.sub x' y').
Proof.
  intros [->|(sx & sx' & -> & ->)] [->|(sy & sy' & -> & ->)]; [by left| | |].
  - destruct x' as [s|s| |s m e]; try (by left).
    right. destruct s, sy, sy'; by eauto.
  - destruct y' as [s|s| |s m e]; try (by left).
    right. destruct s, sx, sx'; by eauto.
  - right. destruct sx, sx', sy, sy'; by eauto.
Qed.

Lemma ltb_same c x x' : same_number x x' -> F64.ltb c x = F64.ltb c x'.
Proof.
  intros [->|(s & s' & -> & ->)]; [done|].
  by destruct c as [[]|[]| |[] m e].
Qed.

(** For fewer than eight values numpy's mean is the mean from left to right *)
Lemma np_mean_short xs :
  (length xs < 8)%nat -> same_number (np_mean xs) (mean xs).
Proof.
  intros Hn. unfold np_mean, mean. rewrite (np_sum_short xs Hn).
  apply div_same, add_zero_same.
Qed.

(** Eight values need not have the mean that the sum from left to right
    gives: numpy adds [2^53 + 1] and [1 + 1] first. *)
Lemma np_mean_eight_values :
  let one := F64.of_Z 1 in
  let xs := [F64.of_Z (2 ^ 53); one; one; one; F64.zero; F64.zero; F64.zero; F64.zero] in
  np_mean xs = F64.div (F64.of_Z (2 ^ 53 + 2)) (F64.of_Z 8) /\
  mean xs = F64.div (F64.of_Z (2 ^ 53)) (F64.of_Z 8).
Proof. split; vm_compute; reflexivity. Qed.

(** Every registered protocol has fewer than eight virus genes *)
Lemma registered_virus_genes protocol_name p :
  get_protocol protocol_name = Ok p -> (length (virus_genes p) < 8)%nat.
Proof. unfold get_protocol. repeat case_decide; intros [= <-]; cbn; lia. Qed.

(** C3.  For every pair of wells that hold a Cq value for each virus gene
    and every cutoff, [Protocol.compare_wells] returns whether the mean of the
    first well's virus-gene Cq values minus the mean of the second's exceeds
    the cutoff.  Each mean is a sum of the well's values, each of them added
    once, over their count; for a protocol with fewer than eight virus genes,
    as every registered protocol is, it is the sum from left to right over
    the count.  The comparison returns false as soon as one of the values is
    NaN, whatever the number of genes. *)
Theorem compare_wells_mean (p : Protocol) (a b : WellResults) (cutoff : float)
    (xs ys : list float) :
  virus_cqs p a xs -> virus_cqs p b ys ->
  (exists sa sb, sum_of xs sa /\ sum_of ys sb /\
     Protocol_compare_wells p a b cutoff
       = Ok (F64.ltb cutoff
               (F64.sub (F64.div sa (F64.of_Z (Z.of_nat (length xs))))
                        (F64.div sb (F64.of_Z (Z.of_nat (length ys))))))) /\
  ((length (virus_genes p) < 8)%nat ->
   Protocol_compare_wells p a b cutoff
     = Ok (F64.ltb cutoff (F64.sub (mean xs) (mean ys)))) /\
  (F64.nan ∈ xs \/ F64.nan ∈ ys -> Protocol_compare_wells p a b cutoff = Ok false).
Proof.
  intros Ha Hb.
  assert (Protocol_compare_wells p a b cutoff
          = Ok (F64.ltb cutoff (F64.sub (np_mean xs) (np_mean ys)))) as Heq.
  { unfold Protocol_compare_wells.
    rewrite (list_comprehension_get_ct a _ xs Ha), (list_comprehension_get_ct b _ ys Hb).
    reflexivity. }
  split; [|split].
  - exists (np_sum xs), (np_sum ys). by repeat split; try apply np_sum_sum.
  - intros Hn. rewrite Heq. f_equal. apply ltb_same, sub_same; apply np_mean_short.
    + rewrite <- (Forall2_length _ _ _ Ha). unfold dict_keys. by rewrite length_fmap.
    + rewrite <- (Forall2_length _ _ _ Hb). unfold dict_keys. by rewrite length_fmap.
  - intros [Hn | Hn]; rewrite Heq, (np_mean_nan _ Hn).
    + by rewrite F64Facts.sub_nan_l, F64Facts.ltb_nan_r.
    + by rewrite F64Facts.sub_nan_r, F64Facts.ltb_nan_r.
Qed.

Lemma compare_wells_mean_witness :
  Protocol_compare_wells SOP_V2 (well POS (Some 37) (Some 5) None)
    (well POS (Some 12) (Some 7) (Some 35)) (F64.lit 100 1) = Ok true /\
  Protocol_compare_wells SOP_V2 (well POS (Some 37) None None)
    (well POS (Some 12) (Some 7) (Some 35)) (F64.lit 100 1) = Ok false.
Proof.
  split.
  - refine (proj1 (proj2 (compare_wells_mean SOP_V2 _ _ _ [F64.of_Z 37; F64.of_Z 5]
                            [F64.of_Z 12; F64.of_Z 7] _ _)) _);
      [repeat constructor ..|]. cbn. lia.
  - refine (proj2 (proj2 (compare_wells_mean SOP_V2 _ _ _ [F64.of_Z 37; F64.nan]
                            [F64.of_Z 12; F64.of_Z 7] _ _)) _);
      [repeat constructor ..|]. left. set_solver.
Defined.

(** ** The visit of a well is the scan of the well *)

Lemma set_call_same r : set_call (call r) r = r.
Proof. by destruct r. Qed.

Lemma alter_set_call_same (wm : plate) k r :
  wm !! k = Some r -> alter (set_call (call r)) k wm = wm.
Proof.
  intros Hk. apply map_eq. intros j. rewrite lookup_alter.
  case_decide as Hj; [|done]. subst j. rewrite Hk. simpl. by rewrite set_call_same.
Qed.

Lemma alter_set_call_twice (wm : plate) k c c' :
  alter (set_call c) k (alter (set_call c') k wm) = alter (set_call c) k wm.
Proof.
  apply map_eq. intros j. rewrite !lookup_alter.
  repeat case_decide; try done. by destruct (wm !! k).
Qed.

(** The comparisons read the Cq values only *)
Lemma compare_wells_gene_cts p r r' o o' cutoff :
  gene_cts r = gene_cts r' -> gene_cts o = gene_cts o' ->
  compare_wells p r o cutoff = compare_wells p r' o' cutoff.
Proof.
  intros Hr Ho.
  assert (Hg : forall g, get_ct r g = get_ct r' g) by (intros g; unfold get_ct; by rewrite Hr).
  assert (Hg' : forall g, get_ct o g = get_ct o' g) by (intros g; unfold get_ct; by rewrite Ho).
  assert (Hl : forall gs, list_comprehension (get_ct r) gs = list_comprehension (get_ct r') gs).
  { induction gs as [|g gs IH]; simpl; [done|]. by rewrite Hg, IH. }
  assert (Hl' : forall gs, list_comprehension (get_ct o) gs = list_comprehension (get_ct o') gs).
  { induction gs as [|g gs IH]; simpl; [done|]. by rewrite Hg', IH. }
  unfold compare_wells, Protocol_compare_wells, V3Protocol_compare_wells.
  destruct (v3 p); [|by rewrite Hl, Hl'].
  induction (dict_keys (virus_genes p)) as [|g gs IH]; simpl; [done|].
  by rewrite Hg, Hg', IH.
Qed.

(** A monadic loop that threads the call of one well is the pure loop *)
Lemma for_pfor {A} (xs : list A) (body : A -> M unit)
    (pbody : A -> Call -> Call * result unit) (wm : plate) (well_id : string) :
  (forall x c, body x (alter (set_call c) well_id wm)
               = (alter (set_call (pbody x c).1) well_id wm, (pbody x c).2)) ->
  forall c, for_ xs body (alter (set_call c) well_id wm)
            = (alter (set_call (pfor xs pbody c).1) well_id wm, (pfor xs pbody c).2).
Proof.
  intros Hbody. induction xs as [|x xs IH]; intros c; simpl; [done|].
  unfold bind. rewrite Hbody. destruct (pbody x c) as [c' [[]|e]]; simpl; [apply IH|done].
Qed.

Section scan_facts.

Variable p : Protocol.
Variables (radius : Z) (cutoff : float) (flag : Call).

Lemma visit_neighbor_scan (wm : plate) well_id results other_row other_col c :
  wm !! well_id = Some results ->
  visit_neighbor p cutoff flag well_id other_row other_col (alter (set_call c) well_id wm)
  = (alter (set_call (scan_neighbor p cutoff flag wm results other_row other_col c).1)
       well_id wm,
     (scan_neighbor p cutoff flag wm results other_row other_col c).2).
Proof.
  intros Hw. unfold visit_neighbor, scan_neighbor, bind, get_plate.
  destruct (well_name other_row other_col) as [nm|]; simpl; [|done].
  assert (Hnm : match wm !! nm with
                | Some o => exists o', alter (set_call c) well_id wm !! nm = Some o' /\
                                       gene_cts o' = gene_cts o
                | None => alter (set_call c) well_id wm !! nm = None
                end).
  { destruct (decide (well_id = nm)) as [<-|Hne].
    - rewrite lookup_alter_eq, Hw. simpl. eexists. split; reflexivity.
    - rewrite lookup_alter_ne by done. destruct (wm !! nm); eauto. }
  destruct (wm !! nm) as [o|]; [|by rewrite Hnm].
  destruct Hnm as (o' & -> & Ho'). rewrite lookup_alter_eq, Hw. simpl.
  destruct (is_positive c); simpl; [|done].
  unfold lift.
  rewrite (compare_wells_gene_cts p (set_call c results) results o' o cutoff eq_refl Ho').
  destruct (compare_wells p results o cutoff) as [[]|e]; simpl; try done.
  unfold write_call. by rewrite alter_set_call_twice.
Qed.

Lemma visit_well_scan (wm : plate) well_id :
  visit_well p radius cutoff flag well_id wm
  = match wm !! well_id with
    | None => (wm, Ok tt)
    | Some results =>
        (alter (set_call (scan_well p radius cutoff flag wm well_id results).1) well_id wm,
         (scan_well p radius cutoff flag wm well_id results).2)
    end.
Proof.
  unfold visit_well, scan_well, bind, get_plate.
  destruct (wm !! well_id) as [results|] eqn:Hw; [|done].
  destruct (is_positive (call results)); simpl;
    [|by rewrite (alter_set_call_same wm well_id results Hw)].
  unfold lift.
  destruct (ord (first_char well_id)) as [row|e]; simpl;
    [|by rewrite (alter_set_call_same wm well_id results Hw)].
  destruct (py_int (but_first well_id)) as [col|e]; simpl;
    [|by rewrite (alter_set_call_same wm well_id results Hw)].
  rewrite <- (alter_set_call_same wm well_id results Hw) at 1.
  apply for_pfor. intros i c. unfold bind, scan_row.
  destruct (chr i) as [other_row|e]; simpl; [|done].
  apply for_pfor. intros other_col c'. by apply visit_neighbor_scan.
Qed.

Lemma pfor_invariant {A} (P : Call -> Prop) (xs : list A) body c :
  (forall x c, P c -> P (body x c).1) -> P c -> P (pfor xs body c).1.
Proof.
  intros Hb. revert c. induction xs as [|x xs IH]; intros c Hc; simpl; [done|].
  specialize (Hb x c Hc). destruct (body x c) as [c' [[]|e]]; simpl in *; auto.
Qed.

Lemma scan_neighbor_step wm results other_row other_col c0 c :
  call_step flag c0 c ->
  call_step flag c0 (scan_neighbor p cutoff flag wm results other_row other_col c).1.
Proof.
  intros Hc. unfold scan_neighbor.
  destruct (well_name other_row other_col ≫= (wm !!.)); simpl; [|done].
  destruct (is_positive c) eqn:Hpos; simpl; [|done].
  destruct (compare_wells p results _ cutoff) as [[]|e]; simpl; try done.
  right. split; [|done]. destruct Hc as [-> | [? _]]; done.
Qed.

Lemma scan_well_step wm well_id results :
  call_step flag (call results) (scan_well p radius cutoff flag wm well_id results).1.
Proof.
  unfold scan_well. destruct (is_positive (call results)); simpl; [|by left].
  destruct (ord _) as [row|e]; simpl; [|by left].
  destruct (py_int _) as [col|e]; simpl; [|by left].
  apply pfor_invariant; [|by left]. intros i c Hc. unfold scan_row.
  destruct (chr i) as [other_row|e]; simpl; [|done].
  apply pfor_invariant; [|done]. intros. by apply scan_neighbor_step.
Qed.

End scan_facts.

(** ** The scanner only escalates positive calls *)

Lemma for_invariant {A} (P : plate -> Prop) (xs : list A) (body : A -> M unit) wm :
  (forall x s, P s -> P (body x s).1) -> P wm -> P (for_ xs body wm).1.
Proof.
  intros Hb. revert wm. induction xs as [|x xs IH]; intros wm Hwm; simpl; [done|].
  unfold bind. specialize (Hb x wm Hwm).
  destruct (body x wm) as [wm' [[]|e]]; simpl in *; auto.
Qed.

Lemma escalation_refl flags wm : escalation flags wm wm.
Proof. intros k. destruct (wm !! k) as [r|]; [|done]. split; [by destruct r | by left]. Qed.

Lemma escalation_trans flags wm1 wm2 wm3 :
  escalation flags wm1 wm2 -> escalation flags wm2 wm3 -> escalation flags wm1 wm3.
Proof.
  intros H12 H23 k. specialize (H12 k). specialize (H23 k).
  destruct (wm1 !! k) as [r1|], (wm2 !! k) as [r2|], (wm3 !! k) as [r3|]; try done.
  destruct H12 as [E2 H12], H23 as [E3 H23]. split.
  - rewrite E3, E2. reflexivity.
  - destruct H23 as [-> | [Hp Hf]]; [done|]. right. split; [|done].
    destruct H12 as [<- | [? _]]; done.
Qed.

Lemma escalation_mono flags flags' wm wm' :
  flags ⊆ flags' -> escalation flags wm wm' -> escalation flags' wm wm'.
Proof.
  intros Hsub H k. specialize (H k).
  destruct (wm !! k), (wm' !! k); try done.
  destruct H as [E [H | [Hp Hf]]]; split; auto.
Qed.

Lemma visit_well_escalation p radius cutoff flag well_id wm :
  escalation [flag] wm (visit_well p radius cutoff flag well_id wm).1.
Proof.
  rewrite visit_well_scan.
  destruct (wm !! well_id) as [results|] eqn:Hw; simpl; [|apply escalation_refl].
  pose proof (scan_well_step p radius cutoff flag wm well_id results) as Hstep.
  intros k. rewrite lookup_alter.
  destruct (decide (well_id = k)) as [<-|Hne].
  - rewrite Hw. simpl. split; [done|].
    destruct Hstep as [-> | [Hp ->]]; [by left | right; split; [done | by left]].
  - destruct (wm !! k) as [r|]; [|done]. split; [by destruct r | by left].
Qed.

Lemma check_square_escalation p radius cutoff flag order wm :
  escalation [flag] wm (check_square p radius cutoff flag order wm).1.
Proof.
  unfold check_square. apply for_invariant; [|apply escalation_refl].
  intros w s Hs. eapply escalation_trans; [exact Hs|]. apply visit_well_escalation.
Qed.

Lemma flag_contamination_escalation p order wm :
  escalation [POS_CLUSTER; POS_HOTWELL] wm (flag_contamination p order wm).1.
Proof.
  unfold flag_contamination, Protocol_flag_contamination, V3Protocol_flag_contamination.
  destruct (v3 p) as [x|].
  - unfold bind.
    pose proof (check_square_escalation p (hot_well_radius x) (hot_well_cutoff x)
                  POS_HOTWELL order wm) as H1.
    destruct (check_square p (hot_well_radius x) (hot_well_cutoff x) POS_HOTWELL order wm)
      as [wm1 [[]|e]]; simpl in *.
    + eapply escalation_trans.
      * eapply escalation_mono; [|exact H1]. set_solver.
      * eapply escalation_mono; [|apply check_square_escalation]. set_solver.
    + eapply escalation_mono; [|exact H1]. set_solver.
  - eapply escalation_mono; [|apply check_square_escalation]. set_solver.
Qed.

(** On that plate the first pass of SOP-V3 flags A2 as a hot well and the
    second pass flags it again, as a cluster; C2, a Positive-needs-review
    well, is flagged too. *)
Lemma cluster_test_plate_passes :
  let wm : plate := list_to_map cluster_test_plate in
  let order := cluster_test_plate.*1 in
  call_of wm "A2" = Some POS /\
  call_of (check_square SOP_V3 3 (F64.lit 220 1) POS_HOTWELL order wm).1 "A2"
    = Some POS_HOTWELL /\
  call_of (flag_contamination SOP_V3 order wm).1 "A2" = Some POS_CLUSTER /\
  call_of wm "C2" = Some POS_REVIEW /\
  call_of (flag_contamination SOP_V3 order wm).1 "C2" = Some POS_CLUSTER.
Proof. repeat split; vm_compute; reflexivity. Qed.

(** C2, as the code has it.  [check_square] and [flag_contamination] change
    nothing of a plate but calls, and only calls of the positive family
    ([Call.is_positive]: Positive, Positive-needs-review, Positive-by-cluster,
    Positive-by-hot-well), which they set to the flag of the pass; a call
    that is not positive is never touched.  Positive-by-hot-well is itself
    positive: a well flagged by the first pass of SOP-V3 is still a candidate
    of the second, which can flag it again as Positive-by-cluster. *)
Theorem flag_contamination_escalates (p : Protocol) (order : list string) (wm : plate) :
  escalation [POS_CLUSTER; POS_HOTWELL] wm (flag_contamination p order wm).1 /\
  (forall radius cutoff flag,
     escalation [flag] wm (check_square p radius cutoff flag order wm).1) /\
  is_positive POS_HOTWELL = true /\
  (exists order0 (wm0 : plate) k,
     call_of (check_square SOP_V3 3 (F64.lit 220 1) POS_HOTWELL order0 wm0).1 k
       = Some POS_HOTWELL /\
     call_of (flag_contamination SOP_V3 order0 wm0).1 k = Some POS_CLUSTER).
Proof.
  split; [apply flag_contamination_escalation|].
  split; [intros; apply check_square_escalation|].
  split; [reflexivity|].
  exists (cluster_test_plate.*1), (list_to_map cluster_test_plate), "A2".
  pose proof cluster_test_plate_passes as H. simpl in H. tauto.
Qed.

(** C2, as stated, fails on the plate of the repository's own test: A2 is
    Positive-by-hot-well after the first pass of SOP-V3 and Positive-by-cluster
    after the second, and C2, which is not Positive but Positive-needs-review,
    is escalated. *)
Lemma hot_well_overwritten_by_cluster :
  let wm : plate := list_to_map cluster_test_plate in
  let order := cluster_test_plate.*1 in
  call_of (check_square SOP_V3 3 (F64.lit 220 1) POS_HOTWELL order wm).1 "A2"
    = Some POS_HOTWELL /\
  call_of (flag_contamination SOP_V3 order wm).1 "A2" = Some POS_CLUSTER /\
  call_of wm "C2" = Some POS_REVIEW /\
  call_of (flag_contamination SOP_V3 order wm).1 "C2" = Some POS_CLUSTER.
Proof.
  pose proof cluster_test_plate_passes as H. cbv zeta in *. tauto.
Qed.

(** ** A scan of radius 0 *)

Lemma ord_range s row : ord s = Ok row -> 0 <= row < 256.
Proof.
  destruct s as [|a [|]]; simpl; try discriminate. intros [= <-].
  pose proof (Ascii.N_ascii_bounded a). lia.
Qed.

Lemma range_radius0 x : range (x - 0) (x + 0 + 1) = [x].
Proof.
  unfold range. replace (x + 0 + 1 - (x - 0)) with 1 by lia.
  rewrite Z.sub_0_r. reflexivity.
Qed.

(** A well never exceeds itself by a non-negative cutoff *)
Lemma compare_wells_self p r cutoff :
  F64.leb F64.zero cutoff = true -> compare_wells p r r cutoff <> Ok true.
Proof.
  intros Hc. unfold compare_wells, Protocol_compare_wells, V3Protocol_compare_wells.
  destruct (v3 p).
  - induction (dict_keys (virus_genes p)) as [|g gs IH]; simpl; [done|].
    destruct (get_ct r g) as [x|e]; simpl; [|done].
    by rewrite (F64Facts.self_difference_below cutoff x Hc).
  - destruct (list_comprehension (get_ct r) (dict_keys (virus_genes p))) as [xs|e];
      simpl; [|done].
    by rewrite (F64Facts.self_difference_below cutoff (np_mean xs) Hc).
Qed.

Lemma scan_well_radius0 p cutoff flag (wm : plate) well_id results :
  canonical_id well_id -> wm !! well_id = Some results ->
  F64.leb F64.zero cutoff = true ->
  (scan_well p 0 cutoff flag wm well_id results).1 = call results.
Proof.
  intros Hcan Hw Hc. unfold scan_well.
  destruct (is_positive (call results)) eqn:Hpos; simpl; [|done].
  destruct (ord (first_char well_id)) as [row|e] eqn:Hrow; simpl; [|done].
  destruct (py_int (but_first well_id)) as [col|e] eqn:Hcol; simpl; [|done].
  rewrite range_radius0. simpl. unfold scan_row, chr.
  apply ord_range in Hrow as Hr.
  replace ((0 <=? row) && (row <=? 1114111)) with true
    by (symmetry; apply andb_true_iff; split; apply Z.leb_le; lia).
  rewrite range_radius0. simpl. unfold scan_neighbor.
  rewrite (Hcan row col Hrow Hcol). simpl. rewrite Hw, Hpos. simpl.
  pose proof (compare_wells_self p results cutoff Hc) as Hself.
  by destruct (compare_wells p results results cutoff) as [[]|e].
Qed.

(** C8.  With radius 0 and a non-negative cutoff, [check_square] leaves the
    plate as it is, for every plate of canonical well identifiers and every
    flag: the well compared with a candidate is the candidate itself, and a
    well's difference with itself (zero, or NaN) never exceeds the cutoff. *)
Theorem check_square_radius0 (p : Protocol) (cutoff : float) (flag : Call)
    (order : list string) (wm : plate) :
  (forall well_id, well_id ∈ order -> canonical_id well_id) ->
  F64.leb F64.zero cutoff = true ->
  (check_square p 0 cutoff flag order wm).1 = wm.
Proof.
  intros Hcan Hc. unfold check_square.
  induction order as [|w order IH]; simpl; [done|].
  unfold bind. rewrite visit_well_scan.
  assert (Hrest : (for_ order (visit_well p 0 cutoff flag) wm).1 = wm).
  { apply IH. intros w' Hw'. apply Hcan. by right. }
  destruct (wm !! w) as [results|] eqn:Hw.
  - rewrite (scan_well_radius0 p cutoff flag wm w results); [|apply Hcan; by left|done..].
    rewrite (alter_set_call_same wm w results Hw).
    destruct (scan_well p 0 cutoff flag wm w results).2 as [[]|e]; simpl; done.
  - exact Hrest.
Qed.

Lemma check_square_radius0_witness :
  (check_square SOP_V2 0 (F64.lit 100 1) POS_CLUSTER (cluster_test_plate.*1)
     (list_to_map cluster_test_plate)).1 = list_to_map cluster_test_plate.
Proof.
  apply check_square_radius0; [|reflexivity].
  intros well_id Hin row col Hrow Hcol.
  repeat (apply elem_of_cons in Hin as [-> | Hin];
          [vm_compute in Hrow, Hcol; injection Hrow as <-; injection Hcol as <-;
           reflexivity|]).
  by apply elem_of_nil in Hin.
Defined.

(** ** The visit of a well reads the other wells' Cq values only *)

Lemma same_cts_refl wm : same_cts wm wm.
Proof. done. Qed.

Lemma same_cts_trans wm1 wm2 wm3 : same_cts wm1 wm2 -> same_cts wm2 wm3 -> same_cts wm1 wm3.
Proof. intros H1 H2 k. by rewrite H1. Qed.

Lemma same_cts_alter (wm : plate) k c : same_cts wm (alter (set_call c) k wm).
Proof.
  intros j. destruct (decide (k = j)) as [<-|Hne].
  - rewrite lookup_alter_eq. by destruct (wm !! k).
  - by rewrite lookup_alter_ne.
Qed.

Lemma pfor_ext {A} (xs : list A) body body' c :
  (forall x c, body x c = body' x c) -> pfor xs body c = pfor xs body' c.
Proof.
  intros Hb. revert c. induction xs as [|x xs IH]; intros c; simpl; [done|].
  rewrite Hb. destruct (body' x c) as [c' [[]|e]]; auto.
Qed.

Section scan_ext.

Variable p : Protocol.
Variables (radius : Z) (cutoff : float) (flag : Call).

Lemma scan_neighbor_ext wm wm' r r' other_row other_col c :
  same_cts wm wm' -> gene_cts r = gene_cts r' ->
  scan_neighbor p cutoff flag wm r other_row other_col c
  = scan_neighbor p cutoff flag wm' r' other_row other_col c.
Proof.
  intros Hs Hr. unfold scan_neighbor.
  destruct (well_name other_row other_col) as [nm|]; simpl; [|done].
  specialize (Hs nm). destruct (wm !! nm) as [o|], (wm' !! nm) as [o'|]; try done.
  injection Hs as Ho. destruct (is_positive c); simpl; [|done].
  by rewrite (compare_wells_gene_cts p r r' o o' cutoff Hr Ho).
Qed.

Lemma scan_well_ext wm wm' well_id r r' :
  same_cts wm wm' -> gene_cts r = gene_cts r' -> call r = call r' ->
  scan_well p radius cutoff flag wm well_id r = scan_well p radius cutoff flag wm' well_id r'.
Proof.
  intros Hs Hr Hc. unfold scan_well. rewrite Hc.
  destruct (is_positive (call r')); simpl; [|done].
  destruct (ord _) as [row|e]; [|done]. destruct (py_int _) as [col|e]; [|done].
  apply pfor_ext. intros i c. unfold scan_row. destruct (chr i); [|done].
  apply pfor_ext. intros. by apply scan_neighbor_ext.
Qed.

Lemma visit_well_alter wm well_id :
  visit_well p radius cutoff flag well_id wm
  = (alter (set_call (scan_at p radius cutoff flag wm well_id).1) well_id wm, (scan_at p radius cutoff flag wm well_id).2).
Proof.
  rewrite visit_well_scan. unfold scan_at.
  destruct (wm !! well_id) eqn:Hw; [done|]. simpl. f_equal.
  apply map_eq. intros j. rewrite lookup_alter.
  case_decide as Hj; [subst j; by rewrite Hw | done].
Qed.

Lemma scan_at_ext wm wm' well_id :
  same_cts wm wm' -> call <$> wm !! well_id = call <$> wm' !! well_id ->
  scan_at p radius cutoff flag wm well_id = scan_at p radius cutoff flag wm' well_id.
Proof.
  intros Hs Hc. unfold scan_at. specialize (Hs well_id) as Hg.
  destruct (wm !! well_id) as [r|], (wm' !! well_id) as [r'|]; try done.
  injection Hg as Hg. injection Hc as Hc. by apply scan_well_ext.
Qed.

(** The visits of two different wells commute *)
Lemma visit_well_commute wm x y :
  x <> y ->
  let vx := visit_well p radius cutoff flag x wm in
  let vy := visit_well p radius cutoff flag y wm in
  (visit_well p radius cutoff flag y vx.1).2 = vy.2 /\
  (visit_well p radius cutoff flag x vy.1).2 = vx.2 /\
  (visit_well p radius cutoff flag y vx.1).1 = (visit_well p radius cutoff flag x vy.1).1.
Proof.
  intros Hxy. simpl. rewrite !visit_well_alter. simpl.
  assert (Hy : scan_at p radius cutoff flag (alter (set_call (scan_at p radius cutoff flag wm x).1) x wm) y = scan_at p radius cutoff flag wm y).
  { symmetry. apply scan_at_ext; [apply same_cts_alter|]. by rewrite lookup_alter_ne. }
  assert (Hx : scan_at p radius cutoff flag (alter (set_call (scan_at p radius cutoff flag wm y).1) y wm) x = scan_at p radius cutoff flag wm x).
  { symmetry. apply scan_at_ext; [apply same_cts_alter|]. by rewrite lookup_alter_ne. }
  rewrite Hx, Hy. repeat split. by apply alter_alter_ne.
Qed.

End scan_ext.

(** ** When the scanner returns *)

Lemma list_comprehension_returns r gs :
  (forall g, g ∈ gs -> is_Some (gene_cts r !! g)) ->
  exists xs, list_comprehension (get_ct r) gs = Ok xs.
Proof.
  induction gs as [|g gs IH]; intros Hg; simpl; [by eexists|].
  destruct (Hg g) as [x Hx]; [by left|]. unfold get_ct at 1. rewrite Hx. simpl.
  destruct IH as [xs ->]; [intros; apply Hg; by right|]. by eexists.
Qed.

Lemma compare_wells_returns p r o cutoff :
  (forall g, g ∈ dict_keys (virus_genes p) -> is_Some (gene_cts r !! g)) ->
  (forall g, g ∈ dict_keys (virus_genes p) -> is_Some (gene_cts o !! g)) ->
  exists b, compare_wells p r o cutoff = Ok b.
Proof.
  intros Hr Ho. unfold compare_wells, Protocol_compare_wells, V3Protocol_compare_wells.
  destruct (v3 p).
  - induction (dict_keys (virus_genes p)) as [|g gs IH]; simpl; [by eexists|].
    destruct (Hr g) as [x Hx]; [by left|]. destruct (Ho g) as [y Hy]; [by left|].
    unfold get_ct. rewrite Hx, Hy. simpl.
    destruct (F64.ltb cutoff (F64.sub x y)); [by eexists|].
    apply IH; intros; [apply Hr | apply Ho]; by right.
  - destruct (list_comprehension_returns r _ Hr) as [xs ->].
    destruct (list_comprehension_returns o _ Ho) as [ys ->]. simpl. by eexists.
Qed.

Lemma pfor_returns {A} (xs : list A) body c :
  (forall x c, x ∈ xs -> (body x c).2 = Ok tt) -> (pfor xs body c).2 = Ok tt.
Proof.
  revert c. induction xs as [|x xs IH]; intros c Hb; simpl; [done|].
  specialize (Hb x c (list_elem_of_here _ _)) as Hx.
  destruct (body x c) as [c' [[]|e]]; simpl in *; [|done].
  apply IH. intros. apply Hb. by right.
Qed.

Lemma scan_at_returns p radius cutoff flag wm well_id :
  complete_cts p wm -> scannable_id radius well_id ->
  (scan_at p radius cutoff flag wm well_id).2 = Ok tt.
Proof.
  intros Hc (row & col & Hrow & Hcol & Hlo & Hhi). unfold scan_at.
  destruct (wm !! well_id) as [r|] eqn:Hw; [|done]. unfold scan_well.
  destruct (is_positive (call r)); simpl; [|done]. rewrite Hrow, Hcol.
  apply pfor_returns. intros i c Hi. unfold scan_row, chr.
  apply elem_of_seqZ in Hi.
  replace ((0 <=? i) && (i <=? 1114111)) with true
    by (symmetry; apply andb_true_iff; split; apply Z.leb_le; lia).
  apply pfor_returns. intros j c' _. unfold scan_neighbor.
  destruct (well_name i j) as [nm|]; simpl; [|done].
  destruct (wm !! nm) as [o|] eqn:Ho; [|done].
  destruct (is_positive c'); simpl; [|done].
  destruct (compare_wells_returns p r o cutoff) as [[] ->]; eauto.
Qed.

Lemma complete_cts_alter p (wm : plate) k c :
  complete_cts p wm -> complete_cts p (alter (set_call c) k wm).
Proof.
  intros Hc j r g Hj Hg. rewrite lookup_alter in Hj.
  case_decide; [|by eapply Hc].
  destruct (wm !! k) as [r0|] eqn:Hk; [|done]. injection Hj as <-. simpl. by eapply Hc.
Qed.

(** [check_square] returns on a plate all of whose wells hold the Cq values
    of the virus genes and have scannable identifiers *)
Lemma check_square_returns p radius cutoff flag order wm :
  complete_cts p wm -> (forall w, w ∈ order -> scannable_id radius w) ->
  (check_square p radius cutoff flag order wm).2 = Ok tt.
Proof.
  unfold check_square. revert wm. induction order as [|w order IH]; intros wm Hc Hs; [done|].
  simpl. unfold bind. rewrite visit_well_alter.
  rewrite (scan_at_returns p radius cutoff flag wm w Hc); [|apply Hs; by left].
  apply IH; [by apply complete_cts_alter|]. intros. apply Hs. by right.
Qed.

(** ** The order of the wells *)

Lemma same_outcome_refl a : same_outcome a a.
Proof. by split. Qed.

Lemma same_outcome_trans a b c : same_outcome a b -> same_outcome b c -> same_outcome a c.
Proof.
  intros [Hab Eab] [Hbc Ebc]. split; [by rewrite Hab|].
  intros Ha. rewrite (Eab Ha). apply Ebc. by apply Hab.
Qed.

(** C9.  For every plate, radius, cutoff and flag, [check_square] gives the
    same outcome on every iteration order of the plate's wells: it returns on
    all of them or raises on all of them, and when it returns, the final
    plates are the same.  It returns as soon as the wells hold the Cq values
    of the virus genes and have identifiers that can be scanned. *)
Theorem check_square_order_independent (p : Protocol) (radius : Z) (cutoff : float)
    (flag : Call) (order order' : list string) :
  Permutation order order' ->
  forall wm : plate,
    ((check_square p radius cutoff flag order wm).2 = Ok tt <->
     (check_square p radius cutoff flag order' wm).2 = Ok tt) /\
    ((check_square p radius cutoff flag order wm).2 = Ok tt ->
     (check_square p radius cutoff flag order wm).1
     = (check_square p radius cutoff flag order' wm).1) /\
    (complete_cts p wm -> (forall w, w ∈ order -> scannable_id radius w) ->
     (check_square p radius cutoff flag order wm).2 = Ok tt).
Proof.
  intros Hperm wm.
  assert (Hsame : same_outcome (check_square p radius cutoff flag order wm)
                               (check_square p radius cutoff flag order' wm)).
  { unfold check_square. revert wm.
    induction Hperm as [|x l l' _ IH|x y l|l1 l2 l3 _ IH1 _ IH2]; intros wm.
    - apply same_outcome_refl.
    - simpl. unfold bind.
      destruct (visit_well p radius cutoff flag x wm) as [wm' [[]|e]]; [apply IH|].
      apply same_outcome_refl.
    - destruct (decide (x = y)) as [->|Hxy]; [apply same_outcome_refl|].
      destruct (visit_well_commute p radius cutoff flag wm x y Hxy) as (Hy & Hx & Hst).
      simpl in *. unfold bind.
      destruct (visit_well p radius cutoff flag x wm) as [wx rx].
      destruct (visit_well p radius cutoff flag y wm) as [wy ry]. simpl in *.
      destruct (visit_well p radius cutoff flag y wx) as [wxy ry'].
      destruct (visit_well p radius cutoff flag x wy) as [wyx rx']. simpl in *. subst.
      destruct rx as [[]|ex], ry as [[]|ey]; simpl;
        first [apply same_outcome_refl | by split].
    - eapply same_outcome_trans; [apply IH1 | apply IH2]. }
  destruct Hsame as [Hiff Heq].
  split; [exact Hiff|]. split; [exact Heq|]. apply check_square_returns.
Qed.

Lemma check_square_order_independent_witness :
  (check_square SOP_V3 1 (F64.lit 150 1) POS_CLUSTER (cluster_test_plate.*1)
     (list_to_map cluster_test_plate)).2 = Ok tt /\
  (check_square SOP_V3 1 (F64.lit 150 1) POS_CLUSTER (cluster_test_plate.*1)
     (list_to_map cluster_test_plate)).1
  = (check_square SOP_V3 1 (F64.lit 150 1) POS_CLUSTER (reverse (cluster_test_plate.*1))
       (list_to_map cluster_test_plate)).1.
Proof.
  assert (Hok : (check_square SOP_V3 1 (F64.lit 150 1) POS_CLUSTER (cluster_test_plate.*1)
                   (list_to_map cluster_test_plate)).2 = Ok tt)
    by (vm_compute; reflexivity).
  split; [exact Hok|].
  refine (proj1 (proj2 (check_square_order_independent SOP_V3 1 (F64.lit 150 1)
                          POS_CLUSTER (cluster_test_plate.*1)
                          (reverse (cluster_test_plate.*1)) _
                          (list_to_map cluster_test_plate))) Hok).
  symmetry. apply reverse_Permutation.
Defined.

(** ** The calls of the neighbours are not read *)

Lemma differ_in_call_alter n c (wm : plate) : differ_in_call n wm (alter (set_call c) n wm).
Proof. split; [apply same_cts_alter|]. intros k Hk. by rewrite lookup_alter_ne. Qed.

Lemma scan_at_differ p radius cutoff flag n wm wm' w :
  differ_in_call n wm wm' -> w <> n ->
  scan_at p radius cutoff flag wm w = scan_at p radius cutoff flag wm' w.
Proof. intros [Hs Hk] Hw. apply scan_at_ext; [done|]. by rewrite Hk. Qed.

Lemma visit_well_differ p radius cutoff flag n wm wm' w :
  differ_in_call n wm wm' ->
  differ_in_call n (visit_well p radius cutoff flag w wm).1
                   (visit_well p radius cutoff flag w wm').1.
Proof.
  intros Hd. rewrite !visit_well_alter. simpl. destruct Hd as [Hs Hk]. split.
  - eapply same_cts_trans; [|apply same_cts_alter].
    eapply same_cts_trans; [|exact Hs].
    intros k. symmetry. apply same_cts_alter.
  - intros k Hkn. destruct (decide (w = k)) as [<-|Hne].
    + rewrite !lookup_alter_eq, (Hk w Hkn).
      by rewrite (scan_at_differ p radius cutoff flag n wm wm' w (conj Hs Hk) Hkn).
    + rewrite !lookup_alter_ne by done. by apply Hk.
Qed.

Lemma check_square_differ p radius cutoff flag n order :
  forall wm wm',
    differ_in_call n wm wm' ->
    (check_square p radius cutoff flag order wm).2 = Ok tt ->
    (check_square p radius cutoff flag order wm').2 = Ok tt ->
    differ_in_call n (check_square p radius cutoff flag order wm).1
                     (check_square p radius cutoff flag order wm').1.
Proof.
  unfold check_square. induction order as [|w order IH]; intros wm wm' Hd; simpl; [done|].
  unfold bind. pose proof (visit_well_differ p radius cutoff flag n wm wm' w Hd) as Hd'.
  destruct (visit_well p radius cutoff flag w wm) as [wm1 [[]|e1]]; simpl; [|done].
  destruct (visit_well p radius cutoff flag w wm') as [wm1' [[]|e1']]; simpl; [|done].
  by apply IH.
Qed.

(** C10.  In [check_square] the decision on a well depends on its own call
    and on Cq values only: on two plates that differ in the call of a well
    [n] only, the visit of any other well has the same outcome, and when
    [check_square] returns on both, as it does on plates that can be scanned,
    every well other than [n] ends with the same call.  So a Positive well is
    escalated because of a neighbour that is itself Negative, Invalid or
    Indeterminate, as under the per-gene comparison of SOP-V3 (and not under
    the mean comparison of SOP-V2). *)
Theorem neighbor_call_not_consulted (p : Protocol) (radius : Z) (cutoff : float)
    (flag : Call) (order : list string) (wm : plate) (n : string) (c : Call) :
  let wm' := alter (set_call c) n wm in
  (forall w, w <> n ->
     (visit_well p radius cutoff flag w wm).2 = (visit_well p radius cutoff flag w wm').2 /\
     call_of (visit_well p radius cutoff flag w wm).1 w
     = call_of (visit_well p radius cutoff flag w wm').1 w) /\
  ((check_square p radius cutoff flag order wm).2 = Ok tt ->
   (check_square p radius cutoff flag order wm').2 = Ok tt ->
   forall w, w <> n ->
     call_of (check_square p radius cutoff flag order wm).1 w
     = call_of (check_square p radius cutoff flag order wm').1 w) /\
  (complete_cts p wm -> (forall w, w ∈ order -> scannable_id radius w) ->
   (check_square p radius cutoff flag order wm).2 = Ok tt /\
   (check_square p radius cutoff flag order wm').2 = Ok tt /\
   forall w, w <> n ->
     call_of (check_square p radius cutoff flag order wm).1 w
     = call_of (check_square p radius cutoff flag order wm').1 w) /\
  (forall c', c' ∈ [NEG; INV; IND] ->
     call_of (flag_contamination SOP_V3 (beside c').*1 (list_to_map (beside c'))).1 "A1"
       = Some POS_CLUSTER /\
     call_of (flag_contamination SOP_V3 (beside c').*1 (list_to_map (beside c'))).1 "A2"
       = Some c' /\
     call_of (flag_contamination SOP_V2 (beside c').*1 (list_to_map (beside c'))).1 "A1"
       = Some POS).
Proof.
  intros wm'. pose proof (differ_in_call_alter n c wm) as Hd. fold wm' in Hd.
  assert (Hfinal : (check_square p radius cutoff flag order wm).2 = Ok tt ->
                   (check_square p radius cutoff flag order wm').2 = Ok tt ->
                   forall w, w <> n ->
                     call_of (check_square p radius cutoff flag order wm).1 w
                     = call_of (check_square p radius cutoff flag order wm').1 w).
  { intros H1 H2 w Hw.
    destruct (check_square_differ p radius cutoff flag n order wm wm' Hd H1 H2) as [_ Hk].
    unfold call_of. by rewrite (Hk w Hw). }
  split; [|split; [exact Hfinal|split]].
  - intros w Hw. rewrite !visit_well_alter. simpl.
    rewrite (scan_at_differ p radius cutoff flag n wm wm' w Hd Hw).
    split; [done|]. unfold call_of. rewrite !lookup_alter_eq.
    destruct Hd as [_ Hk]. by rewrite (Hk w Hw).
  - intros Hc Hs.
    pose proof (check_square_returns p radius cutoff flag order wm Hc Hs) as H1.
    pose proof (check_square_returns p radius cutoff flag order wm'
                  (complete_cts_alter p wm n c Hc) Hs) as H2.
    auto.
  - intros c' Hc'.
    repeat (apply elem_of_cons in Hc' as [-> | Hc']; [repeat split; vm_compute; reflexivity|]).
    by apply elem_of_nil in Hc'.
Qed.

Lemma neighbor_call_not_consulted_witness :
  call_of (check_square SOP_V3 1 (F64.lit 150 1) POS_CLUSTER ["A1"; "A2"]
             (list_to_map (beside IND))).1 "A1"
  = call_of (check_square SOP_V3 1 (F64.lit 150 1) POS_CLUSTER ["A1"; "A2"]
               (alter (set_call POS) "A2" (list_to_map (beside IND)))).1 "A1".
Proof.
  apply (proj1 (proj2 (neighbor_call_not_consulted SOP_V3 1 (F64.lit 150 1) POS_CLUSTER
                         ["A1"; "A2"] (list_to_map (beside IND)) "A2" POS)));
    [vm_compute; reflexivity | vm_compute; reflexivity | discriminate].
Defined.

(** ** The pass over a well, in closed form *)

Lemma any_test_ext {A} (test test' : A -> result bool) xs :
  (forall x, test x = test' x) -> any_test test xs = any_test test' xs.
Proof. intros H. induction xs as [|x xs IH]; simpl; [done|]. by rewrite H, IH. Qed.

(** [any_test] returns when every test returns, and true when one holds *)
Lemma any_test_Ok {A} (test : A -> result bool) xs b :
  any_test test xs = Ok b ->
  (forall x, x ∈ xs -> exists b', test x = Ok b') /\
  (b = true <-> exists x, x ∈ xs /\ test x = Ok true).
Proof.
  revert b. induction xs as [|x xs IH]; intros b; simpl.
  - intros [= <-]. split; [intros x Hx; by apply elem_of_nil in Hx|].
    split; [done|]. intros (x & Hx & _). by apply elem_of_nil in Hx.
  - destruct (test x) as [bx|e] eqn:Hx; simpl; [|done].
    destruct (any_test test xs) as [b'|e]; simpl; [|done]. intros [= <-].
    destruct (IH b' eq_refl) as [Hall Hex]. split.
    + intros y Hy. apply elem_of_cons in Hy as [-> | Hy]; eauto.
    + rewrite orb_true_iff, Hex. split.
      * intros [-> | (y & Hy & Hty)]; [exists x | exists y]; split; auto; by constructor.
      * intros (y & Hy & Hty). apply elem_of_cons in Hy as [-> | Hy]; [left; congruence | eauto].
Qed.

Lemma pfor_flags_on {A} flag (test : A -> result bool) body xs c :
  is_positive flag = true -> flags_on flag test body -> is_positive c = true ->
  match any_test test xs with
  | Ok b => pfor xs body c = (if b then flag else c, Ok tt)
  | Raise e => (pfor xs body c).2 = Raise e
  end.
Proof.
  intros Hflag Hbody. revert c. induction xs as [|x xs IH]; intros c Hc; simpl; [done|].
  specialize (Hbody x c Hc). destruct (test x) as [b|e]; simpl.
  - rewrite Hbody.
    assert (Hc1 : is_positive (if b then flag else c) = true) by by destruct b.
    specialize (IH _ Hc1). destruct (any_test test xs) as [b'|e]; simpl.
    + rewrite IH. by destruct b, b'.
    + exact IH.
  - destruct (body x c) as [c' [[]|e']]; simpl in *; congruence.
Qed.

Section fires_facts.

Variable p : Protocol.
Variables (radius : Z) (cutoff : float) (flag : Call).
Hypothesis flag_positive : is_positive flag = true.

Lemma scan_neighbor_fires wm results other_row :
  flags_on flag (neighbor_fires p cutoff wm results other_row)
    (scan_neighbor p cutoff flag wm results other_row).
Proof.
  intros j c Hc. unfold neighbor_fires, scan_neighbor.
  destruct (well_name other_row j ≫= (wm !!.)) as [o|]; [|done].
  rewrite Hc. simpl. by destruct (compare_wells p results o cutoff) as [[]|e].
Qed.

Lemma scan_row_fires wm results col :
  flags_on flag (row_fires p radius cutoff wm results col)
    (scan_row p radius cutoff flag wm results col).
Proof.
  intros i c Hc. unfold row_fires, scan_row.
  destruct (chr i) as [other_row|e]; simpl; [|done].
  by apply pfor_flags_on; [|apply scan_neighbor_fires|].
Qed.

(** The scan of a well is its [pass_call] *)
Lemma scan_well_pass_call wm well_id results :
  match pass_call p radius cutoff flag wm well_id results with
  | Ok c => scan_well p radius cutoff flag wm well_id results = (c, Ok tt)
  | Raise e => (scan_well p radius cutoff flag wm well_id results).2 = Raise e
  end.
Proof.
  unfold pass_call, scan_well, well_fires.
  destruct (is_positive (call results)) eqn:Hpos; simpl; [|done].
  destruct (ord (first_char well_id)) as [row|e]; simpl; [|done].
  destruct (py_int (but_first well_id)) as [col|e]; simpl; [|done].
  pose proof (pfor_flags_on flag (row_fires p radius cutoff wm results col)
                (scan_row p radius cutoff flag wm results col)
                (range (row - radius) (row + radius + 1)) (call results)
                flag_positive (scan_row_fires wm results col) Hpos) as H.
  by destruct (any_test _ _).
Qed.

Lemma scan_well_returns_pass_call wm well_id results :
  (scan_well p radius cutoff flag wm well_id results).2 = Ok tt ->
  pass_call p radius cutoff flag wm well_id results
  = Ok (scan_well p radius cutoff flag wm well_id results).1.
Proof.
  intros Hok. pose proof (scan_well_pass_call wm well_id results) as H.
  destruct (pass_call p radius cutoff flag wm well_id results) as [c|e].
  - by rewrite H.
  - congruence.
Qed.

End fires_facts.

Lemma well_fires_ext p radius cutoff wm wm' well_id r r' :
  same_cts wm wm' -> gene_cts r = gene_cts r' ->
  well_fires p radius cutoff wm well_id r = well_fires p radius cutoff wm' well_id r'.
Proof.
  intros Hs Hr. unfold well_fires.
  destruct (ord _) as [row|e]; simpl; [|done].
  destruct (py_int _) as [col|e]; simpl; [|done].
  apply any_test_ext. intros i. unfold row_fires.
  destruct (chr i) as [other_row|e]; simpl; [|done].
  apply any_test_ext. intros j. unfold neighbor_fires.
  destruct (well_name other_row j) as [nm|]; simpl; [|done].
  specialize (Hs nm). destruct (wm !! nm) as [o|], (wm' !! nm) as [o'|]; try done.
  injection Hs as Ho. by apply compare_wells_gene_cts.
Qed.

(** A well is flagged when a well of its square compares true with it *)
Lemma well_fires_in_square p radius cutoff wm well_id results b :
  well_fires p radius cutoff wm well_id results = Ok b ->
  (b = true <->
   exists o, in_square radius wm well_id o /\ compare_wells p results o cutoff = Ok true).
Proof.
  unfold well_fires, in_square.
  destruct (ord (first_char well_id)) as [row|e] eqn:Hrow; simpl; [|done].
  destruct (py_int (but_first well_id)) as [col|e] eqn:Hcol; simpl; [|done].
  intros Hany. apply any_test_Ok in Hany as [Hall ->]. split.
  - intros (i & Hi & Hrowf). unfold row_fires, chr in Hrowf.
    destruct ((0 <=? i) && (i <=? 1114111)); simpl in Hrowf; [|done].
    apply any_test_Ok in Hrowf as [_ Hex]. destruct (proj1 Hex eq_refl) as (j & Hj & Hn).
    unfold neighbor_fires in Hn.
    destruct (well_name i j) as [nm|] eqn:Hnm; simpl in Hn; [|done].
    destruct (wm !! nm) as [o|] eqn:Ho; [|done].
    apply elem_of_seqZ in Hi, Hj.
    exists o. split; [|done]. exists row, col, i, j, nm. repeat split; auto; lia.
  - intros (o & (row' & col' & i & j & nm & [= <-] & [= <-] & Hi & Hj & Hnm & Ho) & Hcmp).
    assert (Hin : i ∈ range (row - radius) (row + radius + 1))
      by (apply elem_of_seqZ; lia).
    exists i. split; [done|].
    destruct (Hall i Hin) as [bi Hbi]. rewrite Hbi. f_equal.
    unfold row_fires, chr in Hbi.
    destruct ((0 <=? i) && (i <=? 1114111)); simpl in Hbi; [|done].
    apply any_test_Ok in Hbi as [_ ->].
    exists j. split; [apply elem_of_seqZ; lia|].
    unfold neighbor_fires. rewrite Hnm. simpl. by rewrite Ho.
Qed.

(** ** A pass over a plate, in closed form *)

Lemma pass_call_flagged p radius cutoff flag wm well_id r :
  pass_call p radius cutoff flag wm well_id r
  = flagged_call flag (well_fires p radius cutoff wm well_id r) (call r).
Proof. reflexivity. Qed.

(** [check_square] on the distinct keys [order]: the scan of each well on the
    plate found at the start *)
Lemma check_square_scan_at p radius cutoff flag order :
  NoDup order ->
  forall wm : plate,
    ((check_square p radius cutoff flag order wm).2 = Ok tt <->
     forall w, w ∈ order -> (scan_at p radius cutoff flag wm w).2 = Ok tt) /\
    ((check_square p radius cutoff flag order wm).2 = Ok tt ->
     forall k, (check_square p radius cutoff flag order wm).1 !! k
               = if decide (k ∈ order)
                 then set_call (scan_at p radius cutoff flag wm k).1 <$> wm !! k
                 else wm !! k).
Proof.
  unfold check_square. induction 1 as [|w l Hw Hl IH]; intros wm; simpl.
  - split.
    + split; [|reflexivity]. intros ? k Hk. inversion Hk.
    + intros _ k. by destruct (decide (k ∈ [])) as [Hk|Hk]; [inversion Hk|].
  - unfold bind. rewrite visit_well_alter.
    set (c := (scan_at p radius cutoff flag wm w).1).
    destruct ((scan_at p radius cutoff flag wm w).2) as [[]|e] eqn:Hr; simpl.
    + destruct (IH (alter (set_call c) w wm)) as [Hiff Hfin].
      assert (Hext : forall k, k ∈ l ->
                scan_at p radius cutoff flag (alter (set_call c) w wm) k
                = scan_at p radius cutoff flag wm k).
      { intros k Hk. symmetry. apply scan_at_ext; [apply same_cts_alter|].
        rewrite lookup_alter_ne; [done|]. intros ->. done. }
      split.
      * rewrite Hiff. split.
        -- intros H k Hk. apply elem_of_cons in Hk as [-> | Hk]; [done|].
           rewrite <- Hext by done. by apply H.
        -- intros H k Hk. rewrite Hext by done. apply H. by right.
      * intros Hok k. rewrite (Hfin Hok k).
        destruct (decide (k ∈ l)) as [Hk|Hk].
        -- rewrite decide_True by (by right). rewrite Hext by done.
           rewrite lookup_alter_ne; [done|]. intros ->. done.
        -- destruct (decide (w = k)) as [<-|Hne].
           ++ rewrite decide_True by (by left). by rewrite lookup_alter_eq.
           ++ rewrite decide_False by (rewrite elem_of_cons; naive_solver).
              by rewrite lookup_alter_ne.
    + split; [|done]. split; [done|]. intros H. specialize (H w (list_elem_of_here _ _)).
      congruence.
Qed.

(** The same, for a positive flag, by the call of each well after the pass *)
Lemma check_square_pass_call p radius cutoff flag order (wm : plate) :
  is_positive flag = true -> NoDup order ->
  ((check_square p radius cutoff flag order wm).2 = Ok tt <->
   forall w r, w ∈ order -> wm !! w = Some r ->
     exists c, pass_call p radius cutoff flag wm w r = Ok c) /\
  ((check_square p radius cutoff flag order wm).2 = Ok tt ->
   forall k r, wm !! k = Some r ->
     (k ∈ order ->
      exists c, pass_call p radius cutoff flag wm k r = Ok c /\
                (check_square p radius cutoff flag order wm).1 !! k = Some (set_call c r)) /\
     (k ∉ order -> (check_square p radius cutoff flag order wm).1 !! k = Some r)).
Proof.
  intros Hflag Hnd.
  destruct (check_square_scan_at p radius cutoff flag order Hnd wm) as [Hiff Hfin].
  split.
  - rewrite Hiff. split.
    + intros H w r Hw Hr. specialize (H w Hw). unfold scan_at in H. rewrite Hr in H.
      rewrite (scan_well_returns_pass_call p radius cutoff flag Hflag wm w r H). eauto.
    + intros H w Hw. unfold scan_at. destruct (wm !! w) as [r|] eqn:Hr; [|done].
      destruct (H w r Hw Hr) as [c Hc].
      pose proof (scan_well_pass_call p radius cutoff flag Hflag wm w r) as Hs.
      rewrite Hc in Hs. by rewrite Hs.
  - intros Hok k r Hr. rewrite (Hfin Hok k). split.
    + intros Hk. rewrite decide_True by done. rewrite Hr. simpl.
      pose proof (proj1 Hiff Hok k Hk) as Hs. unfold scan_at in *. rewrite Hr in *.
      rewrite (scan_well_returns_pass_call p radius cutoff flag Hflag wm k r Hs). eauto.
    + intros Hk. by rewrite decide_False.
Qed.

Lemma escalation_same_cts flags wm wm' : escalation flags wm wm' -> same_cts wm wm'.
Proof.
  intros H k. specialize (H k). destruct (wm !! k) as [r|], (wm' !! k) as [r'|]; try done.
  destruct H as [-> _]. reflexivity.
Qed.

Lemma same_cts_sym wm wm' : same_cts wm wm' -> same_cts wm' wm.
Proof. intros H k. by rewrite H. Qed.

Lemma lookup_flag_plate flag fires order (wm : plate) k :
  flag_plate flag fires order wm !! k
  = (fun r => if decide (k ∈ order)
              then match flagged_call flag (fires k) (call r) with
                   | Ok c => set_call c r
                   | Raise _ => r
                   end
              else r) <$> wm !! k.
Proof. unfold flag_plate. rewrite map_lookup_imap. by destruct (wm !! k). Qed.

Lemma same_cts_flag_plate flag fires order wm : same_cts wm (flag_plate flag fires order wm).
Proof.
  intros k. rewrite lookup_flag_plate. destruct (wm !! k) as [r|]; [|done]. simpl.
  case_decide; [|done]. by destruct (flagged_call _ _ _).
Qed.

Lemma pass_call_fires_at p radius cutoff flag wm0 wm w r :
  same_cts wm0 wm -> wm !! w = Some r ->
  pass_call p radius cutoff flag wm w r
  = flagged_call flag (fires_at p radius cutoff wm0 w) (call r).
Proof.
  intros Hs Hr. rewrite pass_call_flagged. f_equal. unfold fires_at.
  specialize (Hs w) as Hw. rewrite Hr in Hw.
  destruct (wm0 !! w) as [r0|]; [|done]. injection Hw as Hw.
  apply well_fires_ext; [by apply same_cts_sym | done].
Qed.

(** A pass with a positive flag over distinct keys, on a plate that has the
    Cq values of [wm0] *)
Lemma check_square_flag_plate p radius cutoff flag order (wm0 wm : plate) :
  is_positive flag = true -> NoDup order -> same_cts wm0 wm ->
  ((check_square p radius cutoff flag order wm).2 = Ok tt <->
   forall w r, w ∈ order -> wm !! w = Some r ->
     exists c, flagged_call flag (fires_at p radius cutoff wm0 w) (call r) = Ok c) /\
  ((check_square p radius cutoff flag order wm).2 = Ok tt ->
   (check_square p radius cutoff flag order wm).1
   = flag_plate flag (fires_at p radius cutoff wm0) order wm).
Proof.
  intros Hflag Hnd Hs.
  destruct (check_square_pass_call p radius cutoff flag order wm Hflag Hnd) as [Hiff Hfin].
  split.
  - rewrite Hiff. split; intros H w r Hw Hr; specialize (H w r Hw Hr).
    + by rewrite <- (pass_call_fires_at p radius cutoff flag wm0 wm w r).
    + by rewrite (pass_call_fires_at p radius cutoff flag wm0 wm w r).
  - intros Hok. apply map_eq. intros k. rewrite lookup_flag_plate.
    destruct (wm !! k) as [r|] eqn:Hr.
    + destruct (Hfin Hok k r Hr) as [Hin Hout]. simpl. case_decide as Hk.
      * destruct (Hin Hk) as (c & Hc & ->).
        rewrite (pass_call_fires_at p radius cutoff flag wm0 wm k r Hs Hr) in Hc.
        by rewrite Hc.
      * by apply Hout.
    + pose proof (check_square_escalation p radius cutoff flag order wm k) as He.
      rewrite Hr in He. simpl.
      by destruct ((check_square p radius cutoff flag order wm).1 !! k).
Qed.

(** ** The calls after a pass and after [flag_contamination] *)

Lemma flagged_call_positive flag fires c c' :
  is_positive flag = true -> flagged_call flag fires c = Ok c' ->
  is_positive c' = is_positive c.
Proof.
  intros Hflag. unfold flagged_call. destruct (is_positive c) eqn:Hc.
  - destruct fires as [[]|e]; simpl; intros [= <-]; done.
  - by intros [= <-].
Qed.

Lemma flagged_call_again flag fires c c' :
  is_positive flag = true -> flagged_call flag fires c = Ok c' ->
  flagged_call flag fires c' = Ok c'.
Proof.
  intros Hflag H. pose proof (flagged_call_positive flag fires c c' Hflag H) as Hp.
  unfold flagged_call in *. rewrite Hp. destruct (is_positive c); [|done].
  destruct fires as [[]|e]; simpl in *; congruence.
Qed.

(** The two passes of SOP-V3, and the two passes again *)
Lemma flagged_call_hot_cluster fh fc c c1 c2 :
  flagged_call POS_HOTWELL fh c = Ok c1 -> flagged_call POS_CLUSTER fc c1 = Ok c2 ->
  exists c3, flagged_call POS_HOTWELL fh c2 = Ok c3 /\ flagged_call POS_CLUSTER fc c3 = Ok c2.
Proof.
  unfold flagged_call.
  destruct c, fh as [[]|?], fc as [[]|?]; simpl; intros H1 H2;
    try discriminate; injection H1 as <-; simpl in H2;
    try discriminate; injection H2 as <-; simpl; eauto.
Qed.

Lemma pair_eq {A B} (x : A * B) a b : x.1 = a -> x.2 = b -> x = (a, b).
Proof. destruct x. simpl. congruence. Qed.

(** X1.  A pass of [check_square] that returns, with a positive flag over the
    distinct keys of the plate, gives the flag to the wells of positive call
    that a well of their square exceeds by more than the cutoff, and leaves
    every other call as it was. *)
Theorem check_square_flags (p : Protocol) (radius : Z) (cutoff : float) (flag : Call)
    (order : list string) (wm : plate) :
  is_positive flag = true -> NoDup order ->
  (check_square p radius cutoff flag order wm).2 = Ok tt ->
  forall w r, wm !! w = Some r ->
    (w ∈ order /\ is_positive (call r) = true /\ exceeded p radius cutoff wm w r ->
     call_of (check_square p radius cutoff flag order wm).1 w = Some flag) /\
    (~ (w ∈ order /\ is_positive (call r) = true /\ exceeded p radius cutoff wm w r) ->
     call_of (check_square p radius cutoff flag order wm).1 w = Some (call r)).
Proof.
  intros Hflag Hnd Hok w r Hr.
  destruct (proj2 (check_square_pass_call p radius cutoff flag order wm Hflag Hnd) Hok w r Hr)
    as [Hin Hout].
  unfold call_of. destruct (decide (w ∈ order)) as [Hw|Hw].
  - destruct (Hin Hw) as (c & Hc & ->). simpl. unfold pass_call in Hc.
    destruct (is_positive (call r)) eqn:Hpos.
    + destruct (well_fires p radius cutoff wm w r) as [b|e] eqn:Hb; simpl in Hc; [|done].
      injection Hc as <-.
      pose proof (well_fires_in_square p radius cutoff wm w r b Hb) as Hex.
      fold (exceeded p radius cutoff wm w r) in Hex.
      destruct b; split; try done.
      * intros []. split; [done|]. split; [done|]. by apply Hex.
      * intros (_ & _ & He). apply Hex in He. done.
    + injection Hc as <-. split; [|done]. intros (_ & ? & _). done.
  - rewrite (Hout Hw). simpl. split; [|done]. intros (? & _). done.
Qed.

Lemma check_square_flags_witness :
  call_of (check_square SOP_V3 1 (F64.lit 150 1) POS_CLUSTER ["A1"; "A2"]
             (list_to_map (beside IND))).1 "A1" = Some POS_CLUSTER.
Proof.
  refine (proj1 (check_square_flags SOP_V3 1 (F64.lit 150 1) POS_CLUSTER ["A1"; "A2"]
                   (list_to_map (beside IND)) eq_refl _ _ "A1"
                   (well POS (Some 38) (Some 39) (Some 30)) _) _).
  - apply (bool_decide_unpack _). vm_compute. reflexivity.
  - vm_compute. reflexivity.
  - vm_compute. reflexivity.
  - split; [apply (bool_decide_unpack _); vm_compute; reflexivity|].
    split; [reflexivity|].
    exists (well IND None (Some 10) (Some 30)). split; [|vm_compute; reflexivity].
    exists 65, 1, 65, 2, "A2".
    repeat split; try (vm_compute; reflexivity); vm_compute; discriminate.
Defined.

(** A pass that has returned changes nothing when it is run again *)
Lemma check_square_again (p : Protocol) (radius : Z) (cutoff : float) (flag : Call)
    (order : list string) (wm : plate) :
  is_positive flag = true -> NoDup order ->
  (check_square p radius cutoff flag order wm).2 = Ok tt ->
  check_square p radius cutoff flag order (check_square p radius cutoff flag order wm).1
  = ((check_square p radius cutoff flag order wm).1, Ok tt).
Proof.
  intros Hflag Hnd Hok.
  destruct (check_square_flag_plate p radius cutoff flag order wm wm Hflag Hnd
              (same_cts_refl wm)) as [Hiff Hfin].
  rewrite (Hfin Hok). set (F := fires_at p radius cutoff wm).
  pose proof (same_cts_flag_plate flag F order wm) as Hs.
  destruct (check_square_flag_plate p radius cutoff flag order wm
              (flag_plate flag F order wm) Hflag Hnd Hs) as [Hiff1 Hfin1].
  assert (Hok1 : (check_square p radius cutoff flag order (flag_plate flag F order wm)).2
                 = Ok tt).
  { apply Hiff1. intros w r1 Hw Hr1. rewrite lookup_flag_plate in Hr1.
    destruct (wm !! w) as [r|] eqn:Hr; [|done]. simpl in Hr1.
    rewrite decide_True in Hr1 by done.
    destruct (proj1 Hiff Hok w r Hw Hr) as [c Hc]. fold F in Hc. rewrite Hc in Hr1.
    injection Hr1 as <-. simpl. exists c. by apply flagged_call_again with (call r). }
  apply pair_eq; [|done]. rewrite (Hfin1 Hok1). apply map_eq. intros k.
  rewrite !lookup_flag_plate. destruct (wm !! k) as [r|] eqn:Hr; [|done]. simpl.
  case_decide as Hk; [|done].
  destruct (proj1 Hiff Hok k r Hk Hr) as [c Hc]. fold F in Hc |- *. rewrite Hc. simpl.
  by rewrite (flagged_call_again flag (F k) (call r) c Hflag Hc).
Qed.

Lemma bind_Ok {A B} (m : M A) (f : A -> M B) (wm : plate) (b : B) :
  (bind m f wm).2 = Ok b ->
  exists a, (m wm).2 = Ok a /\ bind m f wm = f a (m wm).1.
Proof.
  unfold bind. destruct (m wm) as [wm' [a|e]]; simpl; [|done]. intros _. by exists a.
Qed.

Lemma bind_run {A B} (m : M A) (f : A -> M B) (wm : plate) (a : A) :
  (m wm).2 = Ok a -> bind m f wm = f a (m wm).1.
Proof. unfold bind. destruct (m wm) as [wm' [a'|e]]; simpl; congruence. Qed.

(** The two passes of SOP-V3, in closed form: both read the Cq values of the
    plate found at the start *)
Lemma V3_flag_contamination_flag_plate p x order (wm0 wm : plate) :
  NoDup order -> same_cts wm0 wm ->
  let FH := fires_at p (hot_well_radius x) (hot_well_cutoff x) wm0 in
  let FC := fires_at p (radius p) (pos_cluster_cutoff p) wm0 in
  ((V3Protocol_flag_contamination p x order wm).2 = Ok tt <->
   forall w r, w ∈ order -> wm !! w = Some r ->
     exists c1 c2, flagged_call POS_HOTWELL (FH w) (call r) = Ok c1 /\
                   flagged_call POS_CLUSTER (FC w) c1 = Ok c2) /\
  ((V3Protocol_flag_contamination p x order wm).2 = Ok tt ->
   (V3Protocol_flag_contamination p x order wm).1
   = flag_plate POS_CLUSTER FC order (flag_plate POS_HOTWELL FH order wm)).
Proof.
  intros Hnd Hs FH FC.
  destruct (check_square_flag_plate p (hot_well_radius x) (hot_well_cutoff x) POS_HOTWELL
              order wm0 wm eq_refl Hnd Hs) as [Hiff1 Hfin1]. fold FH in Hiff1, Hfin1.
  pose proof (same_cts_trans _ _ _ Hs (same_cts_flag_plate POS_HOTWELL FH order wm)) as Hs1.
  destruct (check_square_flag_plate p (radius p) (pos_cluster_cutoff p) POS_CLUSTER
              order wm0 (flag_plate POS_HOTWELL FH order wm) eq_refl Hnd Hs1) as [Hiff2 Hfin2].
  fold FC in Hiff2, Hfin2.
  assert (Hsplit : (V3Protocol_flag_contamination p x order wm).2 = Ok tt ->
     (check_square p (hot_well_radius x) (hot_well_cutoff x) POS_HOTWELL order wm).2 = Ok tt /\
     V3Protocol_flag_contamination p x order wm
     = check_square p (radius p) (pos_cluster_cutoff p) POS_CLUSTER order
         (flag_plate POS_HOTWELL FH order wm)).
  { intros Hok. unfold V3Protocol_flag_contamination in *.
    apply bind_Ok in Hok as ([] & H1 & ->). split; [done|]. by rewrite (Hfin1 H1). }
  split; [split|].
  - intros Hok. destruct (Hsplit Hok) as [H1 Heq]. rewrite Heq in Hok.
    intros w r Hw Hr. destruct (proj1 Hiff1 H1 w r Hw Hr) as [c1 Hc1]. exists c1.
    destruct (proj1 Hiff2 Hok w (set_call c1 r) Hw) as [c2 Hc2].
    { rewrite lookup_flag_plate, Hr. simpl. rewrite decide_True by done. by rewrite Hc1. }
    by exists c2.
  - intros H.
    assert (H1 : (check_square p (hot_well_radius x) (hot_well_cutoff x) POS_HOTWELL
                    order wm).2 = Ok tt).
    { apply Hiff1. intros w r Hw Hr. destruct (H w r Hw Hr) as (c1 & _ & Hc1 & _).
      by exists c1. }
    unfold V3Protocol_flag_contamination. rewrite (bind_run _ _ _ _ H1), (Hfin1 H1).
    apply Hiff2. intros w r1 Hw Hr1. rewrite lookup_flag_plate in Hr1.
    destruct (wm !! w) as [r|] eqn:Hr; [|done]. simpl in Hr1.
    rewrite decide_True in Hr1 by done.
    destruct (H w r Hw Hr) as (c1 & c2 & Hc1 & Hc2). rewrite Hc1 in Hr1.
    injection Hr1 as <-. by exists c2.
  - intros Hok. destruct (Hsplit Hok) as [H1 Heq]. rewrite Heq in Hok |- *. by apply Hfin2.
Qed.

Lemma fires_at_exceeded p radius cutoff (wm : plate) w r b :
  wm !! w = Some r -> fires_at p radius cutoff wm w = Ok b ->
  (b = true <-> exceeded p radius cutoff wm w r).
Proof.
  unfold fires_at. intros ->. apply well_fires_in_square.
Qed.

(** X2.  The labels of SOP-V3 after a run that returns: a positive well that a
    well of its cluster square exceeds is a cluster positive; otherwise, one
    that a well of its hot-well square exceeds is a hot-well positive; every
    other well keeps its call. *)
Theorem V3_flag_contamination_labels (p : Protocol) (x : V3Fields) (order : list string)
    (wm : plate) :
  v3 p = Some x -> NoDup order -> (flag_contamination p order wm).2 = Ok tt ->
  forall w r, wm !! w = Some r ->
    ((w ∈ order /\ is_positive (call r) = true) /\
     exceeded p (radius p) (pos_cluster_cutoff p) wm w r ->
     call_of (flag_contamination p order wm).1 w = Some POS_CLUSTER) /\
    ((w ∈ order /\ is_positive (call r) = true) /\
     ~ exceeded p (radius p) (pos_cluster_cutoff p) wm w r /\
     exceeded p (hot_well_radius x) (hot_well_cutoff x) wm w r ->
     call_of (flag_contamination p order wm).1 w = Some POS_HOTWELL) /\
    (~ ((w ∈ order /\ is_positive (call r) = true) /\
        (exceeded p (radius p) (pos_cluster_cutoff p) wm w r \/
         exceeded p (hot_well_radius x) (hot_well_cutoff x) wm w r)) ->
     call_of (flag_contamination p order wm).1 w = Some (call r)).
Proof.
  unfold flag_contamination. intros -> Hnd Hok w r Hr.
  set (near := exceeded p (radius p) (pos_cluster_cutoff p) wm w r).
  set (far := exceeded p (hot_well_radius x) (hot_well_cutoff x) wm w r).
  destruct (V3_flag_contamination_flag_plate p x order wm wm Hnd (same_cts_refl wm))
    as [Hiff Hfin].
  rewrite (Hfin Hok). unfold call_of. rewrite !lookup_flag_plate, Hr. simpl.
  destruct (decide (w ∈ order)) as [Hw|Hw].
  2: { split; [|split]; [intros [[] _]|intros [[] _]|]; done. }
  destruct (proj1 Hiff Hok w r Hw Hr) as (c1 & c2 & Hc1 & Hc2).
  rewrite Hc1. simpl. rewrite Hc2. simpl.
  unfold flagged_call in Hc1, Hc2.
  destruct (is_positive (call r)) eqn:Hpos.
  2: { injection Hc1 as <-. rewrite Hpos in Hc2. injection Hc2 as <-.
       split; [|split]; [intros [[] _]|intros [[] _]|]; done. }
  destruct (fires_at p (hot_well_radius x) (hot_well_cutoff x) wm w) as [bh|e] eqn:Hbh;
    simpl in Hc1; [|done].
  injection Hc1 as <-.
  pose proof (fires_at_exceeded _ _ _ _ _ _ _ Hr Hbh) as Hfar. fold far in Hfar.
  assert (Hp1 : is_positive (if bh then POS_HOTWELL else call r) = true) by by destruct bh.
  rewrite Hp1 in Hc2.
  destruct (fires_at p (radius p) (pos_cluster_cutoff p) wm w) as [bc|e] eqn:Hbc;
    simpl in Hc2; [|done].
  injection Hc2 as <-.
  pose proof (fires_at_exceeded _ _ _ _ _ _ _ Hr Hbc) as Hnear. fold near in Hnear.
  destruct bc, bh; (split; [|split]); try done.
  - intros (_ & Hn & _). destruct Hn. by apply Hnear.
  - intros H. destruct H. split; [done|]. left. by apply Hnear.
  - intros (_ & Hn & _). destruct Hn. by apply Hnear.
  - intros H. destruct H. split; [done|]. left. by apply Hnear.
  - intros (_ & Hn). apply Hnear in Hn. done.
  - intros H. destruct H. split; [done|]. right. by apply Hfar.
  - intros (_ & Hn). apply Hnear in Hn. done.
  - intros (_ & _ & Hf). apply Hfar in Hf. done.
Qed.

Lemma V3_flag_contamination_labels_witness :
  call_of (flag_contamination SOP_V3 ["A1"; "A2"] (list_to_map (beside IND))).1 "A1"
  = Some POS_CLUSTER.
Proof.
  refine (proj1 (V3_flag_contamination_labels SOP_V3
                   {| hot_well_radius := 3; hot_well_cutoff := F64.lit 220 1 |}
                   ["A1"; "A2"] (list_to_map (beside IND)) eq_refl _ _ "A1"
                   (well POS (Some 38) (Some 39) (Some 30)) _) _).
  - apply (bool_decide_unpack _). vm_compute. reflexivity.
  - vm_compute. reflexivity.
  - vm_compute. reflexivity.
  - split; [split; [apply (bool_decide_unpack _); vm_compute; reflexivity|reflexivity]|].
    exists (well IND None (Some 10) (Some 30)). split; [|vm_compute; reflexivity].
    exists 65, 1, 65, 2, "A2".
    repeat split; try (vm_compute; reflexivity); vm_compute; discriminate.
Defined.

(** X3.  Flagging a plate a second time changes nothing: a run of
    [flag_contamination] that returns is a fixed point of it. *)
Theorem flag_contamination_idempotent (p : Protocol) (order : list string) (wm : plate) :
  NoDup order -> (flag_contamination p order wm).2 = Ok tt ->
  flag_contamination p order (flag_contamination p order wm).1
  = ((flag_contamination p order wm).1, Ok tt).
Proof.
  unfold flag_contamination. destruct (v3 p) as [x|].
  2: { intros Hnd Hok. by apply check_square_again. }
  intros Hnd Hok.
  destruct (V3_flag_contamination_flag_plate p x order wm wm Hnd (same_cts_refl wm))
    as [Hiff Hfin].
  rewrite (Hfin Hok).
  set (FH := fires_at p (hot_well_radius x) (hot_well_cutoff x) wm) in *.
  set (FC := fires_at p (radius p) (pos_cluster_cutoff p) wm) in *.
  set (wm2 := flag_plate POS_CLUSTER FC order (flag_plate POS_HOTWELL FH order wm)).
  assert (Hs : same_cts wm wm2).
  { eapply same_cts_trans; apply same_cts_flag_plate. }
  destruct (V3_flag_contamination_flag_plate p x order wm wm2 Hnd Hs) as [Hiff2 Hfin2].
  fold FH FC in Hiff2, Hfin2.
  assert (Hlook : forall w r2, w ∈ order -> wm2 !! w = Some r2 ->
            exists r c1 c2 c3, wm !! w = Some r /\ r2 = set_call c2 r /\
              flagged_call POS_HOTWELL (FH w) (call r) = Ok c1 /\
              flagged_call POS_CLUSTER (FC w) c1 = Ok c2 /\
              flagged_call POS_HOTWELL (FH w) c2 = Ok c3 /\
              flagged_call POS_CLUSTER (FC w) c3 = Ok c2).
  { intros w r2 Hw Hr2. unfold wm2 in Hr2. rewrite !lookup_flag_plate in Hr2.
    destruct (wm !! w) as [r|] eqn:Hr; [|done]. simpl in Hr2.
    rewrite !decide_True in Hr2 by done.
    destruct (proj1 Hiff Hok w r Hw Hr) as (c1 & c2 & Hc1 & Hc2).
    rewrite Hc1 in Hr2. simpl in Hr2. rewrite Hc2 in Hr2. injection Hr2 as <-.
    destruct (flagged_call_hot_cluster _ _ _ _ _ Hc1 Hc2) as (c3 & Hc3 & Hc4).
    by exists r, c1, c2, c3. }
  assert (Hok2 : (V3Protocol_flag_contamination p x order wm2).2 = Ok tt).
  { apply Hiff2. intros w r2 Hw Hr2.
    destruct (Hlook w r2 Hw Hr2) as (r & c1 & c2 & c3 & _ & -> & _ & _ & Hc3 & Hc4).
    by exists c3, c2. }
  apply pair_eq; [|done]. rewrite (Hfin2 Hok2). apply map_eq. intros k.
  rewrite !lookup_flag_plate. destruct (wm2 !! k) as [r2|] eqn:Hr2; [|done]. simpl.
  case_decide as Hk; [|done].
  destruct (Hlook k r2 Hk Hr2) as (r & c1 & c2 & c3 & _ & -> & _ & _ & Hc3 & Hc4).
  simpl. rewrite Hc3. simpl. rewrite Hc4. done.
Qed.

Lemma flag_contamination_idempotent_witness :
  flag_contamination SOP_V3 cluster_test_plate.*1
    (flag_contamination SOP_V3 cluster_test_plate.*1 (list_to_map cluster_test_plate)).1
  = ((flag_contamination SOP_V3 cluster_test_plate.*1 (list_to_map cluster_test_plate)).1,
     Ok tt).
Proof.
  apply (flag_contamination_idempotent SOP_V3 cluster_test_plate.*1
           (list_to_map cluster_test_plate)).
  - apply (bool_decide_unpack _). vm_compute. reflexivity.
  - vm_compute. reflexivity.
Defined.

(** ** Two wells compared both ways *)

Module F64Sym.
Import F64.

Lemma binary_round_opp sx m e :
  binary_round prec emax (negb sx) m e = SFopp (binary_round prec emax sx m e).
Proof.
  unfold binary_round, binary_round_aux.
  destruct (shl_align m e _) as [mz ez].
  destruct (shr_fexp prec emax (Z.pos mz) ez loc_Exact) as [mrs' e'].
  destruct (shr_fexp prec emax _ e' loc_Exact) as [mrs'' e''].
  destruct (shr_m mrs''); simpl; [done| |done].
  by destruct (e'' <=? emax - prec).
Qed.

Lemma binary_normalize_opp m e :
  m <> 0 ->
  binary_normalize prec emax (- m) e false = SFopp (binary_normalize prec emax m e false).
Proof.
  destruct m as [|m|m]; [done| |]; intros _; simpl.
  - apply (binary_round_opp false).
  - apply (binary_round_opp true).
Qed.

(** Swapping the operands of a subtraction negates the difference, or leaves
    a zero *)
Lemma sub_swap x y :
  sub y x = SFopp (sub x y) \/
  exists s s', sub x y = S754_zero s /\ sub y x = S754_zero s'.
Proof.
  unfold sub. destruct x as [sx|sx| |sx mx ex], y as [sy|sy| |sy my ey];
    try (left; reflexivity);
    try (by destruct sx, sy; simpl; ((by left) || (right; eauto))).
  unfold SFsub. rewrite (Z.min_comm ey ex).
  set (a := cond_Zopp sx (Z.pos (shl_align mx ex (Z.min ex ey)).1)).
  set (b := cond_Zopp sy (Z.pos (shl_align my ey (Z.min ex ey)).1)).
  destruct (decide (a - b = 0)) as [H0|H0].
  - right. exists false, false. rewrite H0. replace (b - a) with 0 by lia. done.
  - left. replace (b - a) with (- (a - b)) by lia. by apply binary_normalize_opp.
Qed.

(** A difference above a cutoff that is not negative is not matched the
    other way round *)
Lemma sub_above_swap c x y :
  leb zero c = true -> ltb c (sub x y) = true -> ltb c (sub y x) = false.
Proof.
  intros Hc Hd. destruct (sub_swap x y) as [->|(s & s' & Hz & ->)].
  - destruct (sub x y) as [s|s| |s m e], c as [sc|sc| |sc mc ec]; try done;
      try (by destruct s); try (by destruct sc); by destruct s, sc.
  - rewrite Hz in Hd. destruct c as [sc|sc| |sc mc ec]; try done; by destruct sc.
Qed.

End F64Sym.

(** X4.  Under the base protocol two wells never flag each other: when a well
    exceeds another by more than a cutoff that is not negative, the other
    does not exceed it. *)
Theorem Protocol_compare_wells_asymmetric (p : Protocol) (a b : WellResults)
    (cutoff : float) :
  F64.leb F64.zero cutoff = true ->
  Protocol_compare_wells p a b cutoff = Ok true ->
  Protocol_compare_wells p b a cutoff = Ok false.
Proof.
  intros Hc. unfold Protocol_compare_wells.
  destruct (list_comprehension (get_ct a) (dict_keys (virus_genes p))) as [xs|e]; [|done].
  destruct (list_comprehension (get_ct b) (dict_keys (virus_genes p))) as [ys|e]; [|done].
  simpl. intros [= Hd]. f_equal. by apply F64Sym.sub_above_swap.
Qed.

Lemma Protocol_compare_wells_asymmetric_witness :
  Protocol_compare_wells SOP_V2 (well POS (Some 10) (Some 10) (Some 30))
    (well POS (Some 38) (Some 39) (Some 30)) (F64.lit 100 1) = Ok false.
Proof.
  apply (Protocol_compare_wells_asymmetric SOP_V2 (well POS (Some 38) (Some 39) (Some 30))
           (well POS (Some 10) (Some 10) (Some 30)) (F64.lit 100 1));
    vm_compute; reflexivity.
Defined.

Lemma V3_compare_loop_existsb a b cutoff gs xs ys :
  Forall2 (fun g x => gene_cts a !! g = Some x) gs xs ->
  Forall2 (fun g y => gene_cts b !! g = Some y) gs ys ->
  V3_compare_loop a b cutoff gs
  = Ok (existsb (fun xy => F64.ltb cutoff (F64.sub xy.1 xy.2)) (zip xs ys)).
Proof.
  intros Hx. revert ys. induction Hx as [|g x gs xs Hg Hx IH]; intros ys Hy.
  - by inversion Hy.
  - inversion Hy as [|g' y gs' ys' Hg' Hy']; subst. simpl. unfold get_ct.
    rewrite Hg, Hg'. simpl. destruct (F64.ltb cutoff (F64.sub x y)); [done|].
    by apply IH.
Qed.

(** X5.  The SOP-V3 comparison of two wells that hold a Cq value for every
    virus gene: true exactly when the first well exceeds the second by more
    than the cutoff for at least one gene.  A gene that is NaN in either well
    never counts. *)
Theorem V3_compare_wells_any (p : Protocol) (a b : WellResults) (cutoff : float)
    (xs ys : list float) :
  virus_cqs p a xs -> virus_cqs p b ys ->
  V3Protocol_compare_wells p a b cutoff
    = Ok (existsb (fun xy => F64.ltb cutoff (F64.sub xy.1 xy.2)) (zip xs ys)) /\
  (V3Protocol_compare_wells p a b cutoff = Ok true <->
   exists i x y, xs !! i = Some x /\ ys !! i = Some y /\
                 F64.is_nan x = false /\ F64.is_nan y = false /\
                 F64.ltb cutoff (F64.sub x y) = true).
Proof.
  intros Hx Hy. unfold V3Protocol_compare_wells.
  rewrite (V3_compare_loop_existsb a b cutoff _ xs ys Hx Hy). split; [done|].
  split.
  - intros [= Hex]. apply existsb_exists in Hex as ([x y] & Hin & Hlt). simpl in Hlt.
    apply list_elem_of_In, elem_of_lookup_zip_with in Hin
      as (i & x' & y' & [= <- <-] & Hxi & Hyi).
    exists i, x, y. repeat split; try done.
    + destruct x; try done. by rewrite F64Facts.sub_nan_l, F64Facts.ltb_nan_r in Hlt.
    + destruct y; try done. by rewrite F64Facts.sub_nan_r, F64Facts.ltb_nan_r in Hlt.
  - intros (i & x & y & Hxi & Hyi & _ & _ & Hlt). f_equal. apply existsb_exists.
    exists (x, y). split; [|done]. apply list_elem_of_In, elem_of_lookup_zip_with.
    by exists i, x, y.
Qed.

Lemma V3_compare_wells_any_witness :
  V3Protocol_compare_wells SOP_V3 (well POS (Some 38) (Some 39) (Some 30))
    (well IND None (Some 10) (Some 30)) (F64.lit 150 1) = Ok true.
Proof.
  apply (proj2 (V3_compare_wells_any SOP_V3 (well POS (Some 38) (Some 39) (Some 30))
                  (well IND None (Some 10) (Some 30)) (F64.lit 150 1)
                  [F64.of_Z 38; F64.of_Z 39] [F64.nan; F64.of_Z 10]
                  ltac:(repeat constructor) ltac:(repeat constructor))).
  exists 1%nat, (F64.of_Z 39), (F64.of_Z 10). repeat split; vm_compute; reflexivity.
Defined.

(** ** Calls, labels and the contamination flags *)

Lemma escalation_lookup flags (wm wm' : plate) w r :
  escalation flags wm wm' -> wm !! w = Some r ->
  exists r', wm' !! w = Some r' /\ r' = set_call (call r') r /\
             (call r' = call r \/ (is_positive (call r) = true /\ call r' ∈ flags)).
Proof.
  intros He Hr. specialize (He w). rewrite Hr in He.
  destruct (wm' !! w) as [r'|]; [|done]. by exists r'.
Qed.

(** X6.  What the contamination flags do to the report of a well, whether the
    run returns or raises: the accession, the Cq values, the control type and
    the short label of the call stay; a well that is not positive stays as it
    is; a call that changes reads "Pos*", asks for a rerun and is a possible
    cluster, and the well, if it is a sample, prints as "Pos*". *)
Theorem flag_contamination_report (p : Protocol) (order : list string) (wm : plate)
    (w : string) (r : WellResults) :
  wm !! w = Some r ->
  exists r', (flag_contamination p order wm).1 !! w = Some r' /\
    accession r' = accession r /\ gene_cts r' = gene_cts r /\
    control_type r' = control_type r /\
    short (call r') = short (call r) /\
    (is_positive (call r) = false -> r' = r) /\
    (call r' <> call r ->
     needs_review (call r') = "Pos*" /\ rerun (call r') = true /\
     possible_cluster (call r') = true /\
     (control_type r = None -> WellResults_str r' = "Pos*")).
Proof.
  intros Hr.
  destruct (escalation_lookup _ _ _ w r (flag_contamination_escalation p order wm) Hr)
    as (r' & Hr' & Heq & Hc).
  exists r'. split; [done|]. rewrite Heq. simpl. do 3 (split; [done|]).
  destruct Hc as [Hc | [Hpos Hin]].
  - rewrite Hc. split; [done|]. split; [|done]. intros _. apply set_call_same.
  - assert (Hf : call r' = POS_CLUSTER \/ call r' = POS_HOTWELL) by set_solver.
    split; [|split].
    + unfold short. rewrite Hpos. by destruct Hf as [-> | ->].
    + congruence.
    + intros _. unfold WellResults_str. rewrite Heq. simpl.
      destruct Hf as [-> | ->]; repeat split; try done; by intros ->.
Qed.

Lemma flag_contamination_report_witness :
  exists r',
    (flag_contamination SOP_V3 ["A1"; "A2"] (list_to_map (beside IND))).1 !! "A1" = Some r' /\
    short (call r') = "Pos".
Proof.
  destruct (flag_contamination_report SOP_V3 ["A1"; "A2"] (list_to_map (beside IND)) "A1"
              (well POS (Some 38) (Some 39) (Some 30)))
    as (r' & H1 & _ & _ & _ & H2 & _); [vm_compute; reflexivity|].
  exists r'. split; [exact H1|exact H2].
Defined.

Lemma controls_status_ext vs vs' :
  Forall2 (fun r r' => control_type r' = control_type r /\
                        (call r' = PASS <-> call r = PASS)) vs vs' ->
  controls_status vs' = controls_status vs.
Proof.
  intros H. unfold controls_status.
  assert (forallb (fun res => bool_decide (call res = PASS))
            (filter (fun res => control_type res <> None) vs')
          = forallb (fun res => bool_decide (call res = PASS))
              (filter (fun res => control_type res <> None) vs)) as ->; [|done].
  induction H as [|r r' vs vs' [Hct Hc] _ IH]; [done|].
  rewrite !filter_cons. rewrite Hct.
  destruct (decide (control_type r <> None)); [|done]. simpl. rewrite IH. f_equal.
  by apply bool_decide_ext.
Qed.

Lemma plate_values_escalation flags order (wm wm' : plate) :
  escalation flags wm wm' -> PASS ∉ flags ->
  Forall2 (fun r r' => control_type r' = control_type r /\
                        (call r' = PASS <-> call r = PASS))
    (plate_values order wm) (plate_values order wm').
Proof.
  intros He Hf. unfold plate_values. induction order as [|k ks IH]; [constructor|].
  simpl. specialize (He k).
  destruct (wm !! k) as [r|], (wm' !! k) as [r'|]; try done.
  constructor; [|done]. destruct He as [Heq Hc]. rewrite Heq. simpl. split; [done|].
  destruct Hc as [-> | [Hpos Hin]]; [done|].
  split; intros Hp; [|by rewrite Hp in Hpos]. by rewrite Hp in Hin.
Qed.

(** X7.  The controls status of a plate is the same before and after the
    contamination flags are set *)
Theorem controls_status_flag_contamination (p : Protocol) (order : list string)
    (wm : plate) :
  controls_status (plate_values order (flag_contamination p order wm).1)
  = controls_status (plate_values order wm).
Proof.
  apply controls_status_ext.
  apply (plate_values_escalation [POS_CLUSTER; POS_HOTWELL]);
    [apply flag_contamination_escalation | set_solver].
Qed.

(** ** Control names *)

Lemma prefix_app (a s : string) : String.prefix a (a +:+ s) = true.
Proof.
  induction a as [|c a IH]; simpl; [by destruct s|].
  destruct (Ascii.ascii_dec c c); [done|congruence].
Qed.

Lemma prefix_inv (a b : string) : String.prefix a b = true -> exists s, b = a +:+ s.
Proof.
  revert b. induction a as [|c a IH]; intros b; [intros _; by exists b|].
  destruct b as [|c' b]; [done|]. simpl.
  destruct (Ascii.ascii_dec c c') as [Hc|]; [|done].
  subst c'. intros H. destruct (IH b H) as [s ->]. by exists s.
Qed.

(** X8.  [parse_control] reads back the control type that an accession
    begins with: an accession made of the name of a control type and any
    suffix parses to that type, and an accession parses to a type only if it
    begins with its name. *)
Theorem parse_control_prefix :
  (forall c s, parse_control (ControlType_value c +:+ s) = Some c) /\
  (forall accession c,
     parse_control accession = Some c -> exists s, accession = ControlType_value c +:+ s) /\
  (forall accession,
     parse_control accession = None <->
     forall c s, accession <> ControlType_value c +:+ s).
Proof.
  split; [|split].
  - intros c s. destruct c, s; reflexivity.
  - intros accession c H. apply find_some in H as [_ H]. by apply prefix_inv.
  - intros accession. split.
    + intros H c s ->. unfold parse_control in H.
      pose proof (find_none _ _ H c) as Hn. cbv beta in Hn. rewrite prefix_app in Hn.
      assert (false = true); [|done]. symmetry. apply Hn. destruct c; simpl; tauto.
    + intros H. unfold parse_control.
      destruct (find _ _) as [c|] eqn:E; [|done].
      apply find_some in E as [_ E]. apply prefix_inv in E as [s ->]. by destruct (H c s).
Qed.

(** ** Errors of the classifier *)

(** X9.  When [call_ct_value] raises: a [TypeError] on a string that is not a
    "not detected" sentinel; on a detected value of a gene of the protocol, a
    [KeyError] when the role is not a key of the thresholds and the
    [ValueError] of the last branch when the cutoff is NaN.  It raises in no
    other case. *)
Theorem call_ct_value_raises (p : Protocol) (g : Gene) (v : PyVal) (well_type : WellType)
    (e : exn) :
  call_ct_value p g v well_type = Raise e <->
  (e = TypeError /\ ~ cq_value v) \/
  (detected v = true /\ cq_value v /\
   exists th, dict_get g (gene_cutoffs p) = Some th /\
     ((e = KeyError /\ exists tag, well_type = OtherObject tag) \/
      (e = ValueError /\ exists c, th_get th well_type = Ok (Some c) /\
                                   F64.is_nan c = true))).
Proof.
  unfold call_ct_value. destruct v as [x|s]; simpl.
  - destruct (F64.is_nan x) eqn:Hx; simpl.
    { split; [done|]. intros [[_ H] | [H _]]; [by destruct H | done]. }
    destruct (dict_get g (gene_cutoffs p)) as [th|]; simpl.
    2: { split; [done|]. intros [[_ H] | (_ & _ & th & H & _)]; [by destruct H | done]. }
    destruct (th_get th well_type) as [[c|]|e'] eqn:Hth; simpl.
    + destruct (F64.leb c x) eqn:Hle; [|destruct (F64.ltb x c) eqn:Hlt].
      * split; [done|].
        intros [[_ H] | (_ & _ & th' & [= <-] & [[_ [tag ->]] | (_ & c' & Hc' & Hn)])];
          [by destruct H | done |].
        rewrite Hth in Hc'. injection Hc' as <-. destruct c; try done.
      * split; [done|].
        intros [[_ H] | (_ & _ & th' & [= <-] & [[_ [tag ->]] | (_ & c' & Hc' & Hn)])];
          [by destruct H | done |].
        rewrite Hth in Hc'. injection Hc' as <-. destruct c; try done.
        by rewrite F64Facts.ltb_nan_r in Hlt.
      * split.
        -- intros [= <-]. right. do 2 (split; [done|]). exists th. split; [done|].
           right. split; [done|]. exists c. split; [done|].
           destruct (F64.is_nan c) eqn:Hc; [done|].
           rewrite (F64Facts.leb_or_ltb x c Hx Hc Hle) in Hlt. done.
        -- intros [[_ H] | (_ & _ & th' & [= <-] & [[_ [tag ->]] | (-> & _)])];
             [by destruct H | done | done].
    + split; [done|].
      intros [[_ H] | (_ & _ & th' & [= <-] & [[_ [tag ->]] | (_ & c' & Hc' & _)])];
        [by destruct H | done | congruence].
    + destruct well_type as [|[]|tag]; simpl in Hth; try done. injection Hth as <-. split.
      * intros [= <-]. right. do 2 (split; [done|]). exists th. split; [done|].
        left. split; [done|]. by exists tag.
      * intros [[_ H] | (_ & _ & th' & [= <-] & [[-> _] | (_ & c' & Hc' & _)])];
          [by destruct H | done | done].
  - destruct (decide (s = "NaN")) as [->|Hs1]; simpl.
    { split; [done|]. intros [[_ H] | [H _]]; [destruct H; by left | done]. }
    destruct (decide (s = "")) as [->|Hs2]; simpl.
    { split; [done|]. intros [[_ H] | [H _]]; [destruct H; by right | done]. }
    split.
    + intros [= <-]. left. split; [done|]. intros [? | ?]; done.
    + intros [[-> _] | (_ & [? | ?] & _)]; done.
Qed.

(** ** Genes outside the protocol *)

Lemma set_comprehension_insert cond l1 g v l2 b :
  cond g v = Ok b ->
  set_comprehension cond (l1 ++ (g, v) :: l2)
  = (s <~ set_comprehension cond (l1 ++ l2) ;; Ok (if b : bool then {[g]} ∪ s else s)).
Proof.
  intros Hc. induction l1 as [|[g0 v0] l1 IH]; simpl.
  - by rewrite Hc.
  - destruct (cond g0 v0) as [b0|e]; simpl; [|done]. rewrite IH.
    destruct (set_comprehension cond (l1 ++ l2)) as [s|e]; simpl; [|done].
    f_equal. destruct b, b0; try done. set_solver.
Qed.

(** X10.  A gene that is not in the cutoff table of the protocol is ignored:
    an item for such a gene, anywhere in the gene-to-Cq map, changes neither
    the call of a sample nor the status of a control, nor what they raise. *)
Theorem off_protocol_gene_ignored (p : Protocol) (g : Gene) (v : PyVal)
    (l1 l2 : list (Gene * PyVal)) :
  g ∉ key_set (gene_cutoffs p) -> cq_value v ->
  call_well p (l1 ++ (g, v) :: l2) = call_well p (l1 ++ l2) /\
  forall control_type,
    check_control p (l1 ++ (g, v) :: l2) control_type
    = check_control p (l1 ++ l2) control_type.
Proof.
  intros Hg Hv.
  assert (Hcall : forall well_type, call_ct_value p g v well_type = Ok false).
  { intros well_type. unfold call_ct_value. rewrite (isnan_cq_value v Hv). simpl.
    destruct (detected v); simpl; [|done].
    destruct (dict_get g (gene_cutoffs p)) eqn:E; [|done].
    destruct Hg. apply dict_get_Some_elem. rewrite E. eauto. }
  assert (Hcalled : forall well_type,
            called_genes p well_type (l1 ++ (g, v) :: l2)
            = called_genes p well_type (l1 ++ l2)).
  { intros well_type. unfold called_genes.
    rewrite (set_comprehension_insert _ l1 g v l2 false (Hcall well_type)).
    by destruct (set_comprehension _ (l1 ++ l2)). }
  split.
  - assert (Protocol_call_well p (l1 ++ (g, v) :: l2) = Protocol_call_well p (l1 ++ l2))
      as Hbase.
    { unfold Protocol_call_well, detected_genes. rewrite Hcalled.
      rewrite (set_comprehension_insert _ l1 g v l2 (detected v))
        by (by rewrite (isnan_cq_value v Hv); simpl; rewrite negb_involutive).
      destruct (set_comprehension _ (l1 ++ l2)) as [d|e]; simpl; [|done].
      destruct (called_genes p SAMPLE (l1 ++ l2)) as [s|e]; simpl; [|done].
      assert (Hnv : g ∉ key_set (virus_genes p)).
      { intros Hin. apply Hg. rewrite gene_cutoffs_keys. set_solver. }
      destruct (detected v); [|done].
      assert (({[g]} ∪ d) ∩ key_set (virus_genes p) = d ∩ key_set (virus_genes p)) as ->
        by set_solver.
      done. }
    unfold call_well, V3Protocol_call_well. by rewrite Hbase.
  - intros control_type. unfold check_control. by rewrite Hcalled.
Qed.

Lemma off_protocol_gene_ignored_witness :
  call_well SOP_V2 (("ORF1ab", VFloat (F64.lit 300 1)) :: cq_map None None (Some 354))
  = call_well SOP_V2 (cq_map None None (Some 354)).
Proof.
  apply (proj1 (off_protocol_gene_ignored SOP_V2 "ORF1ab" (VFloat (F64.lit 300 1)) []
                  (cq_map None None (Some 354))
                  ltac:(apply (bool_decide_unpack _); vm_compute; reflexivity) I)).
Defined.

(** ** The cutoff table *)

Section dict_lookup.
Context {V : Type}.
Implicit Types d : list (string * V).

Lemma dict_get_dict_set k k' v d :
  dict_get k (dict_set k' v d) = if decide (k = k') then Some v else dict_get k d.
Proof.
  induction d as [|[k0 v0] d IH]; simpl.
  - by destruct (decide (k = k')).
  - destruct (decide (k' = k0)) as [->|Hne]; simpl.
    + by destruct (decide (k = k0)).
    + destruct (decide (k = k0)) as [->|]; [by rewrite decide_False by done|].
      rewrite IH. done.
Qed.

Lemma dict_keys_dict_set k v d :
  dict_keys (dict_set k v d)
  = if decide (k ∈ dict_keys d) then dict_keys d else dict_keys d ++ [k].
Proof.
  unfold dict_keys. induction d as [|[k0 v0] d IH]; [done|].
  cbn [dict_set]. destruct (decide (k = k0)) as [->|Hne]; rewrite !fmap_cons.
  - rewrite decide_True; [done|]. by left.
  - rewrite IH. cbn [fst]. destruct (decide (k ∈ d.*1)).
    + rewrite decide_True; [done|]. by right.
    + rewrite decide_False; [done|]. rewrite not_elem_of_cons. done.
Qed.

(** A dictionary filled item by item holds, for each key, the last value
    given to it *)
Lemma dict_get_fold k (items d : list (string * V)) :
  dict_get k (fold_left (fun d kv => dict_set kv.1 kv.2 d) items d)
  = match dict_get k (reverse items) with
    | Some v => Some v
    | None => dict_get k d
    end.
Proof.
  revert d. induction items as [|[k0 v0] items IH] using rev_ind; intros d; [done|].
  rewrite fold_left_app, reverse_app. simpl. rewrite dict_get_dict_set.
  destruct (decide (k = k0)); [done|]. apply IH.
Qed.

Lemma dict_get_app k d1 d2 :
  dict_get k (d1 ++ d2)
  = match dict_get k d1 with Some v => Some v | None => dict_get k d2 end.
Proof.
  induction d1 as [|[k0 v0] d1 IH]; simpl; [done|]. by destruct (decide (k = k0)).
Qed.

Lemma dict_get_reverse k d : NoDup (dict_keys d) -> dict_get k (reverse d) = dict_get k d.
Proof.
  unfold dict_keys. induction d as [|[k0 v0] d IH]; [done|].
  rewrite fmap_cons, NoDup_cons. intros [Hk0 Hnd]. rewrite reverse_cons, dict_get_app.
  rewrite (IH Hnd). simpl. destruct (decide (k = k0)) as [->|].
  - apply (dict_get_None k0 d) in Hk0. by rewrite Hk0.
  - by destruct (dict_get k d).
Qed.

Lemma filter_ext_elem {A} (P Q : A -> Prop) `{!forall x, Decision (P x)}
    `{!forall x, Decision (Q x)} (l : list A) :
  (forall x, x ∈ l -> (P x <-> Q x)) -> filter P l = filter Q l.
Proof.
  induction l as [|x l IH]; intros Hext; [done|]. rewrite !filter_cons.
  rewrite IH by (intros y Hy; apply Hext; by right).
  destruct (decide (P x)) as [HP|HP], (decide (Q x)) as [HQ|HQ]; try done.
  - destruct HQ. apply Hext; [by left|done].
  - destruct HP. apply Hext; [by left|done].
Qed.

Lemma dict_keys_fold (items d : list (string * V)) :
  NoDup (dict_keys d) -> NoDup (dict_keys items) ->
  dict_keys (fold_left (fun d kv => dict_set kv.1 kv.2 d) items d)
  = dict_keys d ++ filter (fun k => k ∉ dict_keys d) (dict_keys items).
Proof.
  revert d. induction items as [|[k0 v0] items IH]; intros d Hd Hi; simpl.
  - by rewrite app_nil_r.
  - unfold dict_keys in Hi. rewrite fmap_cons, NoDup_cons in Hi. destruct Hi as [Hk0 Hi].
    assert (Hd' : NoDup (dict_keys (dict_set k0 v0 d))).
    { rewrite dict_keys_dict_set. destruct (decide (k0 ∈ dict_keys d)); [done|].
      apply NoDup_app. split; [done|]. split; [|apply NoDup_singleton].
      intros x Hx ->%list_elem_of_singleton. done. }
    rewrite (IH _ Hd' Hi). rewrite dict_keys_dict_set. unfold dict_keys at 5. simpl.
    rewrite filter_cons. destruct (decide (k0 ∈ dict_keys d)) as [Hin|Hin].
    + rewrite decide_False by (intros H; by apply H). done.
    + rewrite decide_True by done. rewrite <- app_assoc. simpl. f_equal. f_equal.
      apply filter_ext_elem. intros x Hx. rewrite not_elem_of_app.
      split; [by intros [? _]|]. intros Hxd. split; [done|].
      intros ->%list_elem_of_singleton. done.
Qed.

End dict_lookup.

Lemma filter_not_elem_of_nil (l : list string) :
  filter (fun k => k ∉ @nil string) l = l.
Proof.
  induction l as [|g gs IH]; [done|].
  rewrite filter_cons. rewrite decide_True by apply not_elem_of_nil. by rewrite IH.
Qed.

(** X11.  The cutoff table of a protocol: a gene of the control genes has the
    thresholds given there, also when it is a virus gene too; any other gene
    has the thresholds of the virus genes.  The gene list is the virus genes
    in their order, then the control genes that are not virus genes. *)
Theorem gene_cutoffs_lookup (p : Protocol) :
  NoDup (dict_keys (virus_genes p)) -> NoDup (dict_keys (control_genes p)) ->
  (forall g, dict_get g (gene_cutoffs p)
             = match dict_get g (control_genes p) with
               | Some th => Some th
               | None => dict_get g (virus_genes p)
               end) /\
  gene_list p
  = dict_keys (virus_genes p)
    ++ filter (fun g => g ∉ dict_keys (virus_genes p)) (dict_keys (control_genes p)) /\
  NoDup (gene_list p).
Proof.
  intros Hv Hc.
  assert (Hlist : gene_list p
            = dict_keys (virus_genes p)
              ++ filter (fun g => g ∉ dict_keys (virus_genes p))
                   (dict_keys (control_genes p))).
  { unfold gene_list, gene_cutoffs. rewrite fold_left_app.
    assert (Hk : dict_keys (fold_left (fun d gt => dict_set gt.1 gt.2 d) (virus_genes p) [])
                 = dict_keys (virus_genes p)).
    { rewrite dict_keys_fold; [|constructor|done]. simpl.
      apply filter_not_elem_of_nil. }
    rewrite dict_keys_fold; [|by rewrite Hk|done]. by rewrite Hk. }
  split; [|split].
  - intros g. unfold gene_cutoffs. rewrite dict_get_fold, reverse_app, dict_get_app.
    rewrite (dict_get_reverse g _ Hc), (dict_get_reverse g _ Hv). simpl.
    by destruct (dict_get g (control_genes p)), (dict_get g (virus_genes p)).
  - exact Hlist.
  - rewrite Hlist. apply NoDup_app. split; [done|]. split.
    + intros g Hg Hf. apply list_elem_of_filter in Hf as [Hf _]. done.
    + by apply NoDup_filter.
Qed.

Lemma gene_cutoffs_lookup_witness :
  NoDup (gene_list SOP_V2).
Proof.
  apply (gene_cutoffs_lookup SOP_V2);
    apply (bool_decide_unpack _); vm_compute; reflexivity.
Defined.

(** ** The registered protocols *)

Lemma call_well_total p values :
  cutoffs_not_nan p -> cq_values values ->
  exists c, call_well p values = Ok c /\
    (c = POS \/ c = NEG \/ c = INV \/
     (c = IND /\ v3 p = None) \/ (c = POS_REVIEW /\ v3 p <> None)).
Proof.
  intros Hp Hv.
  destruct (detected_genes_Ok values Hv) as (d & Hd & _).
  destruct (called_genes_Ok p SAMPLE values Hv Hp) as (s & Hs & _); [done|].
  unfold call_well, V3Protocol_call_well, Protocol_call_well. rewrite Hd, Hs. simpl.
  destruct (v3 p) as [x|]; repeat case_bool_decide; simpl; eexists; (split; [done|]);
    naive_solver.
Qed.

Lemma check_control_total p values ct :
  cutoffs_not_nan p -> cq_values values ->
  exists c, check_control p values (Control ct) = Ok c /\ (c = PASS \/ c = FAIL).
Proof.
  intros Hp Hv.
  destruct (called_genes_Ok p (Control ct) values Hv Hp) as (s & Hs & _); [done|].
  unfold check_control. rewrite Hs. simpl.
  destruct ct; case_bool_decide; eexists; (split; [done|]); auto.
Qed.

(** X12.  The protocol registry: each of the four names gives the protocol of
    that name, on which the classifier never raises: a map of floats and "not
    detected" sentinels gets a sample call (Indeterminate only before SOP-V3,
    Positive-needs-review only under SOP-V3) and, for each control type, Pass
    or Fail.  Any other name raises [ValueError]. *)
Theorem get_protocol_total (protocol_name : string) :
  (protocol_name ∈ ["SOP-V1"; "SOP-V2"; "UDGprotocol"; "SOP-V3"] ->
   exists p, get_protocol protocol_name = Ok p /\ name p = protocol_name /\
     forall values, cq_values values ->
       (exists c, call_well p values = Ok c /\
          (c = POS \/ c = NEG \/ c = INV \/
           (c = IND /\ protocol_name <> "SOP-V3") \/
           (c = POS_REVIEW /\ protocol_name = "SOP-V3"))) /\
       (forall ct, exists c,
          check_control p values (Control ct) = Ok c /\ (c = PASS \/ c = FAIL))) /\
  (protocol_name ∉ ["SOP-V1"; "SOP-V2"; "UDGprotocol"; "SOP-V3"] ->
   get_protocol protocol_name = Raise ValueError).
Proof.
  split.
  - intros Hn.
    assert (Hcases : protocol_name = "SOP-V1" \/ protocol_name = "SOP-V2" \/
                     protocol_name = "UDGprotocol" \/ protocol_name = "SOP-V3")
      by set_solver.
    assert (Hgen : forall p, get_protocol protocol_name = Ok p -> name p = protocol_name ->
              cutoffs_not_nan p -> (v3 p = None <-> protocol_name <> "SOP-V3") ->
              exists p, get_protocol protocol_name = Ok p /\ name p = protocol_name /\
                forall values, cq_values values ->
                  (exists c, call_well p values = Ok c /\
                     (c = POS \/ c = NEG \/ c = INV \/
                      (c = IND /\ protocol_name <> "SOP-V3") \/
                      (c = POS_REVIEW /\ protocol_name = "SOP-V3"))) /\
                  (forall ct, exists c,
                     check_control p values (Control ct) = Ok c /\ (c = PASS \/ c = FAIL))).
    { intros p Hget Hname Hp Hv3. exists p. do 2 (split; [done|]). intros values Hv. split.
      - destruct (call_well_total p values Hp Hv) as (c & Hc & Hr). exists c. split; [done|].
        destruct Hr as [?|[?|[?|[[? H]|[? H]]]]]; auto.
        + right. right. right. left. split; [done|]. by apply Hv3.
        + right. right. right. right. split; [done|].
          destruct (decide (protocol_name = "SOP-V3")); [done|]. destruct H. by apply Hv3.
      - intros ct. by apply check_control_total. }
    destruct Hcases as [-> | [-> | [-> | ->]]].
    + apply (Hgen SOP_V1); [done|done|by apply cutoffs_not_nan_check|done].
    + apply (Hgen SOP_V2); [done|done|by apply cutoffs_not_nan_check|done].
    + apply (Hgen UDGprotocol); [done|done|by apply cutoffs_not_nan_check|done].
    + apply (Hgen SOP_V3); [done|done|by apply cutoffs_not_nan_check|].
      split; [done|]. intros H. by destruct H.
  - intros Hn. unfold get_protocol.
    assert (Hne : forall s, s ∈ ["SOP-V1"; "SOP-V2"; "UDGprotocol"; "SOP-V3"] ->
                        protocol_name <> s) by (intros s Hs ->; done).
    rewrite !decide_False; [done| | | |]; apply Hne; simpl; set_solver.
Qed.

(** ** Dictionaries as lists of items *)

Section items_facts.
Context {K V : Type} `{EqDecision K}.
Implicit Types d : list (K * V).

Lemma item_get_None k d : item_get k d = None <-> k ∉ d.*1.
Proof.
  induction d as [|[k' v'] d IH]; simpl.
  - split; [intros _; apply not_elem_of_nil | done].
  - rewrite not_elem_of_cons. destruct (decide (k = k')); naive_solver.
Qed.

Lemma item_get_Some_in k v d : item_get k d = Some v -> (k, v) ∈ d.
Proof.
  induction d as [|[k' v'] d IH]; simpl; [done|].
  destruct (decide (k = k')) as [->|]; [intros [= ->]; by left | right; auto].
Qed.

Lemma item_get_in k v d : NoDup d.*1 -> (k, v) ∈ d -> item_get k d = Some v.
Proof.
  induction d as [|[k' v'] d IH]; [by intros _ ?%elem_of_nil|].
  rewrite fmap_cons, NoDup_cons. intros [Hk Hnd] Hin. simpl.
  apply elem_of_cons in Hin as [[= -> ->]|Hin]; [by rewrite decide_True|].
  rewrite decide_False; [by apply IH|]. intros ->. apply Hk.
  apply list_elem_of_fmap. by exists (k', v).
Qed.

Lemma item_get_item_set k k' v d :
  item_get k (item_set k' v d) = if decide (k = k') then Some v else item_get k d.
Proof.
  induction d as [|[k0 v0] d IH]; simpl.
  - by destruct (decide (k = k')).
  - destruct (decide (k' = k0)) as [->|Hne]; simpl.
    + by destruct (decide (k = k0)).
    + destruct (decide (k = k0)) as [->|]; [by rewrite decide_False by done|].
      rewrite IH. done.
Qed.

Lemma item_set_new k v d : k ∉ d.*1 -> item_set k v d = d ++ [(k, v)].
Proof.
  induction d as [|[k0 v0] d IH]; [done|].
  rewrite fmap_cons, not_elem_of_cons. intros [Hne Hk]. simpl.
  rewrite decide_False by done. by rewrite IH.
Qed.

Lemma item_set_last k v v' d : k ∉ d.*1 -> item_set k v (d ++ [(k, v')]) = d ++ [(k, v)].
Proof.
  induction d as [|[k0 v0] d IH]; [intros _; simpl; by rewrite decide_True|].
  rewrite fmap_cons, not_elem_of_cons. intros [Hne Hk]. simpl.
  rewrite decide_False by done. by rewrite IH.
Qed.

Lemma item_get_last k v d : k ∉ d.*1 -> item_get k (d ++ [(k, v)]) = Some v.
Proof.
  induction d as [|[k0 v0] d IH]; [intros _; simpl; by rewrite decide_True|].
  rewrite fmap_cons, not_elem_of_cons. intros [Hne Hk]. simpl.
  rewrite decide_False by done. by apply IH.
Qed.

Lemma keys_item_set k v d :
  (item_set k v d).*1 = if decide (k ∈ d.*1) then d.*1 else d.*1 ++ [k].
Proof.
  induction d as [|[k0 v0] d IH]; [done|].
  cbn [item_set]. destruct (decide (k = k0)) as [->|Hne]; rewrite !fmap_cons.
  - rewrite decide_True; [done|]. by left.
  - rewrite IH. cbn [fst]. destruct (decide (k ∈ d.*1)).
    + rewrite decide_True; [done|]. by right.
    + rewrite decide_False; [done|]. rewrite not_elem_of_cons. done.
Qed.

Lemma NoDup_item_set k v d : NoDup d.*1 -> NoDup (item_set k v d).*1.
Proof.
  intros Hd. rewrite keys_item_set. destruct (decide (k ∈ d.*1)); [done|].
  apply NoDup_app. split; [done|]. split; [|apply NoDup_singleton].
  intros x Hx ->%list_elem_of_singleton. done.
Qed.

Lemma dict_comprehension_NoDup (items : list (K * V)) : NoDup (dict_comprehension items).*1.
Proof.
  unfold dict_comprehension.
  assert (Hgen : forall d, NoDup d.*1 ->
            NoDup (fold_left (fun d kv => item_set kv.1 kv.2 d) items d).*1).
  { induction items as [|[k v] items IH]; intros d Hd; [done|].
    simpl. apply IH. by apply NoDup_item_set. }
  apply Hgen. constructor.
Qed.

End items_facts.

(** ** Loops that may raise *)

Lemma rfold_app {A S} (f : S -> A -> result S) l1 l2 s :
  rfold f (l1 ++ l2) s = (s' <~ rfold f l1 s ;; rfold f l2 s').
Proof.
  revert s. induction l1 as [|x l1 IH]; intros s; simpl; [done|].
  destruct (f s x) as [s'|e]; simpl; [apply IH | done].
Qed.

Lemma rfold_fmap {A B S} (f : S -> B -> result S) (h : A -> B) l s :
  rfold f (h <$> l) s = rfold (fun s x => f s (h x)) l s.
Proof.
  revert s. induction l as [|x l IH]; intros s; simpl; [done|].
  destruct (f s (h x)); simpl; [apply IH | done].
Qed.

Lemma rfold_ext {A S} (f g : S -> A -> result S) l s :
  (forall s x, x ∈ l -> f s x = g s x) -> rfold f l s = rfold g l s.
Proof.
  revert s. induction l as [|x l IH]; intros s Hfg; simpl; [done|].
  rewrite Hfg by left. destruct (g s x); simpl; [|done]. apply IH.
  intros. apply Hfg. by right.
Qed.

(** ** The 96-well view, well by well *)

Section map_wells.
Variable data : string -> Fluor -> option float.
Variable T : list (string * list (MappedWell * string)).
Hypothesis T_NoDup : NoDup T.*1.

Lemma fluor_loop_flat mapping well_id ks results :
  (forall k, k ∈ ks -> k ∈ mapping.*1) ->
  rfold (fun results fluor =>
      positions <~ getitem fluor mapping ;;
      rfold (fun results '(position, gene) =>
        targets <~ getitem well_id T ;;
        well <~ getitem position targets ;;
        cq <~ data_get data well fluor ;;
        Ok (default_set well_id gene cq results))
        positions results) ks results
  = rfold (fun results '(fluor, (position, gene)) =>
        targets <~ getitem well_id T ;;
        well <~ getitem position targets ;;
        cq <~ data_get data well fluor ;;
        Ok (default_set well_id gene cq results))
      (ks ≫= (fun fluor => pair fluor <$> default [] (item_get fluor mapping))) results.
Proof.
  revert results. induction ks as [|k ks IH]; intros results Hks; [done|].
  cbn [rfold mbind list_bind]. rewrite rfold_app, rfold_fmap.
  assert (Hk : k ∈ mapping.*1) by (apply Hks; by left).
  unfold getitem at 1. destruct (item_get k mapping) as [m|] eqn:Hm.
  2: { apply item_get_None in Hm. done. }
  simpl.
  lazymatch goal with
  | |- rbind ?a _ = rbind ?b _ => change b with a; destruct a as [s'|e]
  end; simpl; [|done].
  apply IH. intros. apply Hks. by right.
Qed.

Lemma default_set_new well_id gene cq (R : list (string * list (Gene * float))) :
  well_id ∉ R.*1 ->
  default_set well_id gene cq R = R ++ [(well_id, item_set gene cq [])].
Proof.
  intros Hw. unfold default_set.
  rewrite (proj2 (item_get_None well_id R) Hw). simpl. by apply item_set_new.
Qed.

Lemma default_set_last well_id gene cq (R : list (string * list (Gene * float))) vals :
  well_id ∉ R.*1 ->
  default_set well_id gene cq (R ++ [(well_id, vals)])
  = R ++ [(well_id, item_set gene cq vals)].
Proof.
  intros Hw. unfold default_set. rewrite (item_get_last well_id vals R Hw). simpl.
  by apply item_set_last.
Qed.

Lemma well_loop well_id targets flat R vals0 :
  item_get well_id T = Some targets -> well_id ∉ R.*1 ->
  rfold (fun results '(fluor, (position, gene)) =>
        targets <~ getitem well_id T ;;
        well <~ getitem position targets ;;
        cq <~ data_get data well fluor ;;
        Ok (default_set well_id gene cq results)) flat (R ++ [(well_id, vals0)])
  = (vals <~ rfold (fun values '(fluor, (position, gene)) =>
                 well <~ getitem position targets ;;
                 cq <~ data_get data well fluor ;;
                 Ok (item_set gene cq values)) flat vals0 ;;
     Ok (R ++ [(well_id, vals)])).
Proof.
  intros HT Hw. revert vals0.
  induction flat as [|[fluor [position gene]] flat IH]; intros vals0; [done|].
  cbn [rfold]. unfold getitem at 1. rewrite HT. cbn [rbind].
  destruct (getitem position targets) as [well|e]; [|done]. cbn [rbind].
  destruct (data_get data well fluor) as [cq|e]; [|done]. cbn [rbind].
  rewrite (default_set_last _ _ _ _ _ Hw). apply IH.
Qed.

Lemma well_loop_first well_id targets flat R :
  item_get well_id T = Some targets -> well_id ∉ R.*1 -> flat <> [] ->
  rfold (fun results '(fluor, (position, gene)) =>
        targets <~ getitem well_id T ;;
        well <~ getitem position targets ;;
        cq <~ data_get data well fluor ;;
        Ok (default_set well_id gene cq results)) flat R
  = (vals <~ well_values data targets flat ;; Ok (R ++ [(well_id, vals)])).
Proof.
  intros HT Hw Hflat. destruct flat as [|[fluor [position gene]] flat]; [done|].
  unfold well_values. cbn [rfold]. unfold getitem at 1. rewrite HT. cbn [rbind].
  destruct (getitem position targets) as [well|e]; [|done]. cbn [rbind].
  destruct (data_get data well fluor) as [cq|e]; [|done]. cbn [rbind].
  rewrite (default_set_new _ _ _ _ Hw). by apply well_loop.
Qed.

Lemma wells_loop mapping pre suf R :
  flat_mapping mapping <> [] -> T = pre ++ suf -> R.*1 = pre.*1 ->
  rfold (fun results well_id =>
    rfold (fun results fluor =>
      positions <~ getitem fluor mapping ;;
      rfold (fun results '(position, gene) =>
        targets <~ getitem well_id T ;;
        well <~ getitem position targets ;;
        cq <~ data_get data well fluor ;;
        Ok (default_set well_id gene cq results))
        positions results)
      mapping.*1 results) suf.*1 R
  = (rest <~ list_comprehension (fun '(well_id, targets) =>
               values <~ well_values data targets (flat_mapping mapping) ;;
               Ok (well_id, values)) suf ;;
     Ok (R ++ rest)).
Proof.
  intros Hflat. revert pre R. induction suf as [|[w targets] suf IH]; intros pre R HT HR.
  - simpl. by rewrite app_nil_r.
  - rewrite fmap_cons. cbn [rfold list_comprehension fst].
    rewrite fluor_loop_flat by done. fold (flat_mapping mapping).
    assert (Hnd : NoDup (pre.*1 ++ w :: suf.*1)).
    { rewrite HT, fmap_app, fmap_cons in T_NoDup. done. }
    apply NoDup_app in Hnd as (_ & Hw & _).
    rewrite (well_loop_first w targets _ R); [| |  |done].
    + destruct (well_values data targets (flat_mapping mapping)) as [vals|e]; [|done].
      cbn [rbind]. rewrite (IH (pre ++ [(w, targets)])).
      * destruct (list_comprehension _ suf) as [rest|e]; [|done]. cbn [rbind].
        by rewrite <- app_assoc.
      * by rewrite <- app_assoc.
      * by rewrite !fmap_app, HR.
    + apply item_get_in; [done|]. rewrite HT. apply elem_of_app. right. by left.
    + rewrite HR. intros Hin. apply (Hw w Hin). by left.
Qed.

Lemma wells_loop_empty (ws : list string) R :
  rfold (fun (results : list (string * list (Gene * float))) (well_id : string) =>
           Ok results) ws R = Ok R.
Proof. induction ws as [|w ws IH]; [done|]. simpl. done. Qed.

End map_wells.

Lemma list_comprehension_Ok_iff {A B} (f : A -> result B) l :
  (exists ys, list_comprehension f l = Ok ys) <-> forall x, x ∈ l -> exists y, f x = Ok y.
Proof.
  induction l as [|x l IH]; simpl.
  - split; [intros _ x Hx; by apply elem_of_nil in Hx | by eexists].
  - split.
    + intros [ys Hys] z Hz. destruct (f x) as [y|e] eqn:Hx; [|done]. simpl in Hys.
      destruct (list_comprehension f l) as [ys'|e] eqn:Hl; [|done].
      apply elem_of_cons in Hz as [->|Hz]; [by exists y|].
      apply (proj1 IH); [by eexists|done].
    + intros Hall. destruct (Hall x) as [y ->]; [by left|]. simpl.
      destruct (proj2 IH) as [ys ->]; [|by eexists].
      intros z Hz. apply Hall. by right.
Qed.

Lemma list_comprehension_lookup {A B} (f : A -> result B) l ys :
  list_comprehension f l = Ok ys -> Forall2 (fun x y => f x = Ok y) l ys.
Proof.
  revert ys. induction l as [|x l IH]; intros ys; simpl.
  - intros [= <-]. constructor.
  - destruct (f x) as [y|e] eqn:Hx; [|done]. simpl.
    destruct (list_comprehension f l) as [ys'|e]; [|done]. simpl. intros [= <-].
    constructor; [done|]. by apply IH.
Qed.

Lemma list_comprehension_raises {A B} (f : A -> result B) l e0 :
  (forall x e, f x = Raise e -> e = e0) ->
  forall e, list_comprehension f l = Raise e -> e = e0.
Proof.
  intros Hf. induction l as [|x l IH]; intros e; simpl; [done|].
  destruct (f x) as [y|e'] eqn:Hx; simpl; [|intros [= <-]; by eapply Hf].
  destruct (list_comprehension f l) as [ys'|e']; [done|]. simpl. intros [= <-]. by apply IH.
Qed.

(** The values of one well: every item of the mapping is read, and each
    gene holds the value read for it last *)
Lemma well_values_from (data : string -> Fluor -> option float)
    (targets : list (MappedWell * string)) (flat : list (Fluor * (MappedWell * Gene)))
    (vals0 values : list (Gene * float)) :
  rfold (fun values '(fluor, (position, gene)) =>
           well <~ getitem position targets ;;
           cq <~ data_get data well fluor ;;
           Ok (item_set gene cq values)) flat vals0 = Ok values ->
  (forall fluor position gene, (fluor, (position, gene)) ∈ flat ->
     exists well cq, item_get position targets = Some well /\ data well fluor = Some cq /\
                     is_Some (item_get gene values) /\
                     (NoDup ((fun x => x.2.2) <$> flat) -> item_get gene values = Some cq)) /\
  (forall g, g ∉ (fun x => x.2.2) <$> flat -> item_get g values = item_get g vals0).
Proof.
  revert vals0. induction flat as [|[fluor [position gene]] flat IH]; intros vals0.
  - intros [= <-]. split; [|done]. intros ? ? ? Hin. by apply elem_of_nil in Hin.
  - cbn [rfold]. unfold getitem, data_get.
    destruct (item_get position targets) as [well|] eqn:Hp; [|done]. cbn [rbind].
    destruct (data well fluor) as [cq|] eqn:Hd; [|done]. cbn [rbind].
    intros Hrest. destruct (IH _ Hrest) as [Hitems Hother]. split.
    + intros fluor' position' gene' Hin.
      apply elem_of_cons in Hin as [[= -> -> ->]|Hin].
      * exists well, cq. do 2 (split; [done|]).
        destruct (decide (gene ∈ (fun x => x.2.2) <$> flat)) as [Hg|Hg].
        -- split.
           ++ apply list_elem_of_fmap in Hg as ([f' [p' g']] & -> & Hin').
              destruct (Hitems f' p' g' Hin') as (? & ? & _ & _ & Hs & _). done.
           ++ rewrite fmap_cons, NoDup_cons. intros [Hng _]. done.
        -- rewrite (Hother gene Hg), item_get_item_set, decide_True by done.
           split; [by eexists|done].
      * destruct (Hitems fluor' position' gene' Hin) as (w & c & ? & ? & ? & Hnd).
        exists w, c. do 3 (split; [done|]). rewrite fmap_cons, NoDup_cons.
        intros [_ ?]. by apply Hnd.
    + intros g. rewrite fmap_cons, not_elem_of_cons. simpl. intros [Hne Hg].
      rewrite (Hother g Hg), item_get_item_set. by rewrite decide_False.
Qed.

Lemma well_values_returns (data : string -> Fluor -> option float)
    (targets : list (MappedWell * string)) (flat : list (Fluor * (MappedWell * Gene)))
    (vals0 : list (Gene * float)) :
  (forall fluor position gene, (fluor, (position, gene)) ∈ flat ->
     exists well cq, item_get position targets = Some well /\ data well fluor = Some cq) ->
  exists values,
    rfold (fun values '(fluor, (position, gene)) =>
             well <~ getitem position targets ;;
             cq <~ data_get data well fluor ;;
             Ok (item_set gene cq values)) flat vals0 = Ok values.
Proof.
  revert vals0. induction flat as [|[fluor [position gene]] flat IH]; intros vals0 Hall.
  - by eexists.
  - cbn [rfold]. unfold getitem, data_get.
    destruct (Hall fluor position gene) as (well & cq & -> & Hd); [by left|]. cbn [rbind].
    rewrite Hd. cbn [rbind]. apply IH. intros f p g Hin. apply (Hall f p g). by right.
Qed.

Lemma well_values_raises (data : string -> Fluor -> option float)
    (targets : list (MappedWell * string)) (flat : list (Fluor * (MappedWell * Gene)))
    (vals0 : list (Gene * float)) e :
  rfold (fun values '(fluor, (position, gene)) =>
           well <~ getitem position targets ;;
           cq <~ data_get data well fluor ;;
           Ok (item_set gene cq values)) flat vals0 = Raise e -> e = KeyError.
Proof.
  revert vals0. induction flat as [|[fluor [position gene]] flat IH]; intros vals0; [done|].
  cbn [rfold]. unfold getitem, data_get.
  destruct (item_get position targets) as [well|]; [|by intros [= <-]]. cbn [rbind].
  destruct (data well fluor) as [cq|]; [|by intros [= <-]]. cbn [rbind]. apply IH.
Qed.

(** The 96-well view is computed well by well, in the order of the plate *)
Lemma map_384_to_96_closed data mapping :
  map_384_to_96 data mapping
  = match flat_mapping mapping with
    | [] => Ok []
    | _ :: _ =>
        list_comprehension (fun '(well_id, targets) =>
          values <~ well_values data targets (flat_mapping mapping) ;;
          Ok (well_id, values)) MAP_96_TO_384_PADDED
    end.
Proof.
  unfold map_384_to_96.
  assert (Hnd : NoDup MAP_96_TO_384_PADDED.*1) by apply dict_comprehension_NoDup.
  destruct (flat_mapping mapping) as [|x flat] eqn:Hflat.
  - erewrite rfold_ext; [apply wells_loop_empty|].
    intros results well_id _. rewrite fluor_loop_flat by done.
    fold (flat_mapping mapping). by rewrite Hflat.
  - rewrite (wells_loop data _ Hnd mapping [] MAP_96_TO_384_PADDED []); [| |done|done].
    + rewrite Hflat. by destruct (list_comprehension _ _).
    + by rewrite Hflat.
Qed.

Lemma MAP_96_TO_384_PADDED_positions well_id targets position :
  (well_id, targets) ∈ MAP_96_TO_384_PADDED -> is_Some (item_get position targets).
Proof.
  intros Hin.
  assert (Hpos : In position LAYOUT_MAP) by (destruct position; cbn; tauto).
  assert (Hall : forallb (fun wt : string * list (MappedWell * string) =>
                   forallb (fun pos => bool_decide (is_Some (item_get pos wt.2))) LAYOUT_MAP)
                   MAP_96_TO_384_PADDED = true) by (vm_compute; reflexivity).
  rewrite forallb_forall in Hall. apply list_elem_of_In in Hin.
  specialize (Hall _ Hin). cbv beta in Hall. rewrite forallb_forall in Hall.
  apply (bool_decide_eq_true_1 _). by apply (Hall position).
Qed.

Lemma map_384_to_96_Forall2 data mapping res :
  map_384_to_96 data mapping = Ok res -> flat_mapping mapping <> [] ->
  Forall2 (fun (wt : string * list (MappedWell * string)) wv =>
             wv.1 = wt.1 /\ well_values data wt.2 (flat_mapping mapping) = Ok wv.2)
    MAP_96_TO_384_PADDED res.
Proof.
  rewrite map_384_to_96_closed. destruct (flat_mapping mapping) as [|x flat] eqn:Hflat; [done|].
  intros Hres _. apply list_comprehension_lookup in Hres.
  eapply Forall2_impl; [exact Hres|]. intros [w targets] [w' values]. simpl.
  destruct (well_values data targets (x :: flat)); [|done]. simpl. by intros [= <- <-].
Qed.

Lemma map_384_to_96_items (data : string -> Fluor -> option float)
    (mapping : list (Fluor * list (MappedWell * Gene)))
    (res : list (string * list (Gene * float))) :
  map_384_to_96 data mapping = Ok res -> flat_mapping mapping <> [] ->
  res.*1 = MAP_96_TO_384_PADDED.*1 /\
  forall well_id targets, (well_id, targets) ∈ MAP_96_TO_384_PADDED ->
    exists values, item_get well_id res = Some values /\
      (forall g, g ∉ mapped_genes mapping -> item_get g values = None) /\
      forall fluor position gene, (fluor, (position, gene)) ∈ flat_mapping mapping ->
        exists well cq,
          item_get position targets = Some well /\ data well fluor = Some cq /\
          is_Some (item_get gene values) /\
          (NoDup (mapped_genes mapping) -> item_get gene values = Some cq).
Proof.
  intros Hres Hflat. pose proof (map_384_to_96_Forall2 _ _ _ Hres Hflat) as HF.
  assert (Hkeys : res.*1 = MAP_96_TO_384_PADDED.*1).
  { clear Hres. induction HF as [|wt wv T r [Hk _] _ IH]; [done|].
    rewrite !fmap_cons. by rewrite Hk, IH. }
  split; [done|]. intros well_id targets Hin.
  apply list_elem_of_lookup in Hin as [i Hi].
  destruct (Forall2_lookup_l _ _ _ _ _ HF Hi) as ([w values] & Hri & Hw & Hvals).
  simpl in Hw, Hvals. subst w. exists values. split.
  { apply item_get_in; [rewrite Hkeys; apply dict_comprehension_NoDup|].
    by eapply list_elem_of_lookup_2. }
  destruct (well_values_from _ _ _ _ _ Hvals) as [Hitems Hother]. split.
  - intros g Hg. by rewrite (Hother g Hg).
  - apply Hitems.
Qed.

Lemma map_384_to_96_outcome (data : string -> Fluor -> option float)
    (mapping : list (Fluor * list (MappedWell * Gene))) :
  ((exists res, map_384_to_96 data mapping = Ok res) <-> covers data mapping) /\
  (forall e, map_384_to_96 data mapping = Raise e -> e = KeyError) /\
  (flat_mapping mapping = [] -> map_384_to_96 data mapping = Ok []).
Proof.
  split; [|split].
  - split.
    + intros [res Hres] well_id targets fluor position gene well Hin Hf Hp.
      assert (Hflat : flat_mapping mapping <> []) by (intros H; rewrite H in Hf; inversion Hf).
      destruct (map_384_to_96_items _ _ _ Hres Hflat) as [_ Hl].
      destruct (Hl well_id targets Hin) as (values & _ & _ & Hitems).
      destruct (Hitems fluor position gene Hf) as (well' & cq & Hp' & Hd & _).
      rewrite Hp in Hp'. injection Hp' as <-. by exists cq.
    + intros Hc. rewrite map_384_to_96_closed.
      destruct (flat_mapping mapping) as [|x flat] eqn:Hflat; [by eexists|].
      apply list_comprehension_Ok_iff. intros [well_id targets] Hin.
      destruct (well_values_returns data targets (x :: flat) []) as [values Hv].
      { intros fluor position gene Hf.
        destruct (MAP_96_TO_384_PADDED_positions well_id targets position Hin) as [well Hp].
        destruct (Hc well_id targets fluor position gene well Hin) as [cq Hd];
          [by rewrite Hflat|done|]. by exists well, cq. }
      unfold well_values. rewrite Hv. by eexists.
  - intros e. rewrite map_384_to_96_closed.
    destruct (flat_mapping mapping) as [|x flat]; [done|].
    apply list_comprehension_raises. intros [well_id targets] e'.
    destruct (well_values data targets (x :: flat)) as [v|e''] eqn:Hv; [done|].
    simpl. intros [= <-]. by eapply well_values_raises.
  - intros Hflat. by rewrite map_384_to_96_closed, Hflat.
Qed.

(** X13.  What [map_384_to_96] returns for a mapping with at least one
    position: the 96 wells in the order of the plate, each with the genes of
    the mapping and no other; the value of a gene is the Cq value that the
    data hold for its fluorophore in the well of the 384-well plate at its
    position. *)
Theorem map_384_to_96_lookup (data : string -> Fluor -> option float)
    (mapping : list (Fluor * list (MappedWell * Gene)))
    (res : list (string * list (Gene * float))) :
  map_384_to_96 data mapping = Ok res -> flat_mapping mapping <> [] ->
  res.*1 = MAP_96_TO_384_PADDED.*1 /\
  forall well_id targets, (well_id, targets) ∈ MAP_96_TO_384_PADDED ->
    exists values, item_get well_id res = Some values /\
      (forall g, g ∉ mapped_genes mapping -> item_get g values = None) /\
      forall fluor position gene, (fluor, (position, gene)) ∈ flat_mapping mapping ->
        exists well cq,
          item_get position targets = Some well /\ data well fluor = Some cq /\
          is_Some (item_get gene values) /\
          (NoDup (mapped_genes mapping) -> item_get gene values = Some cq).
Proof. exact (map_384_to_96_items data mapping res). Qed.

Lemma map_384_to_96_lookup_witness :
  exists res,
    map_384_to_96 (fun _ _ => Some (F64.of_Z 30)) (mapping SOP_V2) = Ok res /\
    res.*1 = MAP_96_TO_384_PADDED.*1.
Proof.
  destruct (map_384_to_96 (fun _ _ => Some (F64.of_Z 30)) (mapping SOP_V2))
    as [res|e] eqn:Hres; [|vm_compute in Hres; discriminate].
  exists res. split; [reflexivity|].
  apply (map_384_to_96_lookup (fun _ _ => Some (F64.of_Z 30)) (mapping SOP_V2) res Hres).
  vm_compute. discriminate.
Defined.

(** X14.  [map_384_to_96] returns exactly when the data hold a Cq value
    wherever the mapping reads one; otherwise it raises [KeyError].  A
    mapping without any position gives no well at all. *)
Theorem map_384_to_96_returns (data : string -> Fluor -> option float)
    (mapping : list (Fluor * list (MappedWell * Gene))) :
  ((exists res, map_384_to_96 data mapping = Ok res) <-> covers data mapping) /\
  (forall e, map_384_to_96 data mapping = Raise e -> e = KeyError) /\
  (flat_mapping mapping = [] -> map_384_to_96 data mapping = Ok []).
Proof. exact (map_384_to_96_outcome data mapping). Qed.

(** X15.  The layout of a 96-well plate on a 384-well plate: the well of row
    [i] and column [j + 1] takes the two-by-two block of rows [2i], [2i + 1]
    and columns [2j + 1], [2j + 2], column numbers padded to two digits; the
    96 wells come row by row, and the 384 wells they take are all different. *)
Theorem MAP_96_TO_384_PADDED_layout :
  (forall i j : nat, (i < 8)%nat -> (j < 12)%nat ->
     item_get (letter i +:+ pretty (Z.of_nat j + 1)) MAP_96_TO_384_PADDED
     = Some [(MW_A1, letter (2 * i) +:+ pad2 (2 * Z.of_nat j + 1));
             (MW_A2, letter (2 * i) +:+ pad2 (2 * Z.of_nat j + 2));
             (MW_B1, letter (2 * i + 1) +:+ pad2 (2 * Z.of_nat j + 1));
             (MW_B2, letter (2 * i + 1) +:+ pad2 (2 * Z.of_nat j + 2))]) /\
  MAP_96_TO_384_PADDED.*1
  = (fun ij => letter ij.1 +:+ pretty (Z.of_nat ij.2 + 1)) <$> list_prod (seq 0 8) (seq 0 12) /\
  NoDup (MAP_96_TO_384_PADDED ≫= (fun wt => wt.2.*2)) /\
  length (MAP_96_TO_384_PADDED ≫= (fun wt => wt.2.*2)) = 384%nat.
Proof.
  split; [|split; [|split]].
  - intros i j Hi Hj.
    do 8 (destruct i as [|i]; [do 12 (destruct j as [|j]; [vm_compute; reflexivity|]); lia|]).
    lia.
  - vm_compute. reflexivity.
  - apply (bool_decide_unpack _). vm_compute. reflexivity.
  - vm_compute. reflexivity.
Qed.

(** ** From the data to the flagged plate *)

Lemma check_control_range p values control_type c :
  check_control p values control_type = Ok c -> c = PASS \/ c = FAIL.
Proof.
  unfold check_control. destruct (called_genes p control_type values); simpl; [|done].
  destruct control_type as [|[]|]; try done; case_bool_decide; intros [= <-]; auto.
Qed.

Lemma call_well_range p values c :
  call_well p values = Ok c -> c ∈ [POS; POS_REVIEW; IND; NEG; INV].
Proof.
  unfold call_well, V3Protocol_call_well.
  destruct (Protocol_call_well p values) as [c0|e] eqn:Hc.
  - apply Protocol_call_well_range in Hc.
    destruct (v3 p); simpl; [case_decide|]; intros [= <-]; set_solver.
  - by destruct (v3 p).
Qed.

Lemma cq_values_floats (values : list (Gene * float)) :
  cq_values (prod_map id VFloat <$> values).
Proof.
  intros g v Hin. apply list_elem_of_fmap in Hin as ([g' x] & [= -> ->] & _). done.
Qed.

(** The loop of [local_processing], well by well *)
Lemma local_processing_loop p (control_wells : gmap string ControlType)
    (pre suf : list (string * list (Gene * float))) (R : list (string * WellResults)) :
  NoDup (pre ++ suf).*1 -> R.*1 = pre.*1 ->
  rfold (fun results '(well, values) =>
    let py_values := prod_map id VFloat <$> values in
    cc <~ match control_wells !! well with
          | Some control_type =>
              call <~ check_control p py_values (Control control_type) ;;
              Ok (call, Some control_type)
          | None =>
              call <~ call_well p py_values ;;
              Ok (call, None)
          end ;;
    Ok (item_set well
          {| accession := Some "MISSING"; call := cc.1;
             gene_cts := list_to_map values; control_type := cc.2 |}
          results)) suf R
  = (rest <~ list_comprehension (fun '(well, values) =>
       let py_values := prod_map id VFloat <$> values in
       cc <~ match control_wells !! well with
             | Some control_type =>
                 call <~ check_control p py_values (Control control_type) ;;
                 Ok (call, Some control_type)
             | None =>
                 call <~ call_well p py_values ;;
                 Ok (call, None)
             end ;;
       Ok (well, {| accession := Some "MISSING"; call := cc.1;
                    gene_cts := list_to_map values; control_type := cc.2 |})) suf ;;
     Ok (R ++ rest)).
Proof.
  revert pre R. induction suf as [|[w values] suf IH]; intros pre R Hnd HR.
  - simpl. by rewrite app_nil_r.
  - cbn [rfold list_comprehension]. cbv zeta.
    assert (Hw : w ∉ R.*1).
    { rewrite HR. rewrite fmap_app, fmap_cons in Hnd.
      apply NoDup_app in Hnd as (_ & Hw & _). intros Hin. apply (Hw w Hin). by left. }
    assert (Hnext : forall r,
      rfold (fun results '(well, values) =>
        let py_values := prod_map id VFloat <$> values in
        cc <~ match control_wells !! well with
              | Some control_type =>
                  call <~ check_control p py_values (Control control_type) ;;
                  Ok (call, Some control_type)
              | None =>
                  call <~ call_well p py_values ;;
                  Ok (call, None)
              end ;;
        Ok (item_set well
              {| accession := Some "MISSING"; call := cc.1;
                 gene_cts := list_to_map values; control_type := cc.2 |}
              results)) suf (item_set w r R)
      = (rest <~ (xs <~ list_comprehension (fun '(well, values) =>
           let py_values := prod_map id VFloat <$> values in
           cc <~ match control_wells !! well with
                 | Some control_type =>
                     call <~ check_control p py_values (Control control_type) ;;
                     Ok (call, Some control_type)
                 | None =>
                     call <~ call_well p py_values ;;
                     Ok (call, None)
                 end ;;
           Ok (well, {| accession := Some "MISSING"; call := cc.1;
                        gene_cts := list_to_map values; control_type := cc.2 |})) suf ;;
                  Ok ((w, r) :: xs)) ;;
         Ok (R ++ rest))).
    { intros r. rewrite item_set_new by done. rewrite (IH (pre ++ [(w, values)])).
      - destruct (list_comprehension _ suf) as [rest|e]; [|done]. cbn [rbind].
        by rewrite <- app_assoc.
      - by rewrite <- app_assoc.
      - by rewrite !fmap_app, HR. }
    destruct (control_wells !! w) as [ct|].
    + destruct (check_control p _ (Control ct)) as [c|e]; [|done]. cbn [rbind]. apply Hnext.
    + destruct (call_well p _) as [c|e]; [|done]. cbn [rbind]. apply Hnext.
Qed.

Lemma map_384_to_96_NoDup data mapping wells :
  map_384_to_96 data mapping = Ok wells -> NoDup wells.*1.
Proof.
  intros Hw. destruct (decide (flat_mapping mapping = [])) as [Hflat|Hflat].
  - rewrite (proj2 (proj2 (map_384_to_96_outcome data mapping)) Hflat) in Hw.
    injection Hw as <-. constructor.
  - destruct (map_384_to_96_items data mapping wells Hw Hflat) as [-> _].
    apply dict_comprehension_NoDup.
Qed.

Lemma local_processing_returns data control_wells p :
  cutoffs_not_nan p -> covers data (mapping p) ->
  exists results, local_processing data control_wells p = Ok results.
Proof.
  intros Hp Hc. unfold local_processing.
  destruct (proj2 (proj1 (map_384_to_96_outcome data (mapping p))) Hc) as [wells Hwells].
  rewrite Hwells. pose proof (map_384_to_96_NoDup _ _ _ Hwells) as Hnd.
  pose proof (local_processing_loop p control_wells [] wells [] Hnd eq_refl) as Hloop.
  cbv zeta in Hloop. cbv zeta. unfold rbind at 1. rewrite Hloop. clear Hloop.
  match goal with
  | |- exists results, (rest <~ list_comprehension ?f wells ;; _) = _ =>
      destruct (proj2 (list_comprehension_Ok_iff f wells)) as [rest ->]; [|by eexists]
  end.
  intros [w values] _.
  destruct (control_wells !! w) as [ct|].
  - destruct (check_control_total p (prod_map id VFloat <$> values) ct Hp
                (cq_values_floats values)) as (c & -> & _). by eexists.
  - destruct (call_well_total p (prod_map id VFloat <$> values) Hp
                (cq_values_floats values)) as (c & -> & _). by eexists.
Qed.

Lemma local_processing_items (data : string -> Fluor -> option float)
    (control_wells : gmap string ControlType) (p : Protocol)
    (results : list (string * WellResults)) :
  local_processing data control_wells p = Ok results ->
  exists wells, map_384_to_96 data (mapping p) = Ok wells /\
    results.*1 = wells.*1 /\
    forall well values, (well, values) ∈ wells ->
      exists r, item_get well results = Some r /\
        accession r = Some "MISSING" /\ gene_cts r = list_to_map values /\
        control_type r = control_wells !! well /\
        match control_wells !! well with
        | Some ct =>
            check_control p (prod_map id VFloat <$> values) (Control ct) = Ok (call r) /\
            (call r = PASS \/ call r = FAIL)
        | None =>
            call_well p (prod_map id VFloat <$> values) = Ok (call r) /\
            call r ∈ [POS; POS_REVIEW; IND; NEG; INV]
        end.
Proof.
  unfold local_processing.
  destruct (map_384_to_96 data (mapping p)) as [wells|e] eqn:Hwells; [|done].
  pose proof (map_384_to_96_NoDup _ _ _ Hwells) as Hnd.
  intros Hres. exists wells. split; [done|].
  pose proof (local_processing_loop p control_wells [] wells [] Hnd eq_refl) as Hloop.
  cbv zeta in Hloop. cbv zeta in Hres. unfold rbind at 1 in Hres.
  rewrite Hres in Hloop. clear Hres.
  destruct (list_comprehension _ wells) as [rest|e] eqn:Hrest; [|done].
  cbn [rbind app] in Hloop. injection Hloop as ->.
  apply list_comprehension_lookup in Hrest.
  assert (Hkeys : rest.*1 = wells.*1).
  { clear Hnd Hwells. induction Hrest as [|[w vs] [w' r] ws rs Hx _ IH]; [done|].
    rewrite !fmap_cons, IH. f_equal. simpl.
    destruct (control_wells !! w);
      [destruct (check_control p _ _)|destruct (call_well p _)]; simpl in Hx; congruence. }
  split; [done|]. intros well values Hin.
  apply list_elem_of_lookup in Hin as [i Hi].
  destruct (Forall2_lookup_l _ _ _ _ _ Hrest Hi) as ([w r] & Hri & Hx).
  assert (Hget : forall r0, (well, r0) = (w, r) -> item_get well rest = Some r0).
  { intros r0 [= <- <-]. apply item_get_in; [by rewrite Hkeys|].
    by eapply list_elem_of_lookup_2. }
  cbv zeta in Hx. destruct (control_wells !! well) as [ct|].
  - destruct (check_control p _ (Control ct)) as [c|e] eqn:Hc; [|done].
    simpl in Hx. injection Hx as Hw Hr. subst w r. eexists.
    split; [by apply Hget|].
    simpl. do 3 (split; [done|]). split; [done|]. by eapply check_control_range.
  - destruct (call_well p _) as [c|e] eqn:Hc; [|done].
    simpl in Hx. injection Hx as Hw Hr. subst w r. eexists.
    split; [by apply Hget|].
    simpl. do 3 (split; [done|]). split; [done|]. by eapply call_well_range.
Qed.

(** X16.  What [local_processing] returns: the wells of the 96-well view, in
    the same order; a well listed among the control wells holds the status
    that [check_control] gives its values for its control type, Pass or Fail;
    any other well holds the sample call of [call_well], and no control type.
    Every well holds its Cq values. *)
Theorem local_processing_wells (data : string -> Fluor -> option float)
    (control_wells : gmap string ControlType) (p : Protocol)
    (results : list (string * WellResults)) :
  local_processing data control_wells p = Ok results ->
  exists wells, map_384_to_96 data (mapping p) = Ok wells /\
    results.*1 = wells.*1 /\
    forall well values, (well, values) ∈ wells ->
      exists r, item_get well results = Some r /\
        accession r = Some "MISSING" /\ gene_cts r = list_to_map values /\
        control_type r = control_wells !! well /\
        match control_wells !! well with
        | Some ct =>
            check_control p (prod_map id VFloat <$> values) (Control ct) = Ok (call r) /\
            (call r = PASS \/ call r = FAIL)
        | None =>
            call_well p (prod_map id VFloat <$> values) = Ok (call r) /\
            call r ∈ [POS; POS_REVIEW; IND; NEG; INV]
        end.
Proof. exact (local_processing_items data control_wells p results). Qed.

Lemma local_processing_wells_witness :
  exists results wells,
    local_processing (fun _ _ => Some (F64.of_Z 30)) {["A1" := NTC]} SOP_V2 = Ok results /\
    map_384_to_96 (fun _ _ => Some (F64.of_Z 30)) (mapping SOP_V2) = Ok wells /\
    results.*1 = wells.*1.
Proof.
  destruct (local_processing_returns (fun _ _ => Some (F64.of_Z 30)) {["A1" := NTC]} SOP_V2
              (cutoffs_not_nan_check SOP_V2 eq_refl)) as [results Hres].
  { intros well_id targets fluor position gene well _ _ _. by eexists. }
  destruct (local_processing_wells _ _ _ _ Hres) as (wells & H1 & H2 & _).
  exists results, wells. split; [exact Hres|]. split; [exact H1|exact H2].
Defined.

Lemma complete_cts_same_cts p (wm wm' : plate) :
  same_cts wm wm' -> complete_cts p wm -> complete_cts p wm'.
Proof.
  intros Hs Hc k r' g Hk Hg. specialize (Hs k). rewrite Hk in Hs. simpl in Hs.
  destruct (wm !! k) as [r|] eqn:Hr; [|done]. injection Hs as <-. by eapply Hc.
Qed.

(** [flag_contamination] returns on a plate all of whose wells hold the Cq
    values of the virus genes and have identifiers that can be scanned *)
Lemma flag_contamination_returns p order (wm : plate) :
  complete_cts p wm ->
  (forall w, w ∈ order -> scannable_id (radius p) w) ->
  (forall x, v3 p = Some x -> forall w, w ∈ order -> scannable_id (hot_well_radius x) w) ->
  (flag_contamination p order wm).2 = Ok tt.
Proof.
  intros Hc Hr Hh. unfold flag_contamination, Protocol_flag_contamination,
    V3Protocol_flag_contamination.
  destruct (v3 p) as [x|]; [|by apply check_square_returns].
  rewrite (bind_run _ _ _ tt); [|apply check_square_returns; [done|by apply Hh]].
  apply check_square_returns; [|done].
  eapply complete_cts_same_cts; [|exact Hc].
  eapply escalation_same_cts. apply check_square_escalation.
Qed.

Lemma item_get_list_to_map {V} (l : list (string * V)) k :
  (list_to_map l : gmap string V) !! k = item_get k l.
Proof.
  induction l as [|[k' v] l IH]; [done|]. simpl.
  destruct (decide (k = k')) as [->|Hne].
  - by rewrite lookup_insert_eq.
  - by rewrite lookup_insert_ne.
Qed.

Lemma plate_ids_scannable w radius :
  w ∈ MAP_96_TO_384_PADDED.*1 -> 0 <= radius <= 65 -> scannable_id radius w.
Proof.
  intros Hw Hr.
  assert (Hall : forallb (fun w =>
            match ord (first_char w), py_int (but_first w) with
            | Ok row, Ok col => (65 <=? row) && (row <=? 72)
            | _, _ => false
            end) MAP_96_TO_384_PADDED.*1 = true) by (vm_compute; reflexivity).
  rewrite forallb_forall in Hall. apply list_elem_of_In in Hw. specialize (Hall _ Hw).
  clear Hw. unfold scannable_id.
  destruct (ord (first_char w)) as [row|]; [|done].
  destruct (py_int (but_first w)) as [col|]; [|done].
  exists row, col. do 2 (split; [done|]). lia.
Qed.

Lemma with_accessions_keys results accession_data :
  (with_accessions results accession_data).*1 = results.*1.
Proof.
  unfold with_accessions, add_accession_barcodes_to_results. case_decide; [done|].
  rewrite <- list_fmap_compose. apply list_fmap_ext. by intros _ [w r] _.
Qed.

Lemma with_accessions_lookup results accession_data well r' :
  item_get well (with_accessions results accession_data) = Some r' ->
  exists r, item_get well results = Some r /\ call r' = call r /\
            gene_cts r' = gene_cts r /\ control_type r' = control_type r.
Proof.
  unfold with_accessions, add_accession_barcodes_to_results. case_decide; [by eauto|].
  induction results as [|[w r] results IH]; [done|]. simpl.
  destruct (decide (well = w)) as [->|]; [|done]. intros [= <-]. by eexists.
Qed.

Lemma with_accessions_lookup_2 results accession_data well r :
  item_get well results = Some r ->
  exists r', item_get well (with_accessions results accession_data) = Some r' /\
             call r' = call r /\ gene_cts r' = gene_cts r /\
             control_type r' = control_type r.
Proof.
  unfold with_accessions, add_accession_barcodes_to_results. case_decide; [by eauto|].
  induction results as [|[w r0] results IH]; [done|]. simpl.
  destruct (decide (well = w)) as [->|]; [|done]. intros [= <-]. by eexists.
Qed.

Lemma registered_protocol_facts protocol_name p :
  get_protocol protocol_name = Ok p ->
  cutoffs_not_nan p /\ flat_mapping (mapping p) <> [] /\
  (forall g, g ∈ dict_keys (virus_genes p) -> g ∈ mapped_genes (mapping p)) /\
  0 <= radius p <= 65 /\
  (forall x, v3 p = Some x -> 0 <= hot_well_radius x <= 65).
Proof.
  assert (Hgen : forall q,
    forallb (fun gt => thresholds_not_nan gt.2) (gene_cutoffs q) = true ->
    flat_mapping (mapping q) <> [] ->
    forallb (fun g => bool_decide (g ∈ mapped_genes (mapping q)))
      (dict_keys (virus_genes q)) = true ->
    0 <= radius q <= 65 ->
    (forall x, v3 q = Some x -> 0 <= hot_well_radius x <= 65) ->
    cutoffs_not_nan q /\ flat_mapping (mapping q) <> [] /\
    (forall g, g ∈ dict_keys (virus_genes q) -> g ∈ mapped_genes (mapping q)) /\
    0 <= radius q <= 65 /\
    (forall x, v3 q = Some x -> 0 <= hot_well_radius x <= 65)).
  { intros q H1 H2 H3 H4 H5. split; [by apply cutoffs_not_nan_check|]. split; [done|].
    split; [|done]. intros g Hg. rewrite forallb_forall in H3.
    apply (bool_decide_eq_true_1 _). apply H3. by apply list_elem_of_In. }
  unfold get_protocol. repeat case_decide; intros [= <-]; apply Hgen;
    try reflexivity; try done; try (cbn; lia).
  intros x [= <-]. cbn. lia.
Qed.

(** X17.  The calling pipeline runs through on complete data: for a
    registered protocol and data that hold a Cq value wherever the mapping
    reads one, [local_processing] returns the 96 wells of the plate in order
    and, with or without accessions, [flag_contamination] returns on them.
    The wells that are not positive (the control wells among them, which
    hold Pass or Fail) keep their call. *)
Theorem calling_pipeline_returns (protocol_name : string) (p : Protocol)
    (data : string -> Fluor -> option float) (control_wells : gmap string ControlType)
    (accession_data : gmap string string) :
  get_protocol protocol_name = Ok p -> covers data (mapping p) ->
  exists results,
    local_processing data control_wells p = Ok results /\
    results.*1 = MAP_96_TO_384_PADDED.*1 /\
    (flag_contamination p (with_accessions results accession_data).*1
       (list_to_map (with_accessions results accession_data))).2 = Ok tt /\
    forall well r, item_get well results = Some r ->
      (is_Some (control_wells !! well) -> call r = PASS \/ call r = FAIL) /\
      (is_positive (call r) = false ->
       call_of (flag_contamination p (with_accessions results accession_data).*1
                  (list_to_map (with_accessions results accession_data))).1 well
       = Some (call r)).
Proof.
  intros Hget Hcov.
  destruct (registered_protocol_facts _ _ Hget) as (Hp & Hflat & Hgenes & Hrad & Hhot).
  destruct (local_processing_returns data control_wells p Hp Hcov) as [results Hres].
  exists results. split; [done|].
  destruct (local_processing_items _ _ _ _ Hres) as (wells & Hwells & Hkeys & Hitems).
  destruct (map_384_to_96_items _ _ _ Hwells Hflat) as [Hwk Hlook].
  assert (Hrk : results.*1 = MAP_96_TO_384_PADDED.*1) by congruence.
  split; [done|].
  assert (Hnd : NoDup results.*1) by (rewrite Hrk; apply dict_comprehension_NoDup).
  assert (Hfind : forall well r, item_get well results = Some r ->
            exists values, (well, values) ∈ wells /\ gene_cts r = list_to_map values /\
              control_type r = control_wells !! well /\
              (is_Some (control_wells !! well) -> call r = PASS \/ call r = FAIL)).
  { intros well r Hr.
    assert (Hw : well ∈ wells.*1).
    { rewrite <- Hkeys. apply item_get_Some_in in Hr.
      apply list_elem_of_fmap. exists (well, r). split; [reflexivity|exact Hr]. }
    apply list_elem_of_fmap in Hw as ([w values] & -> & Hin). simpl in Hr |- *.
    destruct (Hitems w values Hin) as (r0 & Hr0 & _ & Hcts & Hct & Hcall).
    rewrite Hr in Hr0. injection Hr0 as <-. exists values. do 3 (split; [done|]).
    intros [ct Hc]. rewrite Hc in Hcall. by destruct Hcall. }
  split.
  - apply flag_contamination_returns.
    + intros k r' g Hk Hg. rewrite item_get_list_to_map in Hk.
      apply with_accessions_lookup in Hk as (r & Hr & _ & -> & _).
      destruct (Hfind k r Hr) as (values & Hin & -> & _).
      rewrite item_get_list_to_map.
      apply Hgenes, list_elem_of_fmap in Hg as ([fluor [position gene]] & -> & Hf).
      assert (Hin' : exists targets, (k, targets) ∈ MAP_96_TO_384_PADDED).
      { assert (Hk : k ∈ MAP_96_TO_384_PADDED.*1).
        { rewrite <- Hwk. apply list_elem_of_fmap. exists (k, values).
          split; [reflexivity|exact Hin]. }
        apply list_elem_of_fmap in Hk as ([k' targets] & -> & ?). by exists targets. }
      destruct Hin' as [targets Hin'].
      destruct (Hlook k targets Hin') as (values' & Hv' & _ & Hit).
      rewrite (item_get_in k values wells) in Hv'; [|by rewrite Hwk, <- Hrk|done].
      injection Hv' as <-.
      destruct (Hit fluor position gene Hf) as (_ & _ & _ & _ & Hs & _). done.
    + intros w Hw. rewrite with_accessions_keys, Hrk in Hw. by apply plate_ids_scannable.
    + intros x Hx w Hw. rewrite with_accessions_keys, Hrk in Hw.
      apply plate_ids_scannable; [done|]. by apply Hhot.
  - intros well r Hr. destruct (Hfind well r Hr) as (_ & _ & _ & _ & Hc). split; [done|].
    intros Hneg.
    destruct (with_accessions_lookup_2 results accession_data well r Hr)
      as (r' & Hr' & Hcall & _).
    rewrite <- item_get_list_to_map in Hr'.
    destruct (escalation_lookup _ _ _ well r'
                (flag_contamination_escalation p
                   (with_accessions results accession_data).*1 _) Hr')
      as (r'' & Hr'' & _ & Hesc).
    unfold call_of. rewrite Hr''. simpl. f_equal.
    destruct Hesc as [-> | [Hpos _]]; [done|]. congruence.
Qed.

Lemma calling_pipeline_returns_witness :
  exists results,
    local_processing (fun _ _ => Some (F64.of_Z 30)) {["A1" := NTC]} SOP_V3 = Ok results /\
    results.*1 = MAP_96_TO_384_PADDED.*1 /\
    (flag_contamination SOP_V3 (with_accessions results ∅).*1
       (list_to_map (with_accessions results ∅))).2 = Ok tt.
Proof.
  destruct (calling_pipeline_returns "SOP-V3" SOP_V3 (fun _ _ => Some (F64.of_Z 30))
              {["A1" := NTC]} ∅ eq_refl) as (results & H1 & H2 & H3 & _).
  - intros well_id targets fluor position gene well _ _ _. by eexists.
  - exists results. split; [exact H1|]. split; [exact H2|exact H3].
Defined.

(** ** Wells that are not positive, and wells out of reach *)

Lemma check_square_no_positive p radius cutoff flag order (wm : plate) :
  (forall w r, w ∈ order -> wm !! w = Some r -> is_positive (call r) = false) ->
  check_square p radius cutoff flag order wm = (wm, Ok tt).
Proof.
  unfold check_square. induction order as [|w order IH]; intros Hneg; [done|].
  cbn [for_]. unfold bind at 1.
  assert (Hw : visit_well p radius cutoff flag w wm = (wm, Ok tt)).
  { unfold visit_well, bind, get_plate. destruct (wm !! w) as [r|] eqn:Hr; [|done].
    rewrite (Hneg w r); [done|by left|done]. }
  rewrite Hw. apply IH. intros w' r Hin. apply Hneg. by right.
Qed.

(** X18.  A plate on which no well has a positive call goes through
    [flag_contamination] unchanged, and without an exception, whatever the
    identifiers and the Cq values of its wells are: a well that is not
    positive is skipped before its identifier is read. *)
Theorem flag_contamination_no_positive (p : Protocol) (order : list string) (wm : plate) :
  (forall w r, w ∈ order -> wm !! w = Some r -> is_positive (call r) = false) ->
  flag_contamination p order wm = (wm, Ok tt).
Proof.
  intros Hneg. unfold flag_contamination, Protocol_flag_contamination,
    V3Protocol_flag_contamination.
  destruct (v3 p) as [x|]; [|by apply check_square_no_positive].
  unfold bind. rewrite check_square_no_positive by done.
  by apply check_square_no_positive.
Qed.

Lemma flag_contamination_no_positive_witness :
  flag_contamination SOP_V3 ["well"; ""]
    (list_to_map [("well", well NEG None None None); ("", well INV None None None)])
  = (list_to_map [("well", well NEG None None None); ("", well INV None None None)], Ok tt).
Proof.
  apply (flag_contamination_no_positive SOP_V3 ["well"; ""]).
  intros w r Hw. apply list_elem_of_In in Hw.
  destruct Hw as [<-|[<-|[]]]; vm_compute; by intros [= <-].
Defined.

Lemma any_test_ext_in {A} (test test' : A -> result bool) xs :
  (forall x, x ∈ xs -> test x = test' x) -> any_test test xs = any_test test' xs.
Proof.
  induction xs as [|x xs IH]; intros H; simpl; [done|].
  rewrite H by left. rewrite IH; [done|]. intros. apply H. by right.
Qed.

(** Whether a well fires depends on the wells of its square only *)
Lemma well_fires_local p radius cutoff (wm wm' : plate) w r :
  (forall row col i j nm,
     ord (first_char w) = Ok row -> py_int (but_first w) = Ok col ->
     row - radius <= i <= row + radius -> col - radius <= j <= col + radius ->
     well_name i j = Some nm -> gene_cts <$> wm !! nm = gene_cts <$> wm' !! nm) ->
  well_fires p radius cutoff wm w r = well_fires p radius cutoff wm' w r.
Proof.
  intros Hloc. unfold well_fires.
  destruct (ord (first_char w)) as [row|e] eqn:Hrow; simpl; [|done].
  destruct (py_int (but_first w)) as [col|e] eqn:Hcol; simpl; [|done].
  apply any_test_ext_in. intros i Hi. apply elem_of_seqZ in Hi. unfold row_fires.
  destruct (chr i) as [other_row|e] eqn:Hchr; simpl; [|done].
  assert (other_row = i) as ->.
  { unfold chr in Hchr. by destruct ((0 <=? i) && (i <=? 1114111)); [injection Hchr|]. }
  apply any_test_ext_in. intros j Hj. apply elem_of_seqZ in Hj. unfold neighbor_fires.
  destruct (well_name i j) as [nm|] eqn:Hnm; simpl; [|done].
  specialize (Hloc row col i j nm eq_refl eq_refl ltac:(lia) ltac:(lia) Hnm).
  destruct (wm !! nm) as [o|], (wm' !! nm) as [o'|]; try done.
  injection Hloc as Ho. by apply compare_wells_gene_cts.
Qed.

(** X19.  A pass of [check_square] is local: the call that a well ends with
    depends on the well itself and on the Cq values of the wells within the
    radius of it, rows and columns, and on nothing else of the plate.  Two
    plates that agree there give the well the same call. *)
Theorem check_square_local (p : Protocol) (radius : Z) (cutoff : float) (flag : Call)
    (order : list string) (wm wm' : plate) (w : string) :
  is_positive flag = true -> NoDup order ->
  (check_square p radius cutoff flag order wm).2 = Ok tt ->
  (check_square p radius cutoff flag order wm').2 = Ok tt ->
  wm !! w = wm' !! w ->
  (forall row col i j nm,
     ord (first_char w) = Ok row -> py_int (but_first w) = Ok col ->
     row - radius <= i <= row + radius -> col - radius <= j <= col + radius ->
     well_name i j = Some nm -> gene_cts <$> wm !! nm = gene_cts <$> wm' !! nm) ->
  call_of (check_square p radius cutoff flag order wm).1 w
  = call_of (check_square p radius cutoff flag order wm').1 w.
Proof.
  intros Hflag Hnd Hok Hok' Hw Hloc. unfold call_of.
  destruct (wm !! w) as [r|] eqn:Hr.
  - symmetry in Hw.
    destruct (proj2 (check_square_pass_call p radius cutoff flag order wm Hflag Hnd)
                Hok w r Hr) as [Hin Hout].
    destruct (proj2 (check_square_pass_call p radius cutoff flag order wm' Hflag Hnd)
                Hok' w r Hw) as [Hin' Hout'].
    destruct (decide (w ∈ order)) as [Ho|Ho].
    + destruct (Hin Ho) as (c & Hc & ->). destruct (Hin' Ho) as (c' & Hc' & ->).
      simpl. f_equal. rewrite pass_call_flagged in Hc, Hc'.
      rewrite (well_fires_local p radius cutoff wm wm' w r Hloc) in Hc. congruence.
    + by rewrite (Hout Ho), (Hout' Ho).
  - symmetry in Hw.
    pose proof (check_square_escalation p radius cutoff flag order wm w) as He.
    pose proof (check_square_escalation p radius cutoff flag order wm' w) as He'.
    rewrite Hr in He. rewrite Hw in He'.
    destruct ((check_square p radius cutoff flag order wm).1 !! w); [done|].
    by destruct ((check_square p radius cutoff flag order wm').1 !! w).
Qed.

Lemma check_square_local_witness :
  call_of (check_square SOP_V3 1 (F64.lit 150 1) POS_CLUSTER ["A1"; "A2"]
             (list_to_map (beside IND))).1 "A1"
  = call_of (check_square SOP_V3 1 (F64.lit 150 1) POS_CLUSTER ["A1"; "A2"]
               (<["H12" := well POS (Some 1) (Some 1) (Some 1)]>
                  (list_to_map (beside IND)))).1 "A1".
Proof.
  apply (check_square_local SOP_V3 1 (F64.lit 150 1) POS_CLUSTER ["A1"; "A2"]
           (list_to_map (beside IND))
           (<["H12" := well POS (Some 1) (Some 1) (Some 1)]> (list_to_map (beside IND)))
           "A1" eq_refl).
  - apply (bool_decide_unpack _). vm_compute. reflexivity.
  - vm_compute. reflexivity.
  - vm_compute. reflexivity.
  - vm_compute. reflexivity.
  - intros row col i j nm Hrow _ Hi _ Hnm. vm_compute in Hrow. injection Hrow as <-.
    rewrite lookup_insert_ne; [done|].
    intros <-. unfold well_name in Hnm. destruct (i <? 256); [|done].
    injection Hnm as Ha _.
    assert (Hcases : i = 64 \/ i = 65 \/ i = 66) by lia.
    destruct Hcases as [-> | [-> | ->]]; vm_compute in Ha; discriminate.
Defined.

(** ** Positive calls and detection *)

Lemma set_comprehension_inv cond items S :
  set_comprehension cond items = Ok S ->
  (forall g v, (g, v) ∈ items -> exists b, cond g v = Ok b) /\
  (forall g, g ∈ S <-> exists v, (g, v) ∈ items /\ cond g v = Ok true).
Proof.
  revert S. induction items as [|[g0 v0] items IH]; intros S; simpl.
  - intros [= <-]. split; [intros g v Hin; by apply elem_of_nil in Hin|].
    intros g. split; [set_solver|]. intros (v & Hin & _). by apply elem_of_nil in Hin.
  - destruct (cond g0 v0) as [b0|e] eqn:Hc; simpl; [|done].
    destruct (set_comprehension cond items) as [S'|e]; simpl; [|done].
    intros [= <-]. destruct (IH S' eq_refl) as [Hall HS]. split.
    + intros g v Hin. apply elem_of_cons in Hin as [[= -> ->]|Hin]; eauto.
    + intros g. destruct b0.
      * rewrite elem_of_union, elem_of_singleton, HS. split.
        -- intros [-> | (v & Hin & Hv)]; [exists v0 | exists v]; split; auto; by constructor.
        -- intros (v & Hin & Hv). apply elem_of_cons in Hin as [[= -> ->]|Hin]; eauto.
      * rewrite HS. split.
        -- intros (v & Hin & Hv). exists v. split; [by right|done].
        -- intros (v & Hin & Hv).
           apply elem_of_cons in Hin as [[= -> ->]|Hin]; [congruence|eauto].
Qed.

Lemma detected_genes_inv values d :
  detected_genes values = Ok d -> forall g, g ∈ d <-> detected_in values g.
Proof.
  intros Hd. apply set_comprehension_inv in Hd as [Hall Hd]. intros g. rewrite Hd.
  unfold detected_in. split; intros (v & Hin & Hv); exists v; (split; [done|]).
  - destruct v as [x|s]; simpl in *; [by destruct (F64.is_nan x)|].
    repeat case_decide; simpl in *; try done; subst; done.
  - destruct (Hall g v Hin) as [b Hb].
    destruct v as [x|s]; simpl in *; [by destruct (F64.is_nan x)|].
    repeat case_decide; simpl in *; try done; subst; done.
Qed.

(** X20.  A sample call tells whether a virus gene was detected: whenever
    [call_well] returns, its result is Positive, Indeterminate or
    Positive-needs-review exactly when some virus gene of the protocol is
    detected in the map; under SOP-V3 this is exactly when the call is
    positive, and before SOP-V3 a detection can also give the call
    Indeterminate, which is not positive. *)
Theorem call_well_detects (p : Protocol) (values : list (Gene * PyVal)) (c : Call) :
  call_well p values = Ok c ->
  ((exists g, g ∈ key_set (virus_genes p) /\ detected_in values g) <->
   c = POS \/ c = IND \/ c = POS_REVIEW) /\
  (v3 p <> None ->
   ((exists g, g ∈ key_set (virus_genes p) /\ detected_in values g) <->
    is_positive c = true)) /\
  (v3 p = None -> is_positive c = true -> c = POS).
Proof.
  unfold call_well, V3Protocol_call_well, Protocol_call_well.
  destruct (detected_genes values) as [d|e] eqn:Hd; [|by destruct (v3 p)].
  pose proof (detected_genes_inv values d Hd) as Hin.
  assert (Hdet : (exists g, g ∈ key_set (virus_genes p) /\ detected_in values g) <->
                 d ∩ key_set (virus_genes p) ≠ ∅).
  { split.
    - intros (g & Hg & Hv). apply Hin in Hv. set_solver.
    - intros Hne. apply set_choose_L in Hne as [g Hg]. exists g.
      apply elem_of_intersection in Hg as [Hgd Hgv]. split; [done|]. by apply Hin. }
  rewrite Hdet. cbn [rbind].
  destruct (called_genes p SAMPLE values) as [s|e]; [|by destruct (v3 p)]. cbn [rbind].
  destruct (v3 p) as [x|]; repeat case_bool_decide; cbn [rbind];
    try case_decide; intros [= <-]; (split; [|split]); try done;
    try (split; [by auto|]; intros [?|[?|?]]; done);
    try (intros _; split; done).
Qed.

Lemma call_well_detects_witness :
  call_well SOP_V3 (cq_map None (Some 421) (Some 354)) = Ok POS_REVIEW /\
  is_positive POS_REVIEW = true.
Proof.
  assert (H : call_well SOP_V3 (cq_map None (Some 421) (Some 354)) = Ok POS_REVIEW)
    by (vm_compute; reflexivity).
  split; [exact H|].
  apply (proj1 (proj2 (call_well_detects SOP_V3 (cq_map None (Some 421) (Some 354))
                         POS_REVIEW H))); [discriminate|].
  exists "E". split; [apply (bool_decide_unpack _); vm_compute; reflexivity|].
  exists (VFloat (F64.lit 421 1)). split; [|reflexivity].
  by apply (list_elem_of_lookup_2 _ 1%nat).
Defined.

(** ** The order of the genes in a map *)

Lemma set_comprehension_Permutation cond l l' S :
  Permutation l l' -> set_comprehension cond l = Ok S -> set_comprehension cond l' = Ok S.
Proof.
  intros Hp. revert S. induction Hp as [|[g v] l l' _ IH|[g v] [g' v'] l|l l' l'' _ IH1 _ IH2];
    intros S; simpl.
  - done.
  - destruct (cond g v) as [b|e]; simpl; [|done].
    destruct (set_comprehension cond l) as [S0|e]; simpl; [|done].
    rewrite (IH S0 eq_refl). done.
  - destruct (cond g v) as [b|e], (cond g' v') as [b'|e'],
      (set_comprehension cond l) as [S0|e0]; simpl; try done.
    intros [= <-]. f_equal. destruct b, b'; set_solver.
  - intros H. by apply IH2, IH1.
Qed.

(** X21.  The order of the items of a gene-to-Cq map does not matter: when
    [call_well] or [check_control] returns on a map, it returns the same on
    the same items in any other order. *)
Theorem classifier_order_independent (p : Protocol) (values values' : list (Gene * PyVal)) :
  Permutation values values' ->
  (forall c, call_well p values = Ok c -> call_well p values' = Ok c) /\
  (forall control_type c,
     check_control p values control_type = Ok c ->
     check_control p values' control_type = Ok c).
Proof.
  intros Hp. split.
  - intros c. unfold call_well, V3Protocol_call_well, Protocol_call_well.
    destruct (detected_genes values) as [d|e] eqn:Hd; [|by destruct (v3 p)].
    destruct (called_genes p SAMPLE values) as [s|e] eqn:Hs; [|by destruct (v3 p)].
    unfold detected_genes, called_genes in *.
    rewrite (set_comprehension_Permutation _ _ _ _ Hp Hd).
    rewrite (set_comprehension_Permutation _ _ _ _ Hp Hs). done.
  - intros control_type c. unfold check_control.
    destruct (called_genes p control_type values) as [s|e] eqn:Hs; [|done].
    unfold called_genes in *. rewrite (set_comprehension_Permutation _ _ _ _ Hp Hs). done.
Qed.

Lemma classifier_order_independent_witness :
  call_well SOP_V2 (reverse (cq_map None None (Some 354))) = Ok NEG.
Proof.
  apply (proj1 (classifier_order_independent SOP_V2 (cq_map None None (Some 354))
                  (reverse (cq_map None None (Some 354)))
                  (Permutation_sym (reverse_Permutation _)))).
  vm_compute. reflexivity.
Defined.

(** ** When a pass returns *)

Lemma any_test_returns {A} (test : A -> result bool) xs :
  (forall x, x ∈ xs -> exists b, test x = Ok b) -> exists b, any_test test xs = Ok b.
Proof.
  induction xs as [|x xs IH]; intros H; simpl; [by eexists|].
  destruct (H x) as [b ->]; [by left|]. simpl.
  destruct IH as [b' ->]; [intros; apply H; by right|]. simpl. by eexists.
Qed.

Lemma well_fires_returns p radius cutoff (wm : plate) w r :
  (exists b, well_fires p radius cutoff wm w r = Ok b) <-> scan_ready p radius cutoff wm w r.
Proof.
  unfold well_fires, scan_ready. split.
  - intros [b Hb].
    destruct (ord (first_char w)) as [row|e] eqn:Hrow; simpl in Hb; [|done].
    destruct (py_int (but_first w)) as [col|e] eqn:Hcol; simpl in Hb; [|done].
    exists row, col. do 2 (split; [done|]).
    apply any_test_Ok in Hb as [Hall _]. split.
    + intros i Hi. destruct (Hall i) as [bi Hbi]; [apply elem_of_seqZ; lia|].
      unfold row_fires, chr in Hbi.
      destruct ((0 <=? i) && (i <=? 1114111)) eqn:Hc; simpl in Hbi; [|done].
      apply andb_true_iff in Hc as [H1 H2]. apply Z.leb_le in H1, H2. lia.
    + intros o (row' & col' & i & j & nm & Hr' & Hc' & Hi & Hj & Hnm & Ho).
      rewrite Hrow in Hr'. rewrite Hcol in Hc'. injection Hr' as <-. injection Hc' as <-.
      destruct (Hall i) as [bi Hbi]; [apply elem_of_seqZ; lia|].
      unfold row_fires, chr in Hbi.
      destruct ((0 <=? i) && (i <=? 1114111)); simpl in Hbi; [|done].
      apply any_test_Ok in Hbi as [Hallj _].
      destruct (Hallj j) as [bj Hbj]; [apply elem_of_seqZ; lia|].
      unfold neighbor_fires in Hbj. rewrite Hnm in Hbj. simpl in Hbj. rewrite Ho in Hbj.
      by exists bj.
  - intros (row & col & Hrow & Hcol & Hchr & Hcmp). rewrite Hrow, Hcol. simpl.
    apply any_test_returns. intros i Hi. apply elem_of_seqZ in Hi.
    unfold row_fires, chr.
    assert (Hb : (0 <=? i) && (i <=? 1114111) = true).
    { specialize (Hchr i ltac:(lia)). apply andb_true_iff. split; apply Z.leb_le; lia. }
    rewrite Hb. simpl. apply any_test_returns. intros j Hj. apply elem_of_seqZ in Hj.
    unfold neighbor_fires.
    destruct (well_name i j) as [nm|] eqn:Hnm; simpl; [|by eexists].
    destruct (wm !! nm) as [o|] eqn:Ho; [|by eexists].
    apply Hcmp. exists row, col, i, j, nm. repeat split; auto; lia.
Qed.

(** [int] does not strip the separators at code points 28 to 31: an
    identifier that holds one before its column is not an integer, and the
    pass over a plate with such a positive well raises. *)
Lemma py_int_separator :
  let well_id := String "A" (String (Ascii.ascii_of_nat 28) "1") in
  py_int (but_first well_id) = Raise ValueError /\
  py_int (String " " "1") = Ok 1 /\
  (check_square SOP_V3 1 (F64.lit 150 1) POS_CLUSTER [well_id]
     (list_to_map [(well_id, well POS (Some 38) (Some 39) (Some 30))])).2
  = Raise ValueError.
Proof. repeat split; vm_compute; reflexivity. Qed.

(** X22.  A pass of [check_square] with a positive flag over the distinct keys
    of a plate returns exactly when every well of positive call is ready to
    be scanned: its identifier is one character followed by an integer, the
    rows within the radius are code points, and [compare_wells] returns for
    each well of the plate within the radius.  Otherwise it raises. *)
Theorem check_square_returns_iff (p : Protocol) (radius : Z) (cutoff : float) (flag : Call)
    (order : list string) (wm : plate) :
  is_positive flag = true -> NoDup order ->
  ((check_square p radius cutoff flag order wm).2 = Ok tt <->
   forall w r, w ∈ order -> wm !! w = Some r -> is_positive (call r) = true ->
     scan_ready p radius cutoff wm w r) /\
  ((check_square p radius cutoff flag order wm).2 <> Ok tt ->
   raises (check_square p radius cutoff flag order wm).2).
Proof.
  intros Hflag Hnd.
  destruct (check_square_pass_call p radius cutoff flag order wm Hflag Hnd) as [Hiff _].
  split.
  - rewrite Hiff. split.
    + intros H w r Hw Hr Hpos. destruct (H w r Hw Hr) as [c Hc].
      unfold pass_call in Hc. rewrite Hpos in Hc. apply well_fires_returns.
      destruct (well_fires p radius cutoff wm w r) as [b|e]; [by exists b|done].
    + intros H w r Hw Hr. unfold pass_call.
      destruct (is_positive (call r)) eqn:Hpos; [|by eexists].
      destruct (proj2 (well_fires_returns p radius cutoff wm w r) (H w r Hw Hr Hpos))
        as [b ->]. by eexists.
  - intros Hne. destruct ((check_square p radius cutoff flag order wm).2) as [[]|e];
      [done|by exists e].
Qed.

Lemma check_square_returns_iff_witness :
  (check_square SOP_V3 1 (F64.lit 150 1) POS_CLUSTER ["A1"; "A2"]
     (list_to_map (beside IND))).2 = Ok tt /\
  scan_ready SOP_V3 1 (F64.lit 150 1) (list_to_map (beside IND)) "A1"
    (well POS (Some 38) (Some 39) (Some 30)).
Proof.
  assert (Hok : (check_square SOP_V3 1 (F64.lit 150 1) POS_CLUSTER ["A1"; "A2"]
                   (list_to_map (beside IND))).2 = Ok tt) by (vm_compute; reflexivity).
  split; [exact Hok|].
  apply (proj1 (proj1 (check_square_returns_iff SOP_V3 1 (F64.lit 150 1) POS_CLUSTER
                         ["A1"; "A2"] (list_to_map (beside IND)) eq_refl
                         ltac:(apply (bool_decide_unpack _); vm_compute; reflexivity)))
           Hok "A1").
  - apply (bool_decide_unpack _). vm_compute. reflexivity.
  - vm_compute. reflexivity.
  - reflexivity.
Defined.
